(** * Character orchestration core: state store, session service,
      metrics engine and message orchestrator.

    A shallow embedding of
      - src/managers/CharacterStateManager.js
      - src/services/CustomCharacterService.js
      - src/services/MetricsCalculationService.js
      - src/services/GetStreamIntegration.js
    followed by the properties of the specification that concern them.

    Conventions of the embedding.
    - Every [async] method is a function from the service's fields (its
      maps, the durable store, the transport) to a result and the updated
      fields.  A rejected promise or a thrown exception is [Err].
    - What the outside world answers during one call (the clock, which
      durable-store calls fail, what the AI backend emits, what the
      transport answers) is an explicit argument, the record [Env].
    - Promises started without [await] ([.catch(console.error)]) have
      settled when the call that started them returns; operations on one
      character are taken one at a time.  The promises that one event
      starts together interleave as they do in the source: each of them
      has read the state before any of them writes it back. *)

From Stdlib Require Import ZArith SpecFloat Ascii String.
From stdpp Require Import gmap strings list pretty.

Open Scope string_scope.
Open Scope Z_scope.

(** ** Results of fallible calls *)

Inductive result (A : Type) : Type :=
  | Ok (a : A)
  | Err (msg : string).
Arguments Ok {A} a.
Arguments Err {A} msg.

Definition is_ok {A} (r : result A) : bool :=
  match r with Ok _ => true | Err _ => false end.

(** ** The outside world during one call *)

Inductive fs_op := FsGet | FsSet | FsUpdate | FsAdd | FsDelete.

(** Events the AI backend client emits while a caller waits for a turn. *)
Inductive backend_event :=
  | EvText (chunk : string)
  | EvComplete
  | EvError (msg : string).

Record Env := mkEnv {
  (** [Date.now()] *)
  now : Z;
  (** does this durable-store call reject?  (operation, collection, key) *)
  fs_fails : fs_op -> string -> string -> bool;
  (** does [client.connect()] of the character's client resolve? *)
  connect_ok : string -> bool;
  (** what the backend emits before the caller's safety timeout fires *)
  turn : list backend_event;
  (** [channel.create()] resolves? *)
  create_ok : string -> bool;
  (** [channel.watch()] resolves? *)
  watch_ok : string -> bool;
  (** [channel.addMembers] resolves? *)
  add_members_ok : string -> bool;
  (** [channel.sendMessage]: the transport-assigned id of the new message,
      by channel, author and text; [None] when the send rejects *)
  transport_send : string -> string -> string -> option string;
  (** does the configured [handleMessage] callback return normally? *)
  callback_ok : bool
}.

(** ** JavaScript numbers

    A JS number is an IEEE 754 binary64 value; [spec_float] at precision 53
    and maximal exponent 1024 is exactly that format, with its infinities,
    signed zeros and NaN. *)
Module Num.

Definition num : Type := spec_float.

Definition add : num -> num -> num := SFadd 53 1024.
Definition mul : num -> num -> num := SFmul 53 1024.

(** [a > b] and [a <= b]; both are false when an operand is NaN. *)
Definition gt (a b : num) : bool := SFltb b a.
Definition le (a b : num) : bool := SFleb a b.

Definition is_nan (x : num) : bool :=
  match x with S754_nan => true | _ => false end.
Definition is_pos_zero (x : num) : bool :=
  match x with S754_zero false => true | _ => false end.
Definition is_neg_zero (x : num) : bool :=
  match x with S754_zero true => true | _ => false end.

(** [Math.max(x, y)] and [Math.min(x, y)] (ECMA-262, 21.3.2.24/25): NaN if
    an argument is NaN, [+0] is larger than [-0]. *)
Definition Math_max (x y : num) : num :=
  if is_nan x || is_nan y then S754_nan
  else if is_neg_zero x && is_pos_zero y then y
  else if gt y x then y else x.

Definition Math_min (x y : num) : num :=
  if is_nan x || is_nan y then S754_nan
  else if is_pos_zero x && is_neg_zero y then y
  else if gt x y then y else x.

(** The literals of the metrics code, as binary64 values
    (mantissa and exponent of the nearest double). *)
Definition zero : num := S754_zero false.
Definition ten : num := S754_finite false 5629499534213120 (-49).
Definition c0_5 : num := S754_finite false 4503599627370496 (-53).
Definition c0_6 : num := S754_finite false 5404319552844595 (-53).
Definition c0_7 : num := S754_finite false 6305039478318694 (-53).
Definition c0_8 : num := S754_finite false 7205759403792794 (-53).
Definition c0_9 : num := S754_finite false 8106479329266893 (-53).
Definition three : num := S754_finite false 6755399441055744 (-51).
Definition seven : num := S754_finite false 7881299347898368 (-50).
Definition pos_infinity : num := S754_infinity false.
Definition neg_infinity : num := S754_infinity true.
Definition NaN : num := S754_nan.

(** [x] lies in the closed interval [0, 10]. *)
Definition in_0_10 (x : num) : bool := le zero x && le x ten.

End Num.

(** ** Metrics and insight engine (MetricsCalculationService.js) *)
Module Metrics.
Import Num.

(** The keys of [metrics.categories], in the order the object literal
    declares them; [Object.keys] enumerates them in this order. *)
Inductive category := alpha | beta | gamma | delta | epsilon.

Definition keys : list category := [alpha; beta; gamma; delta; epsilon].

Record categories := mkCategories {
  c_alpha : num; c_beta : num; c_gamma : num; c_delta : num; c_epsilon : num
}.

(** [cats[k]] *)
Definition get (cats : categories) (k : category) : num :=
  match k with
  | alpha => c_alpha cats | beta => c_beta cats | gamma => c_gamma cats
  | delta => c_delta cats | epsilon => c_epsilon cats
  end.

(** [cats[k] = v] *)
Definition set (k : category) (v : num) (cats : categories) : categories :=
  match k with
  | alpha => mkCategories v (c_beta cats) (c_gamma cats) (c_delta cats) (c_epsilon cats)
  | beta => mkCategories (c_alpha cats) v (c_gamma cats) (c_delta cats) (c_epsilon cats)
  | gamma => mkCategories (c_alpha cats) (c_beta cats) v (c_delta cats) (c_epsilon cats)
  | delta => mkCategories (c_alpha cats) (c_beta cats) (c_gamma cats) v (c_epsilon cats)
  | epsilon => mkCategories (c_alpha cats) (c_beta cats) (c_gamma cats) (c_delta cats) v
  end.

(** One entry of [userActivities].  The numeric fields are the numbers the
    arithmetic of the [switch] sees: a field that is missing reads as
    [undefined], which [*] turns into NaN. *)
Record Activity := mkActivity {
  type : string;
  depth : num;
  reflection : num;
  persistence : num;
  creativity : num;
  generosity : num
}.

(** A stored snapshot; [history] holds the earlier snapshots, each with its
    own history. *)
#[warnings="-register-all"] Inductive UserMetrics := mkUserMetrics {
  timestamp : Z;
  userId : string;
  cats : categories;
  primaryGroup : category;
  history : list UserMetrics
}.

Definition baseline : categories := mkCategories zero zero zero zero zero.

(** The body of [userActivities.forEach(activity => { switch ... })]. *)
Definition score (acc : categories) (activity : Activity) : categories :=
  if String.eqb (type activity) "conversation" then
    let acc := set beta (add (get acc beta) (mul (depth activity) c0_5)) acc in
    set delta (add (get acc delta) (mul (reflection activity) c0_7)) acc
  else if String.eqb (type activity) "challenge" then
    let acc := set alpha (add (get acc alpha) (mul (persistence activity) c0_8)) acc in
    set gamma (add (get acc gamma) (mul (creativity activity) c0_6)) acc
  else if String.eqb (type activity) "sharing" then
    set epsilon (add (get acc epsilon) (mul (generosity activity) c0_9)) acc
  else acc.

Definition accumulate (userActivities : list Activity) : categories :=
  fold_left score userActivities baseline.

(** [Math.min(Math.max(v, 0), 10)] *)
Definition clamp (v : num) : num := Math_min (Math_max v zero) ten.

(** [Object.keys(cats).forEach(category => cats[category] = clamp ...)] *)
Definition normalize (c : categories) : categories :=
  fold_left (fun acc k => set k (clamp (get acc k)) acc) keys c.

(** [Object.keys(cats).reduce((max, category) =>
       cats[category] > cats[max] ? category : max, Object.keys(cats)[0])] *)
Definition primary (c : categories) : category :=
  fold_left (fun max k => if gt (get c k) (get c max) then k else max)
            keys alpha.

(** [getUserMetrics]: a failed read is logged and answers [null]. *)
Definition getUserMetrics (E : Env) (uid : string)
    (user_metrics : gmap string UserMetrics) : option UserMetrics :=
  if fs_fails E FsGet "user_metrics" uid then None else user_metrics !! uid.

(** [storeMetrics]: replaces the document; a failed write is rethrown. *)
Definition storeMetrics (E : Env) (uid : string) (m : UserMetrics)
    (user_metrics : gmap string UserMetrics)
    : result unit * gmap string UserMetrics :=
  if fs_fails E FsSet "user_metrics" uid
  then (Err "store failed", user_metrics)
  else (Ok tt, <[uid := m]> user_metrics).

(** The snapshot [calculateUserMetrics] builds, before it is stored. *)
Definition snapshot (E : Env) (uid : string) (userActivities : list Activity)
    (user_metrics : gmap string UserMetrics) : UserMetrics :=
  let previousMetrics := getUserMetrics E uid user_metrics in
  let hist := match previousMetrics with
              | Some p => (history p ++ [p])%list
              | None => []
              end in
  let c := normalize (accumulate userActivities) in
  mkUserMetrics (now E) uid c (primary c) hist.

Definition calculateUserMetrics (E : Env) (uid : string)
    (userActivities : list Activity) (user_metrics : gmap string UserMetrics)
    : result UserMetrics * gmap string UserMetrics :=
  let metrics := snapshot E uid userActivities user_metrics in
  match storeMetrics E uid metrics user_metrics with
  | (Ok _, db) => (Ok metrics, db)
  | (Err e, db) => (Err e, db)
  end.

End Metrics.

(** ** Documents and in-memory objects *)

(** A [character_states] document, also the value held in [stateCache].
    [group] is [null] or a group id; [lastGroupChange], [contextReset] and
    [lastUpdated] are absent until their first stamp. *)
Record CharacterState := mkCharacterState {
  group : option string;
  name : string;
  traits : list string;
  systemInstructions : option string;
  greetingCompleted : bool;
  identityEstablished : bool;
  lastInteraction : Z;
  interactionCount : Z;
  created : Z;
  lastGroupChange : option Z;
  contextReset : option Z;
  lastUpdated : option Z
}.

(** The [initialState] argument of [initializeCharacter]: an object that has
    any subset of the state's keys; [None] is a key the object lacks. *)
Record Seed := mkSeed {
  seed_group : option (option string);
  seed_name : option string;
  seed_traits : option (list string);
  seed_systemInstructions : option string;
  seed_greetingCompleted : option bool;
  seed_identityEstablished : option bool;
  seed_lastInteraction : option Z;
  seed_interactionCount : option Z;
  seed_created : option Z;
  seed_lastGroupChange : option Z;
  seed_contextReset : option Z;
  seed_lastUpdated : option Z
}.

(** The empty object [{}]. *)
Definition no_seed : Seed :=
  mkSeed None None None None None None None None None None None None.

(** The [interaction] argument of [logInteraction] and the document that
    [character_interactions] receives for it. *)
Record InteractionDetails := mkInteractionDetails {
  i_type : string;
  i_message : string;
  i_userId : option string;
  i_channelId : option string
}.

Record InteractionEntry := mkInteractionEntry {
  e_characterId : string;
  e_timestamp : Z;
  e_details : InteractionDetails
}.

(** A [characters] document. *)
Record CharacterConfig := mkCharacterConfig {
  cfg_name : string;
  cfg_traits : list string;
  cfg_voice : option string;
  cfg_group : option string;
  cfg_greeting : option string;
  cfg_systemInstructions : string
}.

(** An [interactions] document ([storeInteraction]). *)
Record StoredInteraction := mkStoredInteraction {
  si_userId : string;
  si_characterId : string;
  si_userMessage : string;
  si_characterResponse : string;
  si_channelId : string;
  si_timestamp : Z
}.

(** The durable document store: one field per collection. *)
Record Firestore := mkFirestore {
  character_states : gmap string CharacterState;
  character_interactions : list InteractionEntry;
  characters : gmap string CharacterConfig;
  interactions : list StoredInteraction;
  user_metrics : gmap string Metrics.UserMetrics
}.

Definition set_character_states (f : gmap string CharacterState -> gmap string CharacterState)
    (db : Firestore) : Firestore :=
  mkFirestore (f (character_states db)) (character_interactions db)
              (characters db) (interactions db) (user_metrics db).

Definition set_character_interactions (f : list InteractionEntry -> list InteractionEntry)
    (db : Firestore) : Firestore :=
  mkFirestore (character_states db) (f (character_interactions db))
              (characters db) (interactions db) (user_metrics db).

Definition set_characters (f : gmap string CharacterConfig -> gmap string CharacterConfig)
    (db : Firestore) : Firestore :=
  mkFirestore (character_states db) (character_interactions db)
              (f (characters db)) (interactions db) (user_metrics db).

Definition set_interactions (f : list StoredInteraction -> list StoredInteraction)
    (db : Firestore) : Firestore :=
  mkFirestore (character_states db) (character_interactions db)
              (characters db) (f (interactions db)) (user_metrics db).

Definition set_user_metrics (f : gmap string Metrics.UserMetrics -> gmap string Metrics.UserMetrics)
    (db : Firestore) : Firestore :=
  mkFirestore (character_states db) (character_interactions db)
              (characters db) (interactions db) (f (user_metrics db)).

Definition empty_db : Firestore := mkFirestore ∅ [] ∅ [] ∅.

(** ** State store (CharacterStateManager.js) *)
Module CharacterStateManager.

(** The fields of the class.  [firestore] is the project's document store;
    the other services' handles denote the same store. *)
Record t := mk {
  firestore : Firestore;
  stateCache : gmap string CharacterState;
  conversationFlags : gmap string (gmap string bool)
}.

Definition set_firestore (f : Firestore -> Firestore) (m : t) : t :=
  mk (f (firestore m)) (stateCache m) (conversationFlags m).
Definition set_stateCache (f : gmap string CharacterState -> gmap string CharacterState)
    (m : t) : t :=
  mk (firestore m) (f (stateCache m)) (conversationFlags m).
Definition set_conversationFlags
    (f : gmap string (gmap string bool) -> gmap string (gmap string bool)) (m : t) : t :=
  mk (firestore m) (stateCache m) (f (conversationFlags m)).

Definition fresh (db : Firestore) : t := mk db ∅ ∅.

(** [getCharacterState]: cache first, then the document; a failed read is
    logged and answers [null]. *)
Definition getCharacterState (E : Env) (characterId : string) (m : t)
    : option CharacterState * t :=
  match stateCache m !! characterId with
  | Some state => (Some state, m)
  | None =>
      if fs_fails E FsGet "character_states" characterId then (None, m)
      else match character_states (firestore m) !! characterId with
           | None => (None, m)
           | Some state =>
               (Some state, set_stateCache (insert characterId state) m)
           end
  end.

(** JS truthiness of a string: [''] is falsy. *)
Definition truthy_string (s : string) : bool := negb (String.eqb s "").
Definition truthy_opt_string (s : option string) : bool :=
  match s with Some s => truthy_string s | None => false end.
Definition truthy_traits (l : option (list string)) : bool :=
  match l with Some _ => true | None => false end.

(** The object literal of [initializeCharacter], key by key:
    the listed defaults, then [...initialState]. *)
Definition defaultState (E : Env) (initialState : Seed) : CharacterState :=
  let name0 := if truthy_opt_string (seed_name initialState)
               then default "" (seed_name initialState) else "Character" in
  let traits0 := if truthy_traits (seed_traits initialState)
                 then default [] (seed_traits initialState) else [] in
  mkCharacterState
    (default None (seed_group initialState))
    (default name0 (seed_name initialState))
    (default traits0 (seed_traits initialState))
    (seed_systemInstructions initialState)
    (default false (seed_greetingCompleted initialState))
    (default false (seed_identityEstablished initialState))
    (default (now E) (seed_lastInteraction initialState))
    (default 0 (seed_interactionCount initialState))
    (default (now E) (seed_created initialState))
    (seed_lastGroupChange initialState)
    (seed_contextReset initialState)
    (seed_lastUpdated initialState).

Definition initializeCharacter (E : Env) (characterId : string)
    (initialState : Seed) (m : t) : result CharacterState * t :=
  match getCharacterState E characterId m with
  | (Some existingState, m) => (Ok existingState, m)
  | (None, m) =>
      let st := defaultState E initialState in
      if fs_fails E FsSet "character_states" characterId
      then (Err "set failed", m)
      else
        let m := set_firestore (set_character_states (insert characterId st)) m in
        let m := set_stateCache (insert characterId st) m in
        (Ok st, m)
  end.

Definition not_found (characterId : string) : string :=
  "Character " ++ characterId ++ " not found".

(** [setConversationFlag], [getConversationFlag], [clearConversationFlag] *)
Definition setConversationFlag (characterId flag : string) (value : bool)
    (m : t) : t :=
  set_conversationFlags
    (fun flags => <[characterId := <[flag := value]> (default ∅ (flags !! characterId))]> flags)
    m.

Definition getConversationFlag (characterId flag : string) (m : t) : option bool :=
  match conversationFlags m !! characterId with
  | None => None
  | Some inner => inner !! flag
  end.

Definition clearConversationFlag (characterId flag : string) (m : t) : t :=
  match conversationFlags m !! characterId with
  | None => m
  | Some inner =>
      set_conversationFlags (insert characterId (delete flag inner)) m
  end.

(** [state.group !== groupId] *)
Definition isGroupChange (state : CharacterState) (groupId : option string) : bool :=
  negb (bool_decide (group state = groupId)).

Definition updateGroup (E : Env) (characterId : string)
    (groupId : option string) (m : t) : result CharacterState * t :=
  match getCharacterState E characterId m with
  | (None, m) => (Err (not_found characterId), m)
  | (Some state, m) =>
      let change := isGroupChange state groupId in
      let updatedState :=
        mkCharacterState
          groupId (name state) (traits state) (systemInstructions state)
          (greetingCompleted state)
          (if change then false else identityEstablished state)
          (lastInteraction state) (interactionCount state) (created state)
          (if change then Some (now E) else lastGroupChange state)
          (if change then Some (now E) else contextReset state)
          (Some (now E)) in
      if fs_fails E FsSet "character_states" characterId
      then (Err "set failed", m)
      else
        let m := set_firestore (set_character_states (insert characterId updatedState)) m in
        let m := set_stateCache (insert characterId updatedState) m in
        let m := if change
                 then setConversationFlag characterId "resetRequired" true m
                 else m in
        (Ok updatedState, m)
  end.

(** [{...state, greetingCompleted: true, lastUpdated: Date.now()}] *)
Definition with_greetingCompleted (E : Env) (state : CharacterState) : CharacterState :=
  mkCharacterState
    (group state) (name state) (traits state) (systemInstructions state)
    true (identityEstablished state)
    (lastInteraction state) (interactionCount state) (created state)
    (lastGroupChange state) (contextReset state) (Some (now E)).

(** [{...state, identityEstablished: true, lastUpdated: Date.now()}] *)
Definition with_identityEstablished (E : Env) (state : CharacterState) : CharacterState :=
  mkCharacterState
    (group state) (name state) (traits state) (systemInstructions state)
    (greetingCompleted state) true
    (lastInteraction state) (interactionCount state) (created state)
    (lastGroupChange state) (contextReset state) (Some (now E)).

(** [{...state, interactionCount: ..., lastInteraction: ..., lastUpdated: ...}] *)
Definition with_counters (count lastI lastU : Z) (state : CharacterState) : CharacterState :=
  mkCharacterState
    (group state) (name state) (traits state) (systemInstructions state)
    (greetingCompleted state) (identityEstablished state)
    lastI count (created state)
    (lastGroupChange state) (contextReset state) (Some lastU).

(** [doc(characterId).update(fields)]: the named fields of the stored
    document are replaced.  Every reason to reject, NOT_FOUND included, is
    [fs_fails]. *)
Definition update_doc (E : Env) (characterId : string)
    (fields : CharacterState -> CharacterState) (m : t) : result unit * t :=
  if fs_fails E FsUpdate "character_states" characterId
  then (Err "update failed", m)
  else (Ok tt, set_firestore (set_character_states (alter fields characterId)) m).

Definition markGreetingCompleted (E : Env) (characterId : string) (m : t)
    : result CharacterState * t :=
  match getCharacterState E characterId m with
  | (None, m) => (Err (not_found characterId), m)
  | (Some state, m) =>
      let updatedState := with_greetingCompleted E state in
      match update_doc E characterId (with_greetingCompleted E) m with
      | (Err e, m) => (Err e, m)
      | (Ok _, m) =>
          (Ok updatedState, set_stateCache (insert characterId updatedState) m)
      end
  end.

Definition markIdentityEstablished (E : Env) (characterId : string) (m : t)
    : result CharacterState * t :=
  match getCharacterState E characterId m with
  | (None, m) => (Err (not_found characterId), m)
  | (Some state, m) =>
      let updatedState := with_identityEstablished E state in
      match update_doc E characterId (with_identityEstablished E) m with
      | (Err e, m) => (Err e, m)
      | (Ok _, m) =>
          (Ok updatedState, set_stateCache (insert characterId updatedState) m)
      end
  end.

(** [collection('character_interactions').add(entry)] *)
Definition add_interaction (E : Env) (entry : InteractionEntry) (m : t)
    : result unit * t :=
  if fs_fails E FsAdd "character_interactions" (e_characterId entry)
  then (Err "add failed", m)
  else (Ok tt, set_firestore (set_character_interactions (fun l => (l ++ [entry])%list)) m).

(** [logInteraction].  The whole body sits in one [try]; its [catch] only
    logs, so the returned promise always fulfils. *)
Definition logInteraction (E : Env) (characterId : string)
    (interaction : InteractionDetails) (m : t) : result unit * t :=
  match getCharacterState E characterId m with
  | (None, m) => (Ok tt, m)
  | (Some state, m) =>
      let updatedState :=
        with_counters (interactionCount state + 1) (now E) (now E) state in
      match add_interaction E (mkInteractionEntry characterId (now E) interaction) m with
      | (Err _, m) => (Ok tt, m)
      | (Ok _, m) =>
          match update_doc E characterId
                  (with_counters (interactionCount updatedState)
                                 (lastInteraction updatedState) (now E)) m with
          | (Err _, m) => (Ok tt, m)
          | (Ok _, m) =>
              (Ok tt, set_stateCache (insert characterId updatedState) m)
          end
      end
  end.

(** The clauses [getEnhancedSystemInstructions] can append. *)
Definition nl : string := String (Ascii.ascii_of_nat 10) EmptyString.

(** [`${state.group}`] *)
Definition show_group (g : option string) : string := default "null" g.

Definition group_clause (g : option string) : string :=
  nl ++ nl ++ "IMPORTANT: You are a member of the " ++ show_group g
     ++ ". This is a permanent part of your identity.".

Definition identity_clause : string :=
  nl ++ nl ++ "IMPORTANT: You have already introduced yourself to the user. Do not reintroduce yourself in each message. Continue the conversation naturally as if your identity is already established and known to the user.".

Definition greeting_clause : string :=
  nl ++ nl ++ "IMPORTANT: This is your first interaction with this user. Start with a warm greeting that introduces yourself and establishes your character.".

Definition reset_clause (g : option string) : string :=
  nl ++ nl ++ "CRITICAL: You have just become a member of the " ++ show_group g
     ++ ". This is now a permanent part of your identity. Do not reference any previous group affiliations.".

Definition getEnhancedSystemInstructions (E : Env) (characterId : string)
    (baseInstructions : string) (m : t) : string * t :=
  match getCharacterState E characterId m with
  | (None, m) => (baseInstructions, m)
  | (Some state, m) =>
      let enhancedInstructions := baseInstructions in
      let enhancedInstructions :=
        if truthy_opt_string (group state)
        then enhancedInstructions ++ group_clause (group state)
        else enhancedInstructions in
      let enhancedInstructions :=
        if identityEstablished state
        then enhancedInstructions ++ identity_clause
        else enhancedInstructions in
      let enhancedInstructions :=
        if negb (greetingCompleted state)
        then enhancedInstructions ++ greeting_clause
        else enhancedInstructions in
      if default false (getConversationFlag characterId "resetRequired" m)
      then (enhancedInstructions ++ reset_clause (group state),
            clearConversationFlag characterId "resetRequired" m)
      else (enhancedInstructions, m)
  end.

End CharacterStateManager.

(** ** Character session service (CustomCharacterService.js) *)
Module CustomCharacterService.
Module SM := CharacterStateManager.

(** Modelled from the spec: the AI-backend client [GenAILiveClient]
    (lib/genai-live-client), "a connect/disconnect session exposing
    send(text, isSystemDirective), and event callbacks for incremental text,
    turn-complete, and error".  The model keeps the instruction text given
    to [setConfig], the [connected] flag, and how many ['complete'] listeners
    [sendMessageToCharacter] has attached with [client.on], which never
    removes them. *)
Record Client := mkClient {
  systemInstruction : string;
  connected : bool;
  completeListeners : nat
}.

(** A call that reached the AI backend, with the character it was for. *)
Inductive backend_call :=
  | Connect (characterId : string)
  | Send (characterId : string) (text : string) (isSystemDirective : bool)
  | Disconnect (characterId : string).

(** The fields of the class, and the trace of calls made to the backend. *)
Record t := mk {
  stateManager : SM.t;
  characterClients : gmap string Client;
  backend : list backend_call
}.

Definition set_stateManager (f : SM.t -> SM.t) (s : t) : t :=
  mk (f (stateManager s)) (characterClients s) (backend s).
Definition set_characterClients (f : gmap string Client -> gmap string Client) (s : t) : t :=
  mk (stateManager s) (f (characterClients s)) (backend s).
Definition call (c : backend_call) (s : t) : t :=
  mk (stateManager s) (characterClients s) (backend s ++ [c])%list.

Definition fresh (db : Firestore) : t := mk (SM.fresh db) ∅ [].

(** Lift a state-store operation to the service. *)
Definition on_manager {A} (op : SM.t -> A * SM.t) (s : t) : A * t :=
  let '(a, m) := op (stateManager s) in (a, set_stateManager (fun _ => m) s).

(** [firestore.collection('characters').doc(id).get()]; a failed read
    throws. *)
Definition get_character_doc (E : Env) (characterId : string) (s : t)
    : result CharacterConfig :=
  if fs_fails E FsGet "characters" characterId then Err "get failed"
  else match characters (SM.firestore (stateManager s)) !! characterId with
       | None => Err (SM.not_found characterId)
       | Some cfg => Ok cfg
       end.

(** [getCharacter]: the character's document; on the way a client is made
    for a character that has none, configured with the augmented
    instructions. *)
Definition getCharacter (E : Env) (characterId : string) (s : t)
    : result CharacterConfig * t :=
  match characterClients s !! characterId with
  | Some _ => (get_character_doc E characterId s, s)
  | None =>
      match get_character_doc E characterId s with
      | Err e => (Err e, s)
      | Ok characterConfig =>
          let '(_, s) := on_manager (SM.getCharacterState E characterId) s in
          let '(enhancedInstructions, s) :=
            on_manager (SM.getEnhancedSystemInstructions E characterId
                          (cfg_systemInstructions characterConfig)) s in
          let characterClient := mkClient enhancedInstructions false 0 in
          (Ok characterConfig,
           set_characterClients (insert characterId characterClient) s)
      end
  end.

(** [client.connect()], [client.disconnect()], [client.send(text, flag)]
    on the client of [characterId]. *)
Definition connect (E : Env) (characterId : string) (s : t) : result unit * t :=
  let s := call (Connect characterId) s in
  if connect_ok E characterId
  then (Ok tt,
        set_characterClients
          (alter (fun cl => mkClient (systemInstruction cl) true (completeListeners cl))
                 characterId) s)
  else (Err "connect failed", s).

Definition disconnect (characterId : string) (s : t) : t :=
  set_characterClients
    (alter (fun cl => mkClient (systemInstruction cl) false (completeListeners cl))
           characterId)
    (call (Disconnect characterId) s).

Definition send (characterId text : string) (isSystemDirective : bool) (s : t) : t :=
  call (Send characterId text isSystemDirective) s.

Definition is_connected (characterId : string) (s : t) : bool :=
  match characterClients s !! characterId with
  | Some cl => connected cl
  | None => false
  end.

Definition listeners (characterId : string) (s : t) : nat :=
  match characterClients s !! characterId with
  | Some cl => completeListeners cl
  | None => 0%nat
  end.

(** [client.on('complete', ...)] of [sendMessageToCharacter]. *)
Definition add_listener (characterId : string) (s : t) : t :=
  set_characterClients
    (alter (fun cl => mkClient (systemInstruction cl) (connected cl)
                               (S (completeListeners cl)))
           characterId) s.

(** The body of that listener: once the turn is complete, establish the
    identity if this is one of the first messages. *)
Definition identityCheck (E : Env) (characterId : string) (s : t) : t :=
  match on_manager (SM.getCharacterState E characterId) s with
  | (Some state, s) =>
      if (interactionCount state <=? 2) && negb (identityEstablished state)
      then snd (on_manager (SM.markIdentityEstablished E characterId) s)
      else s
  | (None, s) => s
  end.

(** The backend emits ['complete'] during a message turn: every listener
    attached by [sendMessageToCharacter] runs.  The marks they start all
    read the same state and write the same fields, so that taking them one
    after the other ends in the state their interleaving ends in. *)
Definition emitComplete (E : Env) (characterId : string) (s : t) : t :=
  Nat.iter (listeners characterId s) (identityCheck E characterId) s.

Definition updateCharacterGroup (E : Env) (characterId : string)
    (groupId : option string) (s : t) : result unit * t :=
  match on_manager (SM.updateGroup E characterId groupId) s with
  | (Err e, s) => (Err e, s)
  | (Ok _, s) =>
      if fs_fails E FsUpdate "characters" characterId then (Err "update failed", s)
      else
        let s := set_stateManager (SM.set_firestore (set_characters
                   (alter (fun cfg => mkCharacterConfig (cfg_name cfg) (cfg_traits cfg)
                             (cfg_voice cfg) groupId (cfg_greeting cfg)
                             (cfg_systemInstructions cfg)) characterId))) s in
        match characterClients s !! characterId with
        | None => (Ok tt, s)
        | Some _ =>
            match getCharacter E characterId s with
            | (Err e, s) => (Err e, s)
            | (Ok _, s) => (Ok tt, disconnect characterId s)
            end
        end
  end.

Section Create.
(** [generateCharacterSystemInstructions]: a text template filled from the
    configuration; its wording plays no role below. *)
Variable generateCharacterSystemInstructions : CharacterConfig -> string.

Definition createCharacter (E : Env) (id : string)
    (characterConfig : CharacterConfig) (s : t) : result unit * t :=
  if negb (SM.truthy_string id) || negb (SM.truthy_string (cfg_name characterConfig))
  then (Err "Character configuration must include id and name", s)
  else
    let systemInstructions := generateCharacterSystemInstructions characterConfig in
    let seed :=
      mkSeed (Some (if SM.truthy_opt_string (cfg_group characterConfig)
                    then cfg_group characterConfig else None))
             (Some (cfg_name characterConfig))
             (Some (cfg_traits characterConfig))
             (Some systemInstructions)
             None None None None None None None None in
    match on_manager (SM.initializeCharacter E id seed) s with
    | (Err e, s) => (Err e, s)
    | (Ok _, s) =>
        let characterClient := mkClient systemInstructions false 0 in
        let s := set_characterClients (insert id characterClient) s in
        if fs_fails E FsSet "characters" id then (Err "set failed", s)
        else
          let doc := mkCharacterConfig (cfg_name characterConfig)
                       (cfg_traits characterConfig) (cfg_voice characterConfig)
                       (cfg_group characterConfig) (cfg_greeting characterConfig)
                       systemInstructions in
          (Ok tt, set_stateManager (SM.set_firestore (set_characters (insert id doc))) s)
    end.
End Create.

Definition dq : string := String (Ascii.ascii_of_nat 34) EmptyString.

(** [character.greeting || `Hello! I'm ${character.name}.`] *)
Definition greeting_of (character : CharacterConfig) : string :=
  if SM.truthy_opt_string (cfg_greeting character)
  then default "" (cfg_greeting character)
  else "Hello! I'm " ++ cfg_name character ++ ".".

Definition greeting_directive (character : CharacterConfig) : string :=
  "[SYSTEM: This is your first interaction with this user. Use your character-specific greeting: "
    ++ dq ++ greeting_of character ++ dq ++ "]".

(** What [markGreetingCompleted] and [markIdentityEstablished] do after
    they have read [state]: [update] the named fields of the stored
    document, then put the copy of [state] that has them into the cache.
    A rejected update is logged and nothing is cached. *)
Definition write_back (E : Env) (characterId : string)
    (fields : CharacterState -> CharacterState) (state : CharacterState)
    (s : t) : t :=
  match on_manager (SM.update_doc E characterId fields) s with
  | (Err _, s) => s
  | (Ok _, s) =>
      set_stateManager (SM.set_stateCache (insert characterId (fields state))) s
  end.

(** The backend emits ['complete'] during a greeting.  The listeners that
    [sendMessageToCharacter] left on the client are called before
    [completionHandler], which was attached last.  None of them awaits what
    it starts: the listeners' reads of the state, the marks of the identity
    that follow them and the mark of the greeting all reach their first
    store call before any of them has written, so each works on the state
    as it is cached when the event arrives.  Without a state the listeners
    do nothing and [markGreetingCompleted] throws.  The update of the
    greeting is the first to be sent to the store and the first to be
    answered; the updates of the identity follow, one for each listener. *)
Definition emitCompleteGreeting (E : Env) (characterId : string) (s : t) : t :=
  match on_manager (SM.getCharacterState E characterId) s with
  | (None, s) => s
  | (Some state, s) =>
      let marks :=
        if (interactionCount state <=? 2) && negb (identityEstablished state)
        then listeners characterId s else 0%nat in
      let s := write_back E characterId (SM.with_greetingCompleted E) state s in
      Nat.iter marks
        (write_back E characterId (SM.with_identityEstablished E) state) s
  end.

(** The promise of [initializeCharacterSession]: [true] at the first
    ['complete'], [false] when the 10 s timer fires first. *)
Fixpoint await_greeting (E : Env) (characterId : string)
    (events : list backend_event) (s : t) : bool * t :=
  match events with
  | [] => (false, s)
  | EvComplete :: _ => (true, emitCompleteGreeting E characterId s)
  | _ :: events => await_greeting E characterId events s
  end.

Definition initializeCharacterSession (E : Env) (characterId : string)
    (forceGreeting : bool) (s : t) : bool * t :=
  match getCharacter E characterId s with
  | (Err _, s) => (false, s)
  | (Ok character, s) =>
      let '(state, s) := on_manager (SM.getCharacterState E characterId) s in
      if match state with
         | Some state => greetingCompleted state && negb forceGreeting
         | None => false
         end
      then (true, s)
      else
        match connect E characterId s with
        | (Err _, s) => (false, s)
        | (Ok _, s) =>
            let s := send characterId (greeting_directive character) true s in
            await_greeting E characterId (turn E) s
        end
  end.

(** The promise of [sendMessageToCharacter]: text chunks accumulate in
    [fullText]; ['complete'] resolves with it, ['error'] rejects, and the
    15 s timer resolves with a non-empty partial text or rejects. *)
Fixpoint await_response (E : Env) (characterId : string)
    (events : list backend_event) (fullText : string) (s : t)
    : result string * t :=
  match events with
  | [] =>
      (if SM.truthy_string fullText then Ok fullText else Err "Response timed out", s)
  | EvText text :: events =>
      await_response E characterId events (fullText ++ text) s
  | EvComplete :: _ => (Ok fullText, emitComplete E characterId s)
  | EvError e :: _ => (Err e, s)
  end.

Definition sendMessageToCharacter (E : Env) (characterId message : string)
    (userId channelId : option string) (s : t) : result string * t :=
  match getCharacter E characterId s with
  | (Err e, s) => (Err e, s)
  | (Ok _, s) =>
      let '(_, s) :=
        on_manager (SM.logInteraction E characterId
                      (mkInteractionDetails "message" message userId channelId)) s in
      match (if is_connected characterId s then (Ok tt, s)
             else connect E characterId s) with
      | (Err e, s) => (Err e, s)
      | (Ok _, s) =>
          let s := send characterId message false s in
          let s := add_listener characterId s in
          await_response E characterId (turn E) "" s
      end
  end.

Definition deleteCharacter (E : Env) (characterId : string) (s : t)
    : result unit * t :=
  let s := match characterClients s !! characterId with
           | Some _ =>
               set_characterClients (delete characterId) (disconnect characterId s)
           | None => s
           end in
  if fs_fails E FsDelete "characters" characterId then (Err "delete failed", s)
  else (Ok tt, set_stateManager (SM.set_firestore (set_characters (delete characterId))) s).

End CustomCharacterService.

(** ** String helpers of the orchestrator

    Strings are sequences of ASCII characters, as channel identifiers are. *)
Module Str.

(** [s.split(sep)] for a one-character separator: never empty, [''] splits
    into [['']]. *)
Fixpoint split (sep : ascii) (s : string) : list string :=
  match s with
  | EmptyString => [""]
  | String c rest =>
      if Ascii.eqb c sep then "" :: split sep rest
      else match split sep rest with
           | [] => [String c ""]
           | hd :: tl => String c hd :: tl
           end
  end.

(** White space and line terminators (the ASCII ones). *)
Definition is_space (c : ascii) : bool :=
  let n := Ascii.nat_of_ascii c in
  ((9 <=? n) && (n <=? 13))%nat || (n =? 32)%nat.

Fixpoint skip_space (s : string) : string :=
  match s with
  | String c rest => if is_space c then skip_space rest else s
  | EmptyString => s
  end.

(** [s.trim() === ''] *)
Definition is_blank (s : string) : bool := String.eqb (skip_space s) "".

Definition digit_of (c : ascii) : option Z :=
  let n := Ascii.nat_of_ascii c in
  if ((48 <=? n) && (n <=? 57))%nat then Some (Z.of_nat n - 48) else None.

(** The longest prefix of decimal digits, as a number; [None] if empty. *)
Fixpoint digits (s : string) (acc : option Z) : option Z :=
  match s with
  | String c rest =>
      match digit_of c with
      | Some d => digits rest (Some (10 * default 0 acc + d))
      | None => acc
      end
  | EmptyString => acc
  end.

(** The value of [parseInt(s, 10)]: NaN or an integer.  The integer is kept
    exact. *)
Inductive parsed_int := PNaN | PInt (n : Z).

Definition parseInt (s : string) : parsed_int :=
  let s := skip_space s in
  let '(negative, s) :=
    match s with
    | String "-" rest => (true, rest)
    | String "+" rest => (false, rest)
    | _ => (false, s)
    end in
  match digits s None with
  | None => PNaN
  | Some n => PInt (if negative then - n else n)
  end.

End Str.

(** ** Message orchestrator (GetStreamIntegration.js) *)
Module GetStreamIntegration.
Module SM := CharacterStateManager.
Module CS := CustomCharacterService.

(** [event.message] of a [message.new] event. *)
Record Message := mkMessage {
  msg_id : string;
  msg_user : string;
  msg_text : string
}.

(** A transport event: the message if any, [event.channel?.id] if any, and
    [event.cid] (["type:id"]). *)
Record Event := mkEvent {
  message : option Message;
  channel : option string;
  cid : string
}.

(** A message handed to the transport with [channel.sendMessage]. *)
Record SentMessage := mkSentMessage {
  to_channel : string;
  user_id : string;
  text : string;
  assigned_id : string
}.

(** The fields of the class and the messages sent so far. *)
Record t := mk {
  orchestratorId : string;
  characterService : CS.t;
  activeChannels : gset string;
  channelToCharacterMap : gmap string string;
  processedMessageIds : list string;
  sent : list SentMessage
}.

Definition set_characterService (f : CS.t -> CS.t) (o : t) : t :=
  mk (orchestratorId o) (f (characterService o)) (activeChannels o)
     (channelToCharacterMap o) (processedMessageIds o) (sent o).
Definition set_activeChannels (f : gset string -> gset string) (o : t) : t :=
  mk (orchestratorId o) (characterService o) (f (activeChannels o))
     (channelToCharacterMap o) (processedMessageIds o) (sent o).
Definition set_channelToCharacterMap (f : gmap string string -> gmap string string)
    (o : t) : t :=
  mk (orchestratorId o) (characterService o) (activeChannels o)
     (f (channelToCharacterMap o)) (processedMessageIds o) (sent o).
Definition set_processedMessageIds (f : list string -> list string) (o : t) : t :=
  mk (orchestratorId o) (characterService o) (activeChannels o)
     (channelToCharacterMap o) (f (processedMessageIds o)) (sent o).
Definition set_sent (f : list SentMessage -> list SentMessage) (o : t) : t :=
  mk (orchestratorId o) (characterService o) (activeChannels o)
     (channelToCharacterMap o) (processedMessageIds o) (f (sent o)).

Definition fresh (orchestratorId : string) (db : Firestore) : t :=
  mk orchestratorId (CS.fresh db) ∅ ∅ [] [].

Definition on_service {A} (op : CS.t -> A * CS.t) (o : t) : A * t :=
  let '(a, s) := op (characterService o) in (a, set_characterService (fun _ => s) o).

Definition db_of (o : t) : Firestore :=
  SM.firestore (CS.stateManager (characterService o)).
Definition set_db (f : Firestore -> Firestore) (o : t) : t :=
  set_characterService (CS.set_stateManager (SM.set_firestore f)) o.

(** A JS [Set] keeps its members in insertion order; adding a member again
    changes nothing. *)
Definition set_add (x : string) (ids : list string) : list string :=
  if bool_decide (x ∈ ids) then ids else (ids ++ [x])%list.
Definition set_has (x : string) (ids : list string) : bool := bool_decide (x ∈ ids).

(** [if (size > 1000) ids = new Set(array.slice(array.length - 1000))] *)
Definition trim (ids : list string) : list string :=
  if (1000 <? length ids)%nat then drop (length ids - 1000) ids else ids.

(** The object [parseChannelId] returns. *)
Record ChannelMeta := mkChannelMeta {
  userId : option string;
  characterId : option string;
  timestamp : option Str.parsed_int
}.

Definition parseChannelId (channelId : string) : ChannelMeta :=
  let parts := Str.split "_"%char channelId in
  if (3 <=? length parts)%nat
  then mkChannelMeta (parts !! 0%nat) (parts !! 1%nat)
                     (Str.parseInt <$> parts !! 2%nat)
  else mkChannelMeta None None None.

(** [event.channel?.id || event.cid.split(':')[1]]; [None] is [undefined]. *)
Definition channel_id_of (event : Event) : option string :=
  if SM.truthy_opt_string (channel event) then channel event
  else Str.split ":"%char (cid event) !! 1%nat.

(** [sendMessageAsCharacter] *)
Definition sendMessageAsCharacter (E : Env) (channelId characterId message : string)
    (o : t) : result string * t :=
  match on_service (CS.getCharacter E characterId) o with
  | (Err e, o) => (Err e, o)
  | (Ok character, o) =>
      match transport_send E channelId characterId message with
      | None => (Err "send failed", o)
      | Some id =>
          let o := set_sent (fun l => l ++ [mkSentMessage channelId characterId message id])%list o in
          (Ok id, set_processedMessageIds (set_add id) o)
      end
  end.

Definition error_text (characterName : string) : string :=
  "I'm sorry, " ++ characterName
    ++ " is experiencing some technical difficulties. Please try again in a moment.".

(** [sendErrorMessage]: authored by the orchestrator; never throws. *)
Definition sendErrorMessage (E : Env) (channelId characterId : string) (o : t) : t :=
  let '(r, o) := on_service (CS.getCharacter E characterId) o in
  let characterName := match r with
                       | Ok character => cfg_name character
                       | Err _ => "Character"
                       end in
  let errorMessage := error_text characterName in
  match transport_send E channelId (orchestratorId o) errorMessage with
  | None => o
  | Some id =>
      let o := set_sent (fun l => l ++ [mkSentMessage channelId (orchestratorId o) errorMessage id])%list o in
      set_processedMessageIds (set_add id) o
  end.

(** [storeInteraction]: a failed write is logged and answers [false]. *)
Definition storeInteraction (E : Env) (userId characterId userMessage
    characterResponse channelId : string) (o : t) : bool * t :=
  if fs_fails E FsAdd "interactions" userId then (false, o)
  else (true,
        set_db (set_interactions (fun l => l ++
          [mkStoredInteraction userId characterId userMessage characterResponse
                               channelId (now E)])%list) o).

Section Routing.
(** [calculateConversationDepth] and [calculateReflectionLevel]: the
    replaceable text-scoring helpers; routing does not depend on what they
    answer. *)
Variable calculateConversationDepth : string -> Num.num.
Variable calculateReflectionLevel : string -> Num.num.

(** [metricsService.calculateUserMetrics(...).catch(console.error)] *)
Definition update_metrics (E : Env) (userId messageText : string) (o : t) : t :=
  let userActivities :=
    [Metrics.mkActivity "conversation"
       (calculateConversationDepth messageText)
       (calculateReflectionLevel messageText)
       Num.NaN Num.NaN Num.NaN] in
  set_db (set_user_metrics (fun user_metrics =>
            snd (Metrics.calculateUserMetrics E userId userActivities user_metrics))) o.

(** The [try] block of [processCharacterMessage], after the empty-text
    test. *)
Definition reply (E : Env) (message : Message)
    (userId channelId characterId : string) (o : t) : result unit * t :=
  let messageText := msg_text message in
  match on_service (CS.getCharacter E characterId) o with
  | (Err e, o) => (Err e, o)
  | (Ok character, o) =>
      let o := update_metrics E userId messageText o in
      match on_service (CS.sendMessageToCharacter E characterId messageText
                          (Some userId) (Some channelId)) o with
      | (Err e, o) => (Err e, o)
      | (Ok response, o) =>
          match sendMessageAsCharacter E channelId characterId response o with
          | (Err e, o) => (Err e, o)
          | (Ok _, o) =>
              let '(_, o) := storeInteraction E userId characterId messageText
                               response channelId o in
              if callback_ok E then (Ok tt, o) else (Err "handler failed", o)
          end
      end
  end.

Definition processCharacterMessage (E : Env) (message : Message)
    (userId channelId characterId : string) (o : t) : t :=
  let messageText := msg_text message in
  if negb (SM.truthy_string messageText) || Str.is_blank messageText then o
  else
    match reply E message userId channelId characterId o with
    | (Ok _, o) => o
    | (Err _, o) => sendErrorMessage E channelId characterId o
    end.

(** [handleIncomingMessage].  An event whose channel id is [undefined]
    ends in the [catch] of the handler, at [parseChannelId]. *)
Definition handleIncomingMessage (E : Env) (event : Event) (o : t) : t :=
  match message event with
  | None => o
  | Some msg =>
      if set_has (msg_id msg) (processedMessageIds o)
         || String.eqb (msg_user msg) (orchestratorId o)
      then o
      else
        let o := set_processedMessageIds (set_add (msg_id msg)) o in
        let o := set_processedMessageIds trim o in
        match channel_id_of event with
        | None => o
        | Some channelId =>
            let '(found, o) :=
              if bool_decide (channelId ∈ activeChannels o) then (true, o)
              else if watch_ok E channelId
                   then (true, set_activeChannels (fun cs => {[channelId]} ∪ cs) o)
                   else (false, o) in
            if negb found then o
            else
              let meta := parseChannelId channelId in
              match characterId meta, userId meta with
              | Some characterId, Some userId =>
                  if negb (SM.truthy_string characterId) then o
                  else
                    let o :=
                      match channelToCharacterMap o !! channelId with
                      | Some _ => o
                      | None => set_channelToCharacterMap (insert channelId characterId) o
                      end in
                    processCharacterMessage E msg userId channelId characterId o
              | _, _ => o
              end
        end
  end.

End Routing.

(** [addCharacterToChannel]: never throws. *)
Definition addCharacterToChannel (E : Env) (channelId characterId : string)
    (o : t) : bool * t :=
  match on_service (CS.getCharacter E characterId) o with
  | (Err _, o) => (false, o)
  | (Ok _, o) => (add_members_ok E channelId, o)
  end.

Definition welcome_text (characterName : string) : string :=
  "Hello! I'm " ++ characterName ++ ". How can I assist you today?".

(** [sendWelcomeMessage]: the greeting protocol, then a welcome send. *)
Definition sendWelcomeMessage (E : Env) (channelId userId characterId : string)
    (o : t) : result string * t :=
  let '(_, o) := on_service (CS.initializeCharacterSession E characterId true) o in
  match on_service (CS.getCharacter E characterId) o with
  | (Err e, o) => (Err e, o)
  | (Ok character, o) =>
      sendMessageAsCharacter E channelId characterId
        (welcome_text (cfg_name character)) o
  end.

(** [`${userId}_${characterId}_${timestamp}`] *)
Definition channel_id (userId characterId : string) (timestamp : Z) : string :=
  userId ++ "_" ++ characterId ++ "_" ++ pretty timestamp.

(** [createCharacterChannel]: the id of the channel it made. *)
Definition createCharacterChannel (E : Env) (userId characterId : string)
    (o : t) : result string * t :=
  match on_service (CS.getCharacter E characterId) o with
  | (Err e, o) => (Err e, o)
  | (Ok character, o) =>
      let channelId := channel_id userId characterId (now E) in
      if negb (create_ok E channelId) then (Err "create failed", o)
      else
        let o := set_activeChannels (fun cs => {[channelId]} ∪ cs) o in
        let o := set_channelToCharacterMap (insert channelId characterId) o in
        let '(_, o) := addCharacterToChannel E channelId characterId o in
        match sendWelcomeMessage E channelId userId characterId o with
        | (Err e, o) => (Err e, o)
        | (Ok _, o) => (Ok channelId, o)
        end
  end.

End GetStreamIntegration.

(** ** Text scoring of the orchestrator (GetStreamIntegration.js)

    [calculateConversationDepth] and [calculateReflectionLevel], the two
    functions the routing above takes as parameters.  Texts are sequences
    of ASCII characters, as above: white space is the ASCII white space,
    letters are the ASCII letters, and the length of a word is its number
    of characters. *)
Module Text.

(** [s.split(/\s+/)]: the pieces between the maximal runs of white space.
    A run at either end leaves an empty piece there, and [''] splits into
    [['']].  [in_run] tells that the character before was white space. *)
Fixpoint split_ws (in_run : bool) (s : string) : list string :=
  match s with
  | EmptyString => [""]
  | String c rest =>
      if Str.is_space c then
        if in_run then split_ws true rest else "" :: split_ws true rest
      else
        match split_ws false rest with
        | [] => [String c ""]
        | hd :: tl => String c hd :: tl
        end
  end.

(** [s.toLowerCase()], on the ASCII letters. *)
Definition lower (c : ascii) : ascii :=
  let n := Ascii.nat_of_ascii c in
  if ((65 <=? n) && (n <=? 90))%nat then Ascii.ascii_of_nat (n + 32) else c.

Fixpoint toLowerCase (s : string) : string :=
  match s with
  | EmptyString => EmptyString
  | String c rest => String (lower c) (toLowerCase rest)
  end.

(** [s.includes(sub)] *)
Fixpoint includes (sub s : string) : bool :=
  String.prefix sub s
  || match s with
     | EmptyString => false
     | String _ rest => includes sub rest
     end.

End Text.

Module Scoring.
Import Num.

(** A length or a count as a JS number. *)
Definition of_nat (n : nat) : num := binary_normalize 53 1024 (Z.of_nat n) 0 false.

Definition div : num -> num -> num := SFdiv 53 1024.

Definition one : num := S754_finite false 4503599627370496 (-52).
Definition two : num := S754_finite false 4503599627370496 (-51).
Definition twenty : num := S754_finite false 5629499534213120 (-48).

Definition calculateConversationDepth (text : string) : num :=
  let wordCount := length (Text.split_ws false text) in
  let complexWords :=
    length (List.filter (fun word => (7 <? String.length word)%nat)
                        (Text.split_ws false text)) in
  Math_min ten (add (div (of_nat wordCount) twenty) (div (of_nat complexWords) two)).

Definition reflectiveWords : list string :=
  ["think"; "feel"; "believe"; "wonder"; "reflect"; "consider"].

Definition calculateReflectionLevel (text : string) : num :=
  let reflectiveCount :=
    fold_left (fun count word =>
                 add count (if Text.includes word (Text.toLowerCase text)
                            then one else zero))
              reflectiveWords zero in
  Math_min ten (mul reflectiveCount two).

End Scoring.

(** ** The rest of the metrics and insight engine
    (MetricsCalculationService.js) *)
Module Insights.
Import Metrics.

(** [getUserGroup] *)
Definition getUserGroup (E : Env) (uid : string)
    (user_metrics : gmap string UserMetrics) : option category :=
  primaryGroup <$> getUserMetrics E uid user_metrics.

(** The property name of a category in [metrics.categories]; it is the
    string that [primaryGroup] holds. *)
Definition key_of (k : category) : string :=
  match k with
  | alpha => "alpha" | beta => "beta" | gamma => "gamma"
  | delta => "delta" | epsilon => "epsilon"
  end.

(** [CHARACTER_GROUPS], key by key. *)
Record Group := mkGroup {
  g_id : string;
  g_name : string;
  g_voice : string;
  g_color : string
}.

Definition CHARACTER_GROUPS : list (string * Group) :=
  [("group-alpha", mkGroup "alpha" "Verdant" "en-US-Neural2-D" "green");
   ("group-beta", mkGroup "beta" "Azure" "en-US-Neural2-F" "blue");
   ("group-gamma", mkGroup "gamma" "Crimson" "en-US-Neural2-G" "red");
   ("group-delta", mkGroup "delta" "Lunar" "en-US-Neural2-C" "white");
   ("group-epsilon", mkGroup "epsilon" "Solar" "en-US-Neural2-A" "yellow")].

(** [CHARACTER_GROUPS[groupId]] *)
Fixpoint group_of (groups : list (string * Group)) (groupId : string) : option Group :=
  match groups with
  | [] => None
  | (k, g) :: groups => if String.eqb k groupId then Some g else group_of groups groupId
  end.

(** An [insights] document. *)
Record InsightData := mkInsightData {
  in_userId : string;
  in_groupId : string;
  in_timestamp : Z;
  in_metrics : categories;
  in_character : string;
  in_text : string
}.

(** The fields of the class: one backend client per key of
    [CHARACTER_GROUPS], the [user_metrics] and [insights] collections, and
    the trace of calls made to the backend. *)
Record t := mk {
  characterClients : gmap string CustomCharacterService.Client;
  user_metrics : gmap string UserMetrics;
  insights : gmap string InsightData;
  backend : list CustomCharacterService.backend_call
}.

(** The constructor:
    [Object.keys(CHARACTER_GROUPS).forEach(groupId =>
       this.characterClients[groupId] = new GenAILiveClient(apiKey))]. *)
Definition new_service (user_metrics : gmap string UserMetrics)
    (insights : gmap string InsightData) : t :=
  mk (fold_left (fun clients groupId =>
                   <[groupId := CustomCharacterService.mkClient "" false 0]> clients)
                (fst <$> CHARACTER_GROUPS) ∅)
     user_metrics insights [].

(** A promise that has no timer either settles or stays pending. *)
Inductive outcome (A : Type) : Type :=
  | Settled (r : result A)
  | Pending.
Arguments Settled {A} r.
Arguments Pending {A}.

(** [storeInsight]: the document id is [`${userId}_${timestamp}`]. *)
Definition storeInsight (E : Env) (insight : InsightData) (s : t) : result unit * t :=
  let key := in_userId insight ++ "_" ++ pretty (in_timestamp insight) in
  if fs_fails E FsSet "insights" key then (Err "store failed", s)
  else (Ok tt, mk (characterClients s) (user_metrics s)
                  (<[key := insight]> (insights s)) (backend s)).

Section Generate.
(** [createCharacterSystemInstructions] and the request text are templates
    that print the category values; their wording is left open. *)
Variable createCharacterSystemInstructions : string -> UserMetrics -> string.
Variable request : categories -> string.

Definition call (c : CustomCharacterService.backend_call) (s : t) : t :=
  mk (characterClients s) (user_metrics s) (insights s) (backend s ++ [c])%list.

Definition set_client (groupId : string)
    (f : CustomCharacterService.Client -> CustomCharacterService.Client) (s : t) : t :=
  mk (alter f groupId (characterClients s)) (user_metrics s) (insights s) (backend s).

(** The promise of [generateInsight], once the request is sent: text chunks
    accumulate; ['complete'] disconnects and resolves, ['error'] rejects,
    and nothing else ends the wait. *)
Fixpoint await_insight (groupId : string) (events : list backend_event)
    (fullText : string) (s : t) : outcome string * t :=
  match events with
  | [] => (Pending, s)
  | EvText text :: events => await_insight groupId events (fullText ++ text) s
  | EvComplete :: _ =>
      (Settled (Ok fullText),
       set_client groupId
         (fun cl => CustomCharacterService.mkClient
                      (CustomCharacterService.systemInstruction cl) false
                      (CustomCharacterService.completeListeners cl))
         (call (CustomCharacterService.Disconnect groupId) s))
  | EvError e :: _ => (Settled (Err e), s)
  end.

Definition generateInsight (E : Env) (uid : string) (s : t)
    : outcome InsightData * t :=
  match getUserMetrics E uid (user_metrics s) with
  | None => (Settled (Err ("No metrics found for user " ++ uid)), s)
  | Some metrics =>
      let groupId := key_of (primaryGroup metrics) in
      match characterClients s !! groupId with
      | None =>
          (Settled (Err ("No character client found for group " ++ groupId)), s)
      | Some _ =>
          match group_of CHARACTER_GROUPS groupId with
          | None => (Settled (Err "TypeError"), s)
          | Some g =>
              let s := set_client groupId
                         (fun cl => CustomCharacterService.mkClient
                                      (createCharacterSystemInstructions groupId metrics)
                                      (CustomCharacterService.connected cl)
                                      (CustomCharacterService.completeListeners cl)) s in
              let s := call (CustomCharacterService.Connect groupId) s in
              if negb (connect_ok E groupId)
              then (Settled (Err "connect failed"), s)
              else
                let s := set_client groupId
                           (fun cl => CustomCharacterService.mkClient
                                        (CustomCharacterService.systemInstruction cl) true
                                        (CustomCharacterService.completeListeners cl)) s in
                let s := call (CustomCharacterService.Send groupId
                                 (request (cats metrics)) true) s in
                match await_insight groupId (turn E) "" s with
                | (Pending, s) => (Pending, s)
                | (Settled (Err e), s) => (Settled (Err e), s)
                | (Settled (Ok insight), s) =>
                    let insightData :=
                      mkInsightData uid groupId (now E) (cats metrics)
                                    (g_name g) insight in
                    match storeInsight E insightData s with
                    | (Err e, s) => (Settled (Err e), s)
                    | (Ok _, s) => (Settled (Ok insightData), s)
                    end
                end
          end
      end
  end.

End Generate.

(** The number of snapshots a stored metrics document holds: itself and,
    nested, every snapshot of its history. *)
Fixpoint snapshots (m : UserMetrics) : nat :=
  match m with
  | mkUserMetrics _ _ _ _ hist =>
      S ((fix sum (l : list UserMetrics) : nat :=
            match l with
            | [] => 0
            | h :: l => snapshots h + sum l
            end) hist)
  end%nat.

End Insights.

(** ** Channel bookkeeping of the orchestrator (GetStreamIntegration.js) *)
Module Channels.
Import GetStreamIntegration.

(** [getCharacterForChannel]: [map.get(channelId) || null] *)
Definition getCharacterForChannel (channelId : string) (o : t) : option string :=
  match channelToCharacterMap o !! channelId with
  | Some c => if SM.truthy_string c then Some c else None
  | None => None
  end.

(** The body of the loop of [loadExistingChannels]. *)
Definition register (o : t) (channelId : string) : t :=
  let o := set_activeChannels (fun cs => {[channelId]} ∪ cs) o in
  match characterId (parseChannelId channelId) with
  | Some c =>
      if SM.truthy_string c
      then set_channelToCharacterMap (insert channelId c) o
      else o
  | None => o
  end.

(** [loadExistingChannels]; [channels] are the ids of the channels that
    [queryChannels] answers, [None] when the query rejects. *)
Definition loadExistingChannels (channels : option (list string)) (o : t)
    : result (list string) * t :=
  match channels with
  | None => (Err "query failed", o)
  | Some channels => (Ok channels, fold_left register channels o)
  end.

(** [handleChannelAddition], called on the orchestrator.  [channel event]
    is [event.channel.id]; without it the method ends in its [catch], as
    it does when [watch] or the welcome fails. *)
Definition handleChannelAddition (E : Env) (event : Event) (o : t) : t :=
  match channel event with
  | None => o
  | Some channelId =>
      if negb (watch_ok E channelId) then o
      else
        let o := set_activeChannels (fun cs => {[channelId]} ∪ cs) o in
        let meta := parseChannelId channelId in
        match characterId meta, userId meta with
        | Some characterId, Some userId =>
            if negb (SM.truthy_string characterId) then o
            else
              let o := set_channelToCharacterMap (insert channelId characterId) o in
              let '(_, o) := addCharacterToChannel E channelId characterId o in
              snd (sendWelcomeMessage E channelId userId characterId o)
        | _, _ => o
        end
  end.

End Channels.

(** ** Vocabulary of the properties *)
Module Vocab.

(** Finite binary64 values of one sign are ordered by exponent, then
    mantissa. *)
Definition below (e1 : Z) (m1 : positive) (e2 : Z) (m2 : positive) : Prop :=
  e1 < e2 \/ (e1 = e2 /\ Z.pos m1 < Z.pos m2).

(** The exponent function of binary64. *)
Definition fexp64 (z : Z) : Z := Z.max (z - 53) (-1074).

(** Zero or finite: neither NaN nor an infinity. *)
Definition fin (x : Num.num) : bool :=
  match x with S754_zero _ | S754_finite _ _ _ => true | _ => false end.

(** A finite JS number: a zero, or a finite binary64 value in range. *)
Definition finite_number (x : Num.num) : bool :=
  match x with
  | S754_zero _ => true
  | S754_finite _ m e => bounded 53 1024 m e
  | _ => false
  end.

(** The magnitudes that the scoring rule of an activity reads are finite
    numbers. *)
Definition finite_magnitudes (activity : Metrics.Activity) : bool :=
  if String.eqb (Metrics.type activity) "conversation" then
    finite_number (Metrics.depth activity)
    && finite_number (Metrics.reflection activity)
  else if String.eqb (Metrics.type activity) "challenge" then
    finite_number (Metrics.persistence activity)
    && finite_number (Metrics.creativity activity)
  else if String.eqb (Metrics.type activity) "sharing" then
    finite_number (Metrics.generosity activity)
  else true.

(** The position of a category in the enumeration order. *)
Definition index (k : Metrics.category) : nat :=
  match k with
  | Metrics.alpha => 0 | Metrics.beta => 1 | Metrics.gamma => 2
  | Metrics.delta => 3 | Metrics.epsilon => 4
  end%nat.

(** No category score is NaN. *)
Definition all_numbers (c : Metrics.categories) : Prop :=
  forall k, Num.is_nan (Metrics.get c k) = false.

(** The orchestrator's test for a character channel: [characterId] of the
    parsed channel id is truthy. *)
Definition is_character_channel (channelId : string) : bool :=
  match GetStreamIntegration.characterId
          (GetStreamIntegration.parseChannelId channelId) with
  | Some c => CharacterStateManager.truthy_string c
  | None => false
  end.

(** The defaults the specification documents for a new state. *)
Definition documented_defaults (t : Z) : CharacterState :=
  mkCharacterState None "Character" [] None false false t 0 t None None None.

(** A seed laid over a state, field by field: the seed's value where the
    seed has the key, the state's value elsewhere. *)
Definition overridden_by (seed : Seed) (d : CharacterState) : CharacterState :=
  mkCharacterState
    (default (group d) (seed_group seed))
    (default (name d) (seed_name seed))
    (default (traits d) (seed_traits seed))
    (match seed_systemInstructions seed with
     | Some v => Some v | None => systemInstructions d end)
    (default (greetingCompleted d) (seed_greetingCompleted seed))
    (default (identityEstablished d) (seed_identityEstablished seed))
    (default (lastInteraction d) (seed_lastInteraction seed))
    (default (interactionCount d) (seed_interactionCount seed))
    (default (created d) (seed_created seed))
    (match seed_lastGroupChange seed with
     | Some v => Some v | None => lastGroupChange d end)
    (match seed_contextReset seed with
     | Some v => Some v | None => contextReset d end)
    (match seed_lastUpdated seed with
     | Some v => Some v | None => lastUpdated d end).


(** No durable-store call fails. *)
Definition no_faults (E : Env) : Prop :=
  forall op coll key, fs_fails E op coll key = false.

(** The backend completes its turn before the caller gives up: after the
    text chunks comes ['complete'], not ['error'] and not the timeout. *)
Fixpoint completes (events : list backend_event) : bool :=
  match events with
  | [] => false
  | EvText _ :: events => completes events
  | EvComplete :: _ => true
  | EvError _ :: _ => false
  end.

(** The identity test of the ['complete'] listener. *)
Definition early (state : CharacterState) : bool :=
  (interactionCount state <=? 2) && negb (identityEstablished state).

(** The state of a character after one completed message turn. *)
Definition after_turn (E : Env) (state : CharacterState) : CharacterState :=
  let counted :=
    CharacterStateManager.with_counters (interactionCount state + 1)
      (now E) (now E) state in
  if early counted
  then CharacterStateManager.with_identityEstablished E counted
  else counted.

(** The data-model invariant on one state. *)
Definition consistent (state : CharacterState) : Prop :=
  identityEstablished state = true -> greetingCompleted state = true.

(** Every state the service holds, cached or stored, satisfies [P]. *)
Definition AllStates (P : string -> CharacterState -> Prop)
    (m : CharacterStateManager.t) : Prop :=
  (forall c st, CharacterStateManager.stateCache m !! c = Some st -> P c st) /\
  (forall c st,
     character_states (CharacterStateManager.firestore m) !! c = Some st -> P c st).

(** The invariant on a service: every state it holds is consistent. *)
Definition Invariant (s : CustomCharacterService.t) : Prop :=
  AllStates (fun _ st => consistent st) (CustomCharacterService.stateManager s).

(** A state is good for the requirement [R] when it is consistent and, if
    [R] asks so for its character, greeted; a service is, when all the
    states it holds are. *)
Definition Good (R : string -> bool) (c : string) (st : CharacterState) : Prop :=
  consistent st /\ (R c = true -> greetingCompleted st = true).

Definition GoodS (R : string -> bool) (s : CustomCharacterService.t) : Prop :=
  AllStates (Good R) (CustomCharacterService.stateManager s).

(** Every copy of the state of [c] has greetingCompleted = true. *)
Definition greeted (c : string) (s : CustomCharacterService.t) : bool :=
  let m := CustomCharacterService.stateManager s in
  match CharacterStateManager.stateCache m !! c with
  | Some st => greetingCompleted st
  | None => true
  end
  && match character_states (CharacterStateManager.firestore m) !! c with
     | Some st => greetingCompleted st
     | None => true
     end.

(** A seed that does not set identityEstablished without greetingCompleted. *)
Definition seed_consistent (seed : Seed) : bool :=
  implb (default false (seed_identityEstablished seed))
        (default false (seed_greetingCompleted seed)).

(** The operations of the state store and of the session service. *)
Inductive operation :=
  | GetCharacterState (c : string)
  | InitializeCharacter (c : string) (seed : Seed)
  | UpdateGroup (c : string) (groupId : option string)
  | MarkGreetingCompleted (c : string)
  | MarkIdentityEstablished (c : string)
  | LogInteraction (c : string) (interaction : InteractionDetails)
  | GetEnhancedSystemInstructions (c : string) (baseInstructions : string)
  | CreateCharacter (c : string) (characterConfig : CharacterConfig)
  | GetCharacter (c : string)
  | UpdateCharacterGroup (c : string) (groupId : option string)
  | InitializeCharacterSession (c : string) (forceGreeting : bool)
  | SendMessageToCharacter (c : string) (message : string)
      (userId channelId : option string)
  | DeleteCharacter (c : string).

Section Traces.
Variable template : CharacterConfig -> string.
Import CustomCharacterService.

Definition perform (E : Env) (op : operation) (s : t) : t :=
  match op with
  | GetCharacterState c => snd (on_manager (SM.getCharacterState E c) s)
  | InitializeCharacter c seed => snd (on_manager (SM.initializeCharacter E c seed) s)
  | UpdateGroup c g => snd (on_manager (SM.updateGroup E c g) s)
  | MarkGreetingCompleted c => snd (on_manager (SM.markGreetingCompleted E c) s)
  | MarkIdentityEstablished c => snd (on_manager (SM.markIdentityEstablished E c) s)
  | LogInteraction c i => snd (on_manager (SM.logInteraction E c i) s)
  | GetEnhancedSystemInstructions c base =>
      snd (on_manager (SM.getEnhancedSystemInstructions E c base) s)
  | CreateCharacter c cfg => snd (createCharacter template E c cfg s)
  | GetCharacter c => snd (getCharacter E c s)
  | UpdateCharacterGroup c g => snd (updateCharacterGroup E c g s)
  | InitializeCharacterSession c force => snd (initializeCharacterSession E c force s)
  | SendMessageToCharacter c message u ch =>
      snd (sendMessageToCharacter E c message u ch s)
  | DeleteCharacter c => snd (deleteCharacter E c s)
  end.

(** The order the amended invariant asks for: the identity of a character
    is marked only once its greeting has completed, and a seed is
    consistent.  [initializeCharacterSession] marks the identity only
    through listeners that earlier message turns left on the client. *)
Definition guard (op : operation) (s : t) : bool :=
  match op with
  | InitializeCharacter _ seed => seed_consistent seed
  | MarkIdentityEstablished c => greeted c s
  | SendMessageToCharacter c _ _ _ => greeted c s
  | InitializeCharacterSession c _ => greeted c s || (listeners c s =? 0)%nat
  | _ => true
  end.

Fixpoint run (trace : list (Env * operation)) (s : t) : t :=
  match trace with
  | [] => s
  | (E, op) :: trace => run trace (perform E op s)
  end.

Fixpoint guarded (trace : list (Env * operation)) (s : t) : bool :=
  match trace with
  | [] => true
  | (E, op) :: trace => guard op s && guarded trace (perform E op s)
  end.

End Traces.

End Vocab.

(** ** Concrete inputs used by the examples *)
Module Scenario.

(** An outside world in which nothing fails and the backend stays silent. *)
Definition quiet (t : Z) : Env :=
  mkEnv t (fun _ _ _ => false) (fun _ => true) []
        (fun _ => true) (fun _ => true) (fun _ => true)
        (fun _ _ _ => None) true.

(** Two conversation activities whose depths are the two infinities. *)
Definition opposite_infinities : list Metrics.Activity :=
  [Metrics.mkActivity "conversation" Num.pos_infinity Num.zero Num.NaN Num.NaN Num.NaN;
   Metrics.mkActivity "conversation" Num.neg_infinity Num.zero Num.NaN Num.NaN Num.NaN].

(** One conversation activity of depth 10 and reflection 0. *)
Definition one_conversation : list Metrics.Activity :=
  [Metrics.mkActivity "conversation" Num.ten Num.zero Num.NaN Num.NaN Num.NaN].

(** [{alpha: 3, beta: 7, gamma: 7, delta: 0, epsilon: 0}] *)
Definition three_seven_seven : Metrics.categories :=
  Metrics.mkCategories Num.three Num.seven Num.seven Num.zero Num.zero.

(** The durable store rejects what is appended to [character_interactions];
    everything else works. *)
Definition append_fails (t : Z) : Env :=
  mkEnv t (fun op coll _ =>
             match op with
             | FsAdd => String.eqb coll "character_interactions"
             | _ => false
             end)
        (fun _ => true) []
        (fun _ => true) (fun _ => true) (fun _ => true)
        (fun _ _ _ => None) true.

(** A state store that holds the default state of character [c1]. *)
Definition store_c1 : CharacterStateManager.t :=
  snd (CharacterStateManager.initializeCharacter (quiet 1000) "c1" no_seed
         (CharacterStateManager.fresh empty_db)).

(** A seed that sets two of the fields the defaults would set. *)
Definition greeted_seed : Seed :=
  mkSeed None None None None (Some true) None None (Some 5) None None None None.

(** A state store that holds a state of [c1] with an established identity
    in the group [red]. *)
Definition established_seed : Seed :=
  mkSeed (Some (Some "red")) None None None (Some true) (Some true)
         None (Some 7) None None None None.

Definition store_established : CharacterStateManager.t :=
  snd (CharacterStateManager.initializeCharacter (quiet 1000) "c1" established_seed
         (CharacterStateManager.fresh empty_db)).

Definition hello : InteractionDetails :=
  mkInteractionDetails "message" "Hello" (Some "u1") (Some "u1_c1_1700000000000").

(** An outside world in which nothing fails, the backend answers [reply]
    and completes its turn, and the transport numbers what it is sent. *)
Definition answering (t : Z) (reply : string) : Env :=
  mkEnv t (fun _ _ _ => false) (fun _ => true) [EvText reply; EvComplete]
        (fun _ => true) (fun _ => true) (fun _ => true)
        (fun _ _ _ => Some ("msg-" ++ pretty t)) true.

(** A stand-in for the instruction template. *)
Definition instructions_of (cfg : CharacterConfig) : string :=
  "You are " ++ cfg_name cfg ++ ".".

Definition ada : CharacterConfig :=
  mkCharacterConfig "Ada" ["curious"] None None None "".

(** The session service after [createCharacter] of [c1], and after its
    greeting has completed. *)
Definition service_created : CustomCharacterService.t :=
  snd (CustomCharacterService.createCharacter instructions_of (quiet 1000) "c1" ada
         (CustomCharacterService.fresh empty_db)).

Definition service_greeted : CustomCharacterService.t :=
  snd (CustomCharacterService.initializeCharacterSession
         (answering 1100 "Hello! I'm Ada.") "c1" true service_created).

(** Create [c1], greet, then two message turns; and the same without the
    greeting. *)
Definition greeted_conversation : list (Env * Vocab.operation) :=
  [(quiet 1000, Vocab.CreateCharacter "c1" ada);
   (answering 1100 "Hello! I'm Ada.", Vocab.InitializeCharacterSession "c1" true);
   (answering 1200 "Hi there", Vocab.SendMessageToCharacter "c1" "Hello"
                                 (Some "u1") (Some "u1_c1_1700000000000"));
   (answering 1300 "Again", Vocab.SendMessageToCharacter "c1" "And then?"
                              (Some "u1") (Some "u1_c1_1700000000000"))].

Definition ungreeted_conversation : list (Env * Vocab.operation) :=
  [(quiet 1000, Vocab.CreateCharacter "c1" ada);
   (answering 1200 "Hi there", Vocab.SendMessageToCharacter "c1" "Hello"
                                 (Some "u1") (Some "u1_c1_1700000000000"))].

(** The orchestrator with the greeted character [c1], and a first message
    of user [u1] in their channel. *)
Definition orchestrator_ready : GetStreamIntegration.t :=
  GetStreamIntegration.mk "chaos_theory" service_greeted ∅ ∅ [] [].

Definition hello_event : GetStreamIntegration.Event :=
  GetStreamIntegration.mkEvent
    (Some (GetStreamIntegration.mkMessage "m1" "u1" "Hello"))
    (Some "u1_c1_1700000000000") "messaging:u1_c1_1700000000000".

Definition no_score (text : string) : Num.num := Num.zero.

(** The same message in a channel whose id has a fourth field. *)
Definition four_field_event : GetStreamIntegration.Event :=
  GetStreamIntegration.mkEvent
    (Some (GetStreamIntegration.mkMessage "m9" "u1" "Hello"))
    (Some "u1_c1_1700000000000_x") "messaging:u1_c1_1700000000000_x".

End Scenario.

(** ** Further vocabulary *)
Module Terms.

(** The cache agrees with the store: a cached state is the stored document
    of its character.  This is the form the proofs carry; the clock of a
    call is read once in the embedding. *)
Definition coherent (m : CharacterStateManager.t) : Prop :=
  forall c st,
    CharacterStateManager.stateCache m !! c = Some st ->
    character_states (CharacterStateManager.firestore m) !! c = Some st.

(** A state without its [lastUpdated] stamp.  The two marks read the clock
    once for the cached copy and once more for the stored fields. *)
Definition unstamped (state : CharacterState) : CharacterState :=
  mkCharacterState
    (group state) (name state) (traits state) (systemInstructions state)
    (greetingCompleted state) (identityEstablished state)
    (lastInteraction state) (interactionCount state) (created state)
    (lastGroupChange state) (contextReset state) None.

(** The cache is backed by the store: a cached state is, [lastUpdated]
    apart, the stored document of its character. *)
Definition backed (m : CharacterStateManager.t) : Prop :=
  forall c st,
    CharacterStateManager.stateCache m !! c = Some st ->
    exists d,
      character_states (CharacterStateManager.firestore m) !! c = Some d /\
      unstamped st = unstamped d.

(** No copy of the state of [c] would make a ['complete'] listener of
    [sendMessageToCharacter] mark the identity. *)
Definition settled (c : string) (s : CustomCharacterService.t) : bool :=
  let m := CustomCharacterService.stateManager s in
  match CharacterStateManager.stateCache m !! c with
  | Some st => negb (Vocab.early st)
  | None => true
  end
  && match character_states (CharacterStateManager.firestore m) !! c with
     | Some st => negb (Vocab.early st)
     | None => true
     end.

(** No greeting is run for a character while listeners of earlier message
    turns are on its client and would still mark its identity. *)
Definition calm (op : Vocab.operation) (s : CustomCharacterService.t) : bool :=
  match op with
  | Vocab.InitializeCharacterSession c _ =>
      settled c s || (CustomCharacterService.listeners c s =? 0)%nat
  | _ => true
  end.

Fixpoint unraced (template : CharacterConfig -> string)
    (trace : list (Env * Vocab.operation)) (s : CustomCharacterService.t) : bool :=
  match trace with
  | [] => true
  | (E, op) :: trace =>
      calm op s && unraced template trace (Vocab.perform template E op s)
  end.

(** Text chunks put end to end. *)
Definition joined (chunks : list string) : string :=
  fold_right String.append "" chunks.

(** An activity of one of the three types the scoring rule knows. *)
Definition known (activity : Metrics.Activity) : bool :=
  String.eqb (Metrics.type activity) "conversation"
  || String.eqb (Metrics.type activity) "challenge"
  || String.eqb (Metrics.type activity) "sharing".

(** The [user_metrics] collection after one calculation for [uid] per
    entry of [runs], each in its own outside world. *)
Definition recalculate (uid : string) (runs : list (Env * list Metrics.Activity))
    (user_metrics : gmap string Metrics.UserMetrics)
    : gmap string Metrics.UserMetrics :=
  fold_left (fun db run =>
               snd (Metrics.calculateUserMetrics (fst run) uid (snd run) db))
            runs user_metrics.

(** Reads and writes of the metrics document of [uid] work. *)
Definition metrics_store_works (uid : string) (E : Env) : Prop :=
  fs_fails E FsGet "user_metrics" uid = false /\
  fs_fails E FsSet "user_metrics" uid = false.

(** The character [c] occurs in [s]. *)
Fixpoint has_char (c : ascii) (s : string) : bool :=
  match s with
  | EmptyString => false
  | String c' rest => Ascii.eqb c' c || has_char c rest
  end.

(** A number that is not negative: a zero, a positive finite value or
    +Infinity. *)
Definition nonneg (x : Num.num) : bool :=
  match x with
  | S754_zero _ | S754_finite false _ _ | S754_infinity false => true
  | _ => false
  end.

(** How many of the reflective words occur in [text], in any case and as
    parts of longer words; each word counts once. *)
Definition reflective_count (text : string) : nat :=
  length (List.filter (fun word => Text.includes word (Text.toLowerCase text))
                      Scoring.reflectiveWords).

(** From [o] to [o'] the orchestrator forgot no processed id, and the id
    of every message it sent on the way is among the processed ids. *)
Definition marks_output (o o' : GetStreamIntegration.t) : Prop :=
  (forall x,
     x ∈ GetStreamIntegration.processedMessageIds o ->
     x ∈ GetStreamIntegration.processedMessageIds o') /\
  (forall m,
     m ∈ GetStreamIntegration.sent o' ->
     m ∈ GetStreamIntegration.sent o \/
     GetStreamIntegration.assigned_id m ∈ GetStreamIntegration.processedMessageIds o').

End Terms.

(** ** Further concrete inputs *)
Module Cases.

(** An outside world in which nothing fails but the backend: it emits one
    chunk and then an error. *)
Definition erroring (t : Z) : Env :=
  mkEnv t (fun _ _ _ => false) (fun _ => true) [EvText "Hi"; EvError "overloaded"]
        (fun _ => true) (fun _ => true) (fun _ => true)
        (fun _ _ _ => Some ("msg-" ++ pretty t)) true.

(** The durable store rejects the reads of [user_metrics]; everything else
    works. *)
Definition metrics_unreadable (t : Z) : Env :=
  mkEnv t (fun op coll _ =>
             match op with
             | FsGet => String.eqb coll "user_metrics"
             | _ => false
             end)
        (fun _ => true) []
        (fun _ => true) (fun _ => true) (fun _ => true)
        (fun _ _ _ => None) true.

(** The metrics of user [u1] after one calculation. *)
Definition metrics_u1 : gmap string Metrics.UserMetrics :=
  snd (Metrics.calculateUserMetrics (Scenario.quiet 1) "u1"
         Scenario.one_conversation ∅).

(** Activities of types the scoring rule does not know. *)
Definition unknown_activities : list Metrics.Activity :=
  [Metrics.mkActivity "login" Num.ten Num.ten Num.ten Num.ten Num.ten;
   Metrics.mkActivity "Conversation" Num.ten Num.ten Num.ten Num.ten Num.ten].

(** The session service after [createCharacter] of [c1] and a message
    turn that the backend ended with an error: the listener of that turn is
    still on the client, and the identity is not established. *)
Definition service_interrupted : CustomCharacterService.t :=
  snd (CustomCharacterService.sendMessageToCharacter (erroring 1200) "c1" "Hello"
         (Some "u1") (Some "u1_c1_1700000000000") Scenario.service_created).

(** Create [c1], greet, two message turns, and a greeting forced again
    once the identity is established. *)
Definition regreeted_conversation : list (Env * Vocab.operation) :=
  (Scenario.greeted_conversation
     ++ [(Scenario.answering 1400 "Hello again!",
          Vocab.InitializeCharacterSession "c1" true)])%list.

(** A conversation of depth 10 and a challenge that has a [creativity] but
    no [persistence]. *)
Definition missing_persistence : list Metrics.Activity :=
  [Metrics.mkActivity "conversation" Num.ten Num.zero Num.NaN Num.NaN Num.NaN;
   Metrics.mkActivity "challenge" Num.NaN Num.NaN Num.NaN Num.zero Num.NaN].

(** The number 5. *)
Definition five : Num.num := S754_finite false 5629499534213120 (-50).

(** An outside world in which the backend answers and the transport
    works, but the [handleMessage] callback throws. *)
Definition callback_throws (t : Z) (reply : string) : Env :=
  mkEnv t (fun _ _ _ => false) (fun _ => true) [EvText reply; EvComplete]
        (fun _ => true) (fun _ => true) (fun _ => true)
        (fun _ author _ => Some ("msg-" ++ author ++ "-" ++ pretty t)) false.

End Cases.

(** * Properties *)

(** ** Order facts about binary64 comparison *)
Section FloatOrder.
Import Num Vocab.

Lemma compare_cont_cases m1 m2 :
  match Pos.compare_cont Eq m1 m2 with
  | Eq => Z.pos m1 = Z.pos m2
  | Lt => Z.pos m1 < Z.pos m2
  | Gt => Z.pos m2 < Z.pos m1
  end.
Proof.
  change (Pos.compare_cont Eq m1 m2) with (Pos.compare m1 m2).
  destruct (Pos.compare_spec m1 m2); subst; lia.
Qed.

Lemma ltb_finite s1 m1 e1 s2 m2 e2 :
  SFltb (S754_finite s1 m1 e1) (S754_finite s2 m2 e2) = true <->
  match s1, s2 with
  | true, true => below e2 m2 e1 m1
  | true, false => True
  | false, true => False
  | false, false => below e1 m1 e2 m2
  end.
Proof.
  unfold SFltb, SFcompare, below.
  destruct s1, s2; try (split; [auto | auto]; fail);
    try (split; [discriminate | tauto]; fail).
  - destruct (Z.compare_spec e1 e2) as [H|H|H].
    + pose proof (compare_cont_cases m1 m2) as Hc.
      destruct (Pos.compare_cont Eq m1 m2); cbn;
        (split; [try discriminate | try reflexivity]); intros; lia.
    + split; [discriminate |]. intros; lia.
    + split; [intros _; left; lia | reflexivity].
  - destruct (Z.compare_spec e1 e2) as [H|H|H].
    + pose proof (compare_cont_cases m1 m2) as Hc.
      destruct (Pos.compare_cont Eq m1 m2); cbn;
        (split; [try discriminate | try reflexivity]); intros; lia.
    + split; [intros _; left; lia | reflexivity].
    + split; [discriminate |]. intros; lia.
Qed.

Lemma leb_finite s1 m1 e1 s2 m2 e2 :
  SFleb (S754_finite s1 m1 e1) (S754_finite s2 m2 e2) = true <->
  match s1, s2 with
  | true, true => below e2 m2 e1 m1 \/ (e1 = e2 /\ m1 = m2)
  | true, false => True
  | false, true => False
  | false, false => below e1 m1 e2 m2 \/ (e1 = e2 /\ m1 = m2)
  end.
Proof.
  unfold SFleb, SFcompare, below.
  destruct s1, s2; try (split; [auto | auto]; fail);
    try (split; [discriminate | tauto]; fail).
  - destruct (Z.compare_spec e1 e2) as [H|H|H].
    + pose proof (compare_cont_cases m1 m2) as Hc.
      destruct (Pos.compare_cont Eq m1 m2); cbn;
        (split; [try discriminate | try reflexivity]); intros;
        try lia; try (right; split; [lia | congruence]).
    + split; [discriminate |]. intros; lia.
    + split; [intros _; left; left; lia | reflexivity].
  - destruct (Z.compare_spec e1 e2) as [H|H|H].
    + pose proof (compare_cont_cases m1 m2) as Hc.
      destruct (Pos.compare_cont Eq m1 m2); cbn;
        (split; [try discriminate | try reflexivity]); intros;
        try lia; try (right; split; [lia | congruence]).
    + split; [intros _; left; left; lia | reflexivity].
    + split; [discriminate |]. intros; lia.
Qed.

Lemma gt_irrefl a : gt a a = false.
Proof.
  unfold gt.
  destruct a as [s|s| |s m e]; try (destruct s; reflexivity); try reflexivity.
  destruct (SFltb (S754_finite s m e) (S754_finite s m e)) eqn:H; [| reflexivity].
  apply ltb_finite in H. destruct s; unfold below in H; lia.
Qed.

Lemma gt_trans a b c : gt a b = true -> gt b c = true -> gt a c = true.
Proof.
  unfold gt.
  destruct a as [sa|sa| |sa ma ea], b as [sb|sb| |sb mb eb], c as [sc|sc| |sc mc ec];
    try (destruct sa; cbn; discriminate); try (destruct sb; cbn; discriminate);
    try (destruct sc; cbn; discriminate); try (cbn; discriminate);
    try (destruct sa, sb, sc; cbn; congruence).
  rewrite !ltb_finite. destruct sa, sb, sc; unfold below; try tauto; lia.
Qed.

(** On numbers, what is not above is at most. *)
Lemma not_gt_le a b :
  is_nan a = false -> is_nan b = false -> gt a b = false -> le a b = true.
Proof.
  unfold gt, le.
  destruct a as [sa|sa| |sa ma ea], b as [sb|sb| |sb mb eb];
    try discriminate; intros _ _;
    try (destruct sa; cbn; congruence); try (destruct sb; cbn; congruence);
    try (destruct sa, sb; cbn; congruence).
  intros H. apply leb_finite.
  destruct (SFltb (S754_finite sb mb eb) (S754_finite sa ma ea)) eqn:Hlt;
    [discriminate |].
  assert (Hn : ~ SFltb (S754_finite sb mb eb) (S754_finite sa ma ea) = true)
    by congruence.
  rewrite ltb_finite in Hn.
  destruct sa, sb; unfold below in *; try tauto.
  - destruct (Z.eq_dec ea eb), (Pos.eq_dec ma mb); subst; try lia;
      destruct (Z.lt_trichotomy (Z.pos ma) (Z.pos mb)) as [?|[?|?]]; lia.
  - destruct (Z.eq_dec ea eb), (Pos.eq_dec ma mb); subst; try lia;
      destruct (Z.lt_trichotomy (Z.pos ma) (Z.pos mb)) as [?|[?|?]]; lia.
Qed.

(** A number that is not above [m] is below whatever is above [m]. *)
Lemma not_gt_gt_trans j m k :
  is_nan j = false -> gt j m = false -> gt k m = true -> gt k j = true.
Proof.
  unfold gt.
  destruct j as [sj|sj| |sj mj ej], m as [sm|sm| |sm mm em], k as [sk|sk| |sk mk ek];
    try discriminate; intros _;
    try (destruct sk; cbn; discriminate); try (destruct sm; cbn; discriminate);
    try (cbn; discriminate);
    try (destruct sj, sm, sk; cbn; congruence).
  intros H1 H2.
  assert (Hn : ~ SFltb (S754_finite sm mm em) (S754_finite sj mj ej) = true)
    by congruence.
  rewrite ltb_finite in *.
  destruct sj, sm, sk; unfold below in *; try tauto; lia.
Qed.

Lemma gt_not_nan_l a b : gt a b = true -> is_nan a = false.
Proof. unfold gt. destruct a, b; try reflexivity; discriminate. Qed.

Lemma gt_not_nan_r a b : gt a b = true -> is_nan b = false.
Proof.
  unfold gt.
  destruct a as [s|s| |s ? ?], b; try reflexivity; try discriminate;
    destruct s; discriminate.
Qed.

(** What the clamp does: a number lands in [0, 10], NaN stays NaN. *)
Lemma Math_max_zero x :
  is_nan x = false ->
  is_nan (Math_max x zero) = false /\ le zero (Math_max x zero) = true.
Proof.
  destruct x as [s|s| |s m e]; try discriminate; intros _;
    destruct s; split; reflexivity.
Qed.

Lemma Math_min_ten x :
  is_nan x = false -> le zero x = true ->
  in_0_10 (Math_min x ten) = true.
Proof.
  intros Hx H0. unfold Math_min. rewrite Hx.
  change (is_nan ten) with false. change (is_neg_zero ten) with false.
  rewrite andb_false_r. cbn [orb]. unfold in_0_10.
  destruct (gt x ten) eqn:Hg; [reflexivity |].
  rewrite H0. cbn [andb]. now apply not_gt_le.
Qed.

Lemma clamp_number x :
  is_nan x = false -> in_0_10 (Metrics.clamp x) = true.
Proof.
  intros Hx. unfold Metrics.clamp.
  destruct (Math_max_zero x Hx) as [Hn H0]. now apply Math_min_ten.
Qed.

Lemma clamp_nan x : is_nan x = true -> Metrics.clamp x = NaN.
Proof. destruct x; try discriminate. reflexivity. Qed.

Lemma in_0_10_not_nan x : in_0_10 x = true -> is_nan x = false.
Proof. destruct x; try reflexivity. discriminate. Qed.

Lemma digits2_pos_size p : digits2_pos p = Pos.size p.
Proof. induction p; cbn; congruence. Qed.

Lemma digits_upper p : Z.pos p < 2 ^ Z.pos (digits2_pos p).
Proof.
  rewrite digits2_pos_size.
  pose proof (Pos.size_gt p) as H.
  apply Pos2Z.pos_lt_pos in H. rewrite Pos2Z.inj_pow in H. exact H.
Qed.

Lemma digits_lower p : 2 ^ Z.pos (digits2_pos p) <= 2 * Z.pos p.
Proof.
  rewrite digits2_pos_size.
  pose proof (Pos.size_le p) as H.
  apply Pos2Z.pos_le_pos in H. rewrite Pos2Z.inj_pow in H. exact H.
Qed.

(** A positive number below [2^k] has at most [k] digits. *)
Lemma digits_le p k : 0 <= k -> Z.pos p < 2 ^ k -> Z.pos (digits2_pos p) <= k.
Proof.
  intros Hk Hlt.
  destruct (Z_le_gt_dec (Z.pos (digits2_pos p)) k) as [H | H]; [exact H |].
  exfalso. pose proof (digits_lower p) as Hl.
  assert (2 ^ (k + 1) <= 2 ^ Z.pos (digits2_pos p)) by (apply Z.pow_le_mono_r; lia).
  rewrite Z.pow_add_r in H0 by lia. lia.
Qed.

Lemma shr_1_bounds r :
  0 <= shr_m r -> 0 <= shr_m (shr_1 r) /\ 2 * shr_m (shr_1 r) <= shr_m r.
Proof.
  destruct r as [m b s]. cbn [shr_m]. intros Hm. unfold shr_1.
  destruct m as [| [p | p |] | p]; cbn [shr_m]; lia.
Qed.

Lemma iter_shr_bounds p : forall r,
  0 <= shr_m r ->
  0 <= shr_m (SpecFloat.iter_pos shr_1 p r) /\
  2 ^ Z.pos p * shr_m (SpecFloat.iter_pos shr_1 p r) <= shr_m r.
Proof.
  induction p as [p IH | p IH |]; intros r Hr; cbn [SpecFloat.iter_pos].
  - destruct (shr_1_bounds r Hr) as [H1 H2].
    destruct (IH _ H1) as [H3 H4]. destruct (IH _ H3) as [H5 H6].
    split; [exact H5 |].
    replace (Z.pos p~1) with (Z.pos p + Z.pos p + 1) by lia.
    rewrite !Z.pow_add_r by lia. 
    assert (0 < 2 ^ Z.pos p) by (apply Z.pow_pos_nonneg; lia). nia.
  - destruct (IH _ Hr) as [H3 H4]. destruct (IH _ H3) as [H5 H6].
    split; [exact H5 |].
    replace (Z.pos p~0) with (Z.pos p + Z.pos p) by lia.
    rewrite !Z.pow_add_r by lia.
    assert (0 < 2 ^ Z.pos p) by (apply Z.pow_pos_nonneg; lia). nia.
  - destruct (shr_1_bounds r Hr) as [H1 H2]. split; [exact H1 |]. 
    change (2 ^ 1) with 2. exact H2.
Qed.

Lemma rne_bounds m l : m <= round_nearest_even m l <= m + 1.
Proof.
  unfold round_nearest_even. destruct l as [| []]; try lia.
  destruct (Z.even m); lia.
Qed.

Lemma fexp_64 z : fexp 53 1024 z = fexp64 z.
Proof. reflexivity. Qed.

Lemma shr_record_of_loc_m m l : shr_m (shr_record_of_loc m l) = m.
Proof. destruct l as [| []]; reflexivity. Qed.

Lemma shr_fexp_spec m e l r e' :
  0 <= m ->
  shr_fexp 53 1024 m e l = (r, e') ->
  0 <= shr_m r /\
  e' = Z.max e (fexp64 (Zdigits2 m + e)) /\
  2 ^ (e' - e) * shr_m r <= m.
Proof.
  intros Hm. unfold shr_fexp, shr. rewrite fexp_64.
  destruct (fexp64 (Zdigits2 m + e) - e) as [| p | p] eqn:Hn; intros [= <- <-];
    rewrite ?shr_record_of_loc_m.
  - split; [exact Hm |]. split; [lia |]. replace (e - e) with 0 by lia. rewrite Z.pow_0_r. lia.
  - destruct (iter_shr_bounds p (shr_record_of_loc m l)) as [H1 H2];
      [now rewrite shr_record_of_loc_m |].
    rewrite shr_record_of_loc_m in H2.
    split; [exact H1 |]. split; [lia |].
    replace (e + Z.pos p - e) with (Z.pos p) by lia. exact H2.
  - split; [exact Hm |]. split; [lia |]. replace (e - e) with 0 by lia. rewrite Z.pow_0_r. lia.
Qed.

Lemma Zdigits2_le m k : 0 <= k -> 0 <= m < 2 ^ k -> Zdigits2 m <= k.
Proof.
  intros Hk [H0 Hlt]. destruct m as [| p | p]; cbn; [lia | | lia].
  now apply digits_le.
Qed.

Lemma mul_const_fin s mx ex mc :
  Z.pos mx < 2 ^ 53 -> ex <= 971 -> Z.pos mc <= 2 ^ 53 - 2 ->
  fin (binary_round_aux 53 1024 s (Z.pos (mx * mc)) (ex + -53) loc_Exact) = true.
Proof.
  intros Hmx Hex Hmc. unfold binary_round_aux.
  set (m := Z.pos (mx * mc)). set (e := ex + -53).
  assert (Hm : m = Z.pos mx * Z.pos mc) by reflexivity.
  assert (Hm0 : 0 < m) by lia.
  assert (Hmlt : m < 2 ^ 106).
  { change (2 ^ 106) with (2 ^ 53 * 2 ^ 53). nia. }
  set (d := Zdigits2 m).
  assert (Hd : d <= 106) by (apply Zdigits2_le; lia).
  assert (Hdu : m < 2 ^ d) by (subst d m; apply digits_upper).
  assert (Hd0 : 0 < d) by (subst d m; cbn; lia).
  destruct (shr_fexp 53 1024 m e loc_Exact) as [r1 e1] eqn:H1.
  destruct (shr_fexp_spec _ _ _ _ _ (Z.lt_le_incl _ _ Hm0) H1) as (Hr1 & He1 & Hb1).
  fold d in He1.
  set (m1 := round_nearest_even (shr_m r1) (loc_of_shr_record r1)).
  pose proof (rne_bounds (shr_m r1) (loc_of_shr_record r1)) as Hrne. fold m1 in Hrne.
  destruct (shr_fexp 53 1024 m1 e1 loc_Exact) as [r2 e2] eqn:H2.
  assert (Hm1 : 0 <= m1) by lia.
  destruct (shr_fexp_spec _ _ _ _ _ Hm1 H2) as (Hr2 & He2 & Hb2).
  destruct (shr_m r2) as [| m2 | m2] eqn:Hm2; [reflexivity | | lia].
  assert (Hgoal : e2 <= 971);
    [| destruct (Z.leb_spec e2 (1024 - 53)); [reflexivity | lia]].
  assert (Hm1pos : 0 < m1).
  { destruct (Z.eq_dec m1 0) as [H0 | H0]; [| lia].
    exfalso. rewrite H0 in Hb2.
    assert (0 < 2 ^ (e2 - e1)) by (apply Z.pow_pos_nonneg; lia). nia. }
  unfold fexp64 in *.
  assert (He1le : e1 <= 971) by lia.
  assert (Hdig : Zdigits2 m1 + e1 <= 1024); [| lia].
  destruct (Z_le_gt_dec (d + e - 53) e) as [Hno | Hshift].
  - assert (d <= 53) by lia.
    assert (m < 2 ^ 53).
    { eapply Z.lt_le_trans; [exact Hdu |]. apply Z.pow_le_mono_r; lia. }
    assert (shr_m r1 <= m).
    { assert (1 <= 2 ^ (e1 - e)) by (apply Z.pow_le_mono_r with (b := 0) (c := e1 - e); lia).
      nia. }
    assert (Zdigits2 m1 <= 54) by (apply Zdigits2_le; [lia |]; change (2 ^ 54) with (2 * 2 ^ 53); lia).
    assert (e1 <= 918 \/ e1 = -1074) by lia. lia.
  - destruct (Z_le_gt_dec (d + e - 53) (-1074)) as [Hsub | Hnorm].
    + assert (e1 = -1074) by lia.
      assert (shr_m r1 <= m).
      { assert (1 <= 2 ^ (e1 - e)) by (apply Z.pow_le_mono_r with (b := 0) (c := e1 - e); lia).
        nia. }
      assert (Zdigits2 m1 <= 107) by (apply Zdigits2_le; [lia |]; change (2 ^ 107) with (2 * 2 ^ 106); lia).
      lia.
    + assert (He1eq : e1 = d + e - 53) by lia.
      replace (e1 - e) with (d - 53) in Hb1 by lia.
      assert (HP : 0 < 2 ^ (d - 53)) by (apply Z.pow_pos_nonneg; lia).
      assert (Hsplit : 2 ^ d = 2 ^ (d - 53) * 2 ^ 53).
      { rewrite <- Z.pow_add_r by lia. f_equal. lia. }
      assert (Hr1lt : shr_m r1 < 2 ^ 53) by nia.
      destruct (Z.eq_dec d 106) as [H106 | Hn106].
      * rewrite H106 in Hb1. change (2 ^ (106 - 53)) with (2 ^ 53) in Hb1.
        assert (shr_m r1 < Z.pos mc) by nia.
        assert (Zdigits2 m1 <= 53) by (apply Zdigits2_le; lia).
        lia.
      * assert (Zdigits2 m1 <= 54)
          by (apply Zdigits2_le; [lia |]; change (2 ^ 54) with (2 * 2 ^ 53); lia).
        lia.
Qed.

Lemma bounded_53 m e :
  bounded 53 1024 m e = true -> Z.pos m < 2 ^ 53 /\ e <= 971.
Proof.
  unfold bounded, canonical_mantissa. rewrite fexp_64. unfold fexp64.
  intros H. apply andb_true_iff in H as [Hc He].
  apply Z.eqb_eq in Hc. apply Z.leb_le in He. split; [| lia].
  eapply Z.lt_le_trans; [apply digits_upper |].
  apply Z.pow_le_mono_r; lia.
Qed.

(** A finite number times a constant below one is finite. *)
Lemma mul_finite x mc :
  finite_number x = true -> Z.pos mc <= 2 ^ 53 - 2 ->
  fin (mul x (S754_finite false mc (-53))) = true.
Proof.
  intros Hx Hmc. destruct x as [s | s | | s m e]; try discriminate; [reflexivity |].
  destruct (bounded_53 _ _ Hx) as [Hm He]. now apply mul_const_fin.
Qed.

Lemma binary_round_aux_not_nan s m e l :
  0 <= m -> is_nan (binary_round_aux 53 1024 s m e l) = false.
Proof.
  intros Hm. unfold binary_round_aux.
  destruct (shr_fexp 53 1024 m e l) as [r1 e1] eqn:H1.
  destruct (shr_fexp_spec _ _ _ _ _ Hm H1) as (Hr1 & _ & _).
  set (m1 := round_nearest_even (shr_m r1) (loc_of_shr_record r1)).
  pose proof (rne_bounds (shr_m r1) (loc_of_shr_record r1)) as Hrne.
  fold m1 in Hrne.
  assert (Hm1 : 0 <= m1) by lia.
  destruct (shr_fexp 53 1024 m1 e1 loc_Exact) as [r2 e2] eqn:H2.
  destruct (shr_fexp_spec _ _ _ _ _ Hm1 H2) as (Hr2 & _ & _).
  destruct (shr_m r2); [reflexivity | | lia].
  now destruct (e2 <=? 1024 - 53).
Qed.

Lemma binary_normalize_not_nan z e szero :
  is_nan (binary_normalize 53 1024 z e szero) = false.
Proof.
  unfold binary_normalize, binary_round.
  destruct z as [| p | p]; [reflexivity | |];
    destruct (shl_align _ _ _) as [mz ez]; now apply binary_round_aux_not_nan.
Qed.

(** Adding a finite term to a number gives a number. *)
Lemma add_not_nan a t :
  is_nan a = false -> fin t = true -> is_nan (add a t) = false.
Proof.
  destruct a as [sa | sa | | sa ma ea], t as [st | st | | st mt et];
    try discriminate; intros _ _; try reflexivity;
    try (destruct sa, st; reflexivity).
  apply binary_normalize_not_nan.
Qed.

End FloatOrder.

(** ** Metrics engine *)
Section MetricsProperties.
Import Num Metrics Vocab.

Lemma get_set_same k v c : get (set k v c) k = v.
Proof. destruct k; reflexivity. Qed.

Lemma get_set_other k j v c : k <> j -> get (set k v c) j = get c j.
Proof. destruct k, j; intros H; try reflexivity; congruence. Qed.

Lemma get_normalize c k : get (normalize c) k = clamp (get c k).
Proof. destruct c, k; reflexivity. Qed.

Lemma calculateUserMetrics_cats E uid acts db m :
  fst (calculateUserMetrics E uid acts db) = Ok m ->
  cats m = normalize (accumulate acts) /\ primaryGroup m = primary (cats m).
Proof.
  unfold calculateUserMetrics, storeMetrics.
  destruct (fs_fails E FsSet "user_metrics" uid); cbn; [discriminate |].
  intros [= <-]. split; reflexivity.
Qed.

Ltac finite_step Hk :=
  apply add_not_nan;
  [exact Hk | apply mul_finite; [assumption | vm_compute; discriminate]].

(** Finite magnitudes never produce NaN: each contribution is finite, and a
    number plus a finite term is a number. *)
Lemma score_not_nan acc activity :
  (forall k, is_nan (get acc k) = false) ->
  finite_magnitudes activity = true ->
  forall k, is_nan (get (score acc activity) k) = false.
Proof.
  intros Hacc Hfin. unfold score, finite_magnitudes in *.
  destruct (String.eqb (type activity) "conversation").
  { apply andb_true_iff in Hfin as [H1 H2].
    intros k; generalize (Hacc k); destruct k; cbn; intros Hk;
      first [exact Hk | finite_step Hk]. }
  destruct (String.eqb (type activity) "challenge").
  { apply andb_true_iff in Hfin as [H1 H2].
    intros k; generalize (Hacc k); destruct k; cbn; intros Hk;
      first [exact Hk | finite_step Hk]. }
  destruct (String.eqb (type activity) "sharing"); [| exact Hacc].
  intros k; generalize (Hacc k); destruct k; cbn; intros Hk;
    first [exact Hk | finite_step Hk].
Qed.

Lemma accumulate_not_nan userActivities :
  Forall (fun a => finite_magnitudes a = true) userActivities ->
  forall k, is_nan (get (accumulate userActivities) k) = false.
Proof.
  unfold accumulate.
  assert (Hbase : forall k, is_nan (get baseline k) = false)
    by (intros k; now destruct k).
  revert Hbase. generalize baseline.
  induction userActivities as [| a rest IH]; intros acc Hacc Hall; [exact Hacc |].
  apply Forall_cons in Hall as [Ha Hrest]. cbn [fold_left].
  apply IH; [now apply score_not_nan | exact Hrest].
Qed.

(** What the clamp bounds.  Each category value of the snapshot is
    [Math.min(Math.max(score, 0), 10)] of the accumulated score: it lies in
    [0, 10] whenever that score is a number, as it is when the magnitudes of
    all activities are finite, and it is NaN when the score is NaN. *)
Lemma clamp_bounds_numbers E uid acts db m k :
  fst (calculateUserMetrics E uid acts db) = Ok m ->
  (Forall (fun a => finite_magnitudes a = true) acts ->
     in_0_10 (get (cats m) k) = true) /\
  get (cats m) k = clamp (get (accumulate acts) k) /\
  (is_nan (get (accumulate acts) k) = false -> in_0_10 (get (cats m) k) = true) /\
  (is_nan (get (accumulate acts) k) = true -> get (cats m) k = NaN).
Proof.
  intros H. apply calculateUserMetrics_cats in H as [-> _].
  rewrite get_normalize. repeat split.
  - intros Hall. apply clamp_number. now apply accumulate_not_nan.
  - apply clamp_number.
  - apply clamp_nan.
Qed.

(** C7.  The code does not keep every category value in [0, 10] for
    arbitrary input magnitudes, although it normalizes the values "to
    ensure they're within expected ranges": for two conversation
    activities with the depths +Infinity and -Infinity the score of [beta]
    is NaN, the clamp returns NaN, and the snapshot that
    [calculateUserMetrics] returns holds a [beta] that is not in
    [0, 10]. *)
Lemma calculateUserMetrics_nan_escapes_clamp :
  exists m,
    fst (calculateUserMetrics (Scenario.quiet 0) "u1"
           Scenario.opposite_infinities ∅) = Ok m /\
    get (cats m) beta = NaN /\
    in_0_10 (get (cats m) beta) = false.
Proof. eexists. split; [reflexivity |]. split; reflexivity. Qed.

(** The reduce of [primaryGroup], path by path. *)
Ltac order_saturate :=
  repeat match goal with
  | H1 : gt ?a ?b = true, H2 : gt ?b ?c = true |- _ =>
      lazymatch goal with
      | _ : gt a c = true |- _ => fail
      | _ => assert (gt a c = true) by exact (gt_trans _ _ _ H1 H2)
      end
  | Hn : is_nan ?j = false, H1 : gt ?j ?m = false, H2 : gt ?k ?m = true |- _ =>
      lazymatch goal with
      | _ : gt k j = true |- _ => fail
      | _ => assert (gt k j = true) by exact (not_gt_gt_trans _ _ _ Hn H1 H2)
      end
  end.

Ltac order_absurd :=
  order_saturate;
  match goal with
  | H : gt ?a ?a = true |- _ => rewrite gt_irrefl in H; discriminate H
  | H : gt ?a ?b = true, H' : gt ?a ?b = false |- _ => congruence
  end.

Ltac primary_paths c :=
  destruct c as [a b g d e];
  cbv [primary keys fold_left get c_alpha c_beta c_gamma c_delta c_epsilon];
  rewrite (gt_irrefl a);
  repeat match goal with
  | |- context [if gt ?x ?y then _ else _] =>
      is_var x; is_var y; destruct (gt x y) eqn:?
  end.

Lemma primary_max c j : gt (get c j) (get c (primary c)) = false.
Proof.
  revert j. primary_paths c; intros j; destruct j;
    try apply gt_irrefl; try assumption;
    match goal with
    | |- gt ?x ?y = false =>
        destruct (gt x y) eqn:?; [exfalso; order_absurd | reflexivity]
    end.
Qed.

Lemma primary_first c j :
  (index j < index (primary c))%nat ->
  gt (get c (primary c)) (get c j) = true \/ is_nan (get c j) = true.
Proof.
  revert j. primary_paths c; intros j; destruct j;
    cbn [index]; intros Hlt;
    try (exfalso; lia);
    match goal with
    | |- _ \/ is_nan ?x = true =>
        destruct (is_nan x) eqn:?; [right; reflexivity | left]
    end;
    order_saturate; assumption.
Qed.

(** What the reduce finds.  No category has a score above the one of
    [primaryGroup], every category declared before it has a strictly lower
    score (or a NaN one), and when all scores are numbers every score is at
    most its score.  For the categories {alpha: 3, beta: 7, gamma: 7} the
    result is beta. *)
Lemma primary_highest_among_numbers E uid acts db m :
  fst (calculateUserMetrics E uid acts db) = Ok m ->
  (forall j, gt (get (cats m) j) (get (cats m) (primaryGroup m)) = false) /\
  (forall j, (index j < index (primaryGroup m))%nat ->
     gt (get (cats m) (primaryGroup m)) (get (cats m) j) = true \/
     is_nan (get (cats m) j) = true) /\
  (all_numbers (cats m) ->
     forall j, le (get (cats m) j) (get (cats m) (primaryGroup m)) = true) /\
  primary Scenario.three_seven_seven = beta.
Proof.
  intros H. apply calculateUserMetrics_cats in H as [_ ->].
  split; [| split; [| split]].
  - apply primary_max.
  - apply primary_first.
  - intros Hnum j. apply not_gt_le; [apply Hnum | apply Hnum | apply primary_max].
  - reflexivity.
Qed.

(** C8.  The [primaryGroup] that [calculateUserMetrics] computes is not
    always the category with the highest score, although the code
    determines it "based on highest score": for a conversation of depth 10
    and a challenge without [persistence], the value of [alpha] is NaN and
    the one of [beta] is 5, which no other value exceeds; no comparison
    with NaN is true, so the reduce never leaves its first key and
    [primaryGroup] is [alpha]. *)
Lemma calculateUserMetrics_primaryGroup_keeps_nan :
  exists m,
    fst (calculateUserMetrics (Scenario.quiet 0) "u1"
           Cases.missing_persistence ∅) = Ok m /\
    primaryGroup m = alpha /\
    get (cats m) alpha = NaN /\
    get (cats m) beta = Cases.five /\
    gt (get (cats m) beta) (get (cats m) alpha) = false /\
    forallb (fun j => is_nan (get (cats m) j) || le (get (cats m) j) (get (cats m) beta))
            keys = true.
Proof. eexists. split; [reflexivity |]. repeat split; reflexivity. Qed.

End MetricsProperties.

(** ** Channel identifiers *)
Section ChannelProperties.
Import GetStreamIntegration Vocab.

Lemma split_not_nil sep s : Str.split sep s <> [].
Proof.
  destruct s as [| c rest]; cbn; [discriminate |].
  destruct (Ascii.eqb c sep); [discriminate |].
  destruct (Str.split sep rest); discriminate.
Qed.

Lemma parseChannelId_short channelId :
  (length (Str.split "_" channelId) < 3)%nat ->
  parseChannelId channelId = mkChannelMeta None None None.
Proof.
  intros H. unfold parseChannelId.
  destruct (Nat.leb_spec 3 (length (Str.split "_" channelId))); [lia | reflexivity].
Qed.

Lemma parseChannelId_long channelId u c t rest :
  Str.split "_" channelId = u :: c :: t :: rest ->
  parseChannelId channelId = mkChannelMeta (Some u) (Some c) (Some (Str.parseInt t)).
Proof. intros H. unfold parseChannelId. rewrite H. reflexivity. Qed.

(** Events of a channel that is not a character channel reach neither the
    session service nor the transport. *)
Lemma handleIncomingMessage_ignores depth reflection E event o channelId :
  channel_id_of event = Some channelId ->
  is_character_channel channelId = false ->
  sent (handleIncomingMessage depth reflection E event o) = sent o /\
  characterService (handleIncomingMessage depth reflection E event o)
    = characterService o /\
  channelToCharacterMap (handleIncomingMessage depth reflection E event o)
    = channelToCharacterMap o.
Proof.
  intros Hch Hnot. unfold handleIncomingMessage. rewrite Hch.
  destruct (message event) as [msg |]; [| auto].
  destruct (set_has (msg_id msg) (processedMessageIds o)
            || String.eqb (msg_user msg) (orchestratorId o)); [auto |].
  unfold is_character_channel in Hnot.
  destruct (characterId (parseChannelId channelId)) as [c |] eqn:Hc.
  - rewrite Hnot. cbn [negb].
    repeat match goal with
    | |- context [if ?b then _ else _] => destruct b
    | |- context [match ?x with Some _ => _ | None => _ end] => destruct x
    end; auto.
  - repeat match goal with
    | |- context [if ?b then _ else _] => destruct b
    end; auto.
Qed.

(** C5, amended.  A channel identifier with fewer than three
    underscore-delimited fields parses to the all-absent result; one with at
    least three fields parses to its first field as user, its second as
    character and [parseInt] of its third as timestamp, fields after the
    third being ignored.  The orchestrator treats the identifier as a
    character channel exactly when that second field exists and is not
    empty, and ignores the events of every other channel.  In particular
    "u1_c1_1700000000000" parses to u1, c1, 1700000000000 and
    "randomchannel" to the all-absent result. *)
Theorem parseChannelId_shape channelId :
  ((length (Str.split "_" channelId) < 3)%nat ->
     parseChannelId channelId = mkChannelMeta None None None /\
     is_character_channel channelId = false) /\
  (forall u c t rest,
     Str.split "_" channelId = u :: c :: t :: rest ->
     parseChannelId channelId
       = mkChannelMeta (Some u) (Some c) (Some (Str.parseInt t)) /\
     is_character_channel channelId = CharacterStateManager.truthy_string c) /\
  (forall depth reflection E event o,
     channel_id_of event = Some channelId ->
     is_character_channel channelId = false ->
     sent (handleIncomingMessage depth reflection E event o) = sent o /\
     characterService (handleIncomingMessage depth reflection E event o)
       = characterService o /\
     channelToCharacterMap (handleIncomingMessage depth reflection E event o)
       = channelToCharacterMap o) /\
  parseChannelId "u1_c1_1700000000000"
    = mkChannelMeta (Some "u1") (Some "c1") (Some (Str.PInt 1700000000000)) /\
  parseChannelId "randomchannel" = mkChannelMeta None None None.
Proof.
  split; [| split; [| split; [| split]]].
  - intros H. unfold is_character_channel.
    rewrite (parseChannelId_short _ H). split; reflexivity.
  - intros u c t rest H. unfold is_character_channel.
    rewrite (parseChannelId_long _ _ _ _ _ H). split; reflexivity.
  - intros depth reflection E event o H1 H2.
    exact (handleIncomingMessage_ignores _ _ _ _ _ _ H1 H2).
  - reflexivity.
  - reflexivity.
Qed.

Lemma parseChannelId_shape_witness :
  parseChannelId "randomchannel" = mkChannelMeta None None None /\
  is_character_channel "randomchannel" = false.
Proof.
  apply (proj1 (parseChannelId_shape "randomchannel")). cbn. lia.
Defined.

(** C5 as stated fails: an identifier with four fields is a character
    channel all the same, and the orchestrator answers a message in it. *)
Lemma four_fields_is_character_channel :
  length (Str.split "_" "u1_c1_1700000000000_x") = 4%nat /\
  is_character_channel "u1_c1_1700000000000_x" = true /\
  parseChannelId "u1_c1_1700000000000_x"
    = mkChannelMeta (Some "u1") (Some "c1") (Some (Str.PInt 1700000000000)) /\
  sent (handleIncomingMessage Scenario.no_score Scenario.no_score
          (Scenario.answering 1200 "Hi there") Scenario.four_field_event
          Scenario.orchestrator_ready)
    = [mkSentMessage "u1_c1_1700000000000_x" "c1" "Hi there" "msg-1200"].
Proof. repeat split; vm_compute; reflexivity. Qed.

End ChannelProperties.

(** ** State store *)
Section StateStoreProperties.
Import CharacterStateManager Vocab.

Lemma append_nil_r (s : string) : s ++ "" = s.
Proof.
  induction s as [| c s IH]; [reflexivity |].
  change (String c (s ++ "") = String c s). now f_equal.
Qed.

Lemma append_assoc (s1 s2 s3 : string) : (s1 ++ s2) ++ s3 = s1 ++ (s2 ++ s3).
Proof.
  induction s1 as [| c s1 IH]; [reflexivity |].
  change (String c ((s1 ++ s2) ++ s3) = String c (s1 ++ (s2 ++ s3))). now f_equal.
Qed.

(** *** Reading a state *)

Lemma getCharacterState_cached E c m st :
  stateCache m !! c = Some st -> getCharacterState E c m = (Some st, m).
Proof. intros H. unfold getCharacterState. now rewrite H. Qed.

Lemma getCharacterState_Some E c m st :
  fst (getCharacterState E c m) = Some st ->
  stateCache (snd (getCharacterState E c m)) !! c = Some st /\
  firestore (snd (getCharacterState E c m)) = firestore m /\
  conversationFlags (snd (getCharacterState E c m)) = conversationFlags m.
Proof.
  unfold getCharacterState.
  destruct (stateCache m !! c) as [st0 |] eqn:Hc; cbn.
  - intros [= <-]. auto.
  - destruct (fs_fails E FsGet "character_states" c); cbn; [discriminate |].
    destruct (character_states (firestore m) !! c) as [st0 |]; cbn;
      [| discriminate].
    intros [= <-]. rewrite lookup_insert_eq. auto.
Qed.

Lemma getCharacterState_None E c m :
  fst (getCharacterState E c m) = None -> snd (getCharacterState E c m) = m.
Proof.
  unfold getCharacterState.
  destruct (stateCache m !! c); cbn; [discriminate |].
  destruct (fs_fails E FsGet "character_states" c); cbn; [reflexivity |].
  destruct (character_states (firestore m) !! c); cbn; [discriminate | reflexivity].
Qed.

(** *** Initialization *)

Lemma defaultState_overrides E seed :
  defaultState E seed = overridden_by seed (documented_defaults (now E)).
Proof.
  unfold defaultState, overridden_by, documented_defaults.
  destruct seed as [g n t si gc ie li ic cr lg cx lu]; cbn.
  destruct n as [n |], t as [t |], si, lg, cx, lu; reflexivity.
Qed.

(** C10.  When [initializeCharacter] creates a new state, the fields of the
    seed take precedence over the defaults: the created state, which is
    returned, cached and stored, is the defaults (group null, name
    'Character', no traits, greetingCompleted false, identityEstablished
    false, interactionCount 0, lastInteraction and created now) overridden
    field by field by the seed.  A seed with greetingCompleted = true or
    interactionCount = 5 yields a fresh state with those values. *)
Theorem initializeCharacter_seed_precedence E c seed m :
  fst (getCharacterState E c m) = None ->
  fs_fails E FsSet "character_states" c = false ->
  let st := overridden_by seed (documented_defaults (now E)) in
  fst (initializeCharacter E c seed m) = Ok st /\
  stateCache (snd (initializeCharacter E c seed m)) !! c = Some st /\
  character_states (firestore (snd (initializeCharacter E c seed m))) !! c = Some st /\
  (seed_greetingCompleted seed = Some true -> greetingCompleted st = true) /\
  (forall n, seed_interactionCount seed = Some n -> interactionCount st = n).
Proof.
  intros Hnone Hset st. unfold initializeCharacter.
  pose proof (getCharacterState_None _ _ _ Hnone) as Hm.
  destruct (getCharacterState E c m) as [o m0]; cbn in Hnone, Hm; subst o m0.
  rewrite Hset, defaultState_overrides. cbn. fold st.
  rewrite !lookup_insert_eq. repeat split.
  - intros H. subst st. cbn. now rewrite H.
  - intros n H. subst st. cbn. now rewrite H.
Qed.

Lemma initializeCharacter_seed_precedence_witness :
  greetingCompleted
    (overridden_by Scenario.greeted_seed (documented_defaults 1000)) = true /\
  interactionCount
    (overridden_by Scenario.greeted_seed (documented_defaults 1000)) = 5.
Proof.
  pose proof (initializeCharacter_seed_precedence (Scenario.quiet 1000) "c1"
                Scenario.greeted_seed (fresh empty_db) eq_refl eq_refl)
    as (_ & _ & _ & Hg & Hn).
  split; [apply Hg | apply Hn]; reflexivity.
Defined.

(** *** Instruction augmentation *)


Lemma getConversationFlag_set c flag v m :
  getConversationFlag c flag (setConversationFlag c flag v m) = Some v.
Proof.
  unfold getConversationFlag, setConversationFlag. cbn.
  now rewrite !lookup_insert_eq.
Qed.


Lemma stateCache_clear c flag m :
  stateCache (clearConversationFlag c flag m) = stateCache m.
Proof.
  unfold clearConversationFlag. now destruct (conversationFlags m !! c).
Qed.



(** *** Recording an interaction *)

Lemma logInteraction_returns_normally E c i m :
  fst (logInteraction E c i m) = Ok tt.
Proof.
  unfold logInteraction, add_interaction, update_doc.
  destruct (getCharacterState E c m) as [[st |] m0]; [| reflexivity].
  destruct (fs_fails E FsAdd "character_interactions" _); [reflexivity |].
  cbn. destruct (fs_fails E FsUpdate "character_states" c); reflexivity.
Qed.

Lemma logInteraction_success E c i m st :
  fst (getCharacterState E c m) = Some st ->
  fs_fails E FsAdd "character_interactions" c = false ->
  fs_fails E FsUpdate "character_states" c = false ->
  snd (logInteraction E c i m) =
    set_stateCache
      (insert c (with_counters (interactionCount st + 1) (now E) (now E) st))
      (set_firestore
         (set_character_states
            (alter (with_counters (interactionCount st + 1) (now E) (now E)) c))
         (set_firestore
            (set_character_interactions
               (fun l => (l ++ [mkInteractionEntry c (now E) i])%list))
            (snd (getCharacterState E c m)))).
Proof.
  intros Hst Hadd Hupd.
  unfold logInteraction, add_interaction, update_doc.
  destruct (getCharacterState E c m) as [o m0]; cbn in Hst.
  subst o. cbn [e_characterId]. rewrite Hadd. cbn. rewrite Hupd. reflexivity.
Qed.

(** C9, amended.  In [logInteraction] the counter update follows a
    successful append to the interaction log.  When the append fails the
    update is not attempted: the operation leaves the store as reading the
    state left it, so interactionCount, lastInteraction and lastUpdated keep
    their values.  When the state of the character is absent nothing is
    recorded at all.  When the append and the update both succeed, the entry
    is logged, interactionCount is incremented and lastInteraction and
    lastUpdated are stamped, in the cache and in the stored document. *)
Theorem logInteraction_update_follows_append E c i m :
  (fs_fails E FsAdd "character_interactions" c = true ->
     snd (logInteraction E c i m) = snd (getCharacterState E c m)) /\
  (fst (getCharacterState E c m) = None ->
     snd (logInteraction E c i m) = m) /\
  (forall st,
     fst (getCharacterState E c m) = Some st ->
     fs_fails E FsAdd "character_interactions" c = false ->
     fs_fails E FsUpdate "character_states" c = false ->
     stateCache (snd (logInteraction E c i m)) !! c
       = Some (with_counters (interactionCount st + 1) (now E) (now E) st) /\
     character_states (firestore (snd (logInteraction E c i m))) !! c
       = with_counters (interactionCount st + 1) (now E) (now E)
           <$> character_states (firestore m) !! c /\
     character_interactions (firestore (snd (logInteraction E c i m)))
       = (character_interactions (firestore m)
            ++ [mkInteractionEntry c (now E) i])%list).
Proof.
  split; [| split].
  - intros Hadd. unfold logInteraction, add_interaction.
    destruct (getCharacterState E c m) as [[st |] m0]; [| reflexivity].
    cbn [e_characterId]. now rewrite Hadd.
  - intros Hnone. unfold logInteraction.
    pose proof (getCharacterState_None _ _ _ Hnone) as Hm.
    destruct (getCharacterState E c m) as [o m0]; cbn in Hnone, Hm.
    now subst o m0.
  - intros st Hst Hadd Hupd.
    destruct (getCharacterState_Some _ _ _ _ Hst) as (Hcache & Hdb & _).
    rewrite (logInteraction_success _ _ _ _ _ Hst Hadd Hupd). cbn.
    rewrite lookup_insert_eq, lookup_alter_eq, Hdb. repeat split.
Qed.

Lemma logInteraction_update_follows_append_witness :
  snd (logInteraction (Scenario.append_fails 2000) "c1" Scenario.hello Scenario.store_c1)
    = snd (getCharacterState (Scenario.append_fails 2000) "c1" Scenario.store_c1).
Proof.
  apply (proj1 (logInteraction_update_follows_append (Scenario.append_fails 2000)
                  "c1" Scenario.hello Scenario.store_c1)).
  reflexivity.
Defined.

(** C9 as stated fails: when the append is rejected, the caller gets a
    normal return, and the counters are left alone although the update
    itself would have been accepted; with no state for the character the
    call returns normally too. *)
Lemma logInteraction_append_failure_is_silent :
  fs_fails (Scenario.append_fails 2000) FsUpdate "character_states" "c1" = false /\
  logInteraction (Scenario.append_fails 2000) "c1" Scenario.hello Scenario.store_c1
    = (Ok tt, Scenario.store_c1) /\
  (interactionCount <$> stateCache Scenario.store_c1 !! "c1") = Some 0 /\
  logInteraction (Scenario.quiet 2000) "ghost" Scenario.hello Scenario.store_c1
    = (Ok tt, Scenario.store_c1).
Proof. repeat split; vm_compute; reflexivity. Qed.

End StateStoreProperties.

(** ** Session service *)
Section SessionProperties.
Import CustomCharacterService Vocab.

Lemma set_stateManager_same s : set_stateManager (fun _ => stateManager s) s = s.
Proof. now destruct s. Qed.

Lemma on_manager_fst {A} (op : SM.t -> A * SM.t) s :
  fst (on_manager op s) = fst (op (stateManager s)).
Proof. unfold on_manager. now destruct (op (stateManager s)). Qed.

Lemma on_manager_snd {A} (op : SM.t -> A * SM.t) s :
  snd (on_manager op s) = set_stateManager (fun _ => snd (op (stateManager s))) s.
Proof. unfold on_manager. now destruct (op (stateManager s)). Qed.

Lemma on_manager_eq {A} (op : SM.t -> A * SM.t) s :
  on_manager op s =
    (fst (op (stateManager s)),
     set_stateManager (fun _ => snd (op (stateManager s))) s).
Proof. unfold on_manager. now destruct (op (stateManager s)). Qed.

(** *** [write_back] *)

Lemma write_back_fields E c fields state s :
  characterClients (write_back E c fields state s) = characterClients s /\
  backend (write_back E c fields state s) = backend s /\
  stateManager (write_back E c fields state s) =
    (if fs_fails E FsUpdate "character_states" c then stateManager s
     else SM.set_stateCache (insert c (fields state))
            (SM.set_firestore (set_character_states (alter fields c))
               (stateManager s))).
Proof.
  unfold write_back, on_manager, SM.update_doc.
  destruct (fs_fails E FsUpdate "character_states" c); cbn; auto.
Qed.

Lemma write_back_iter_fields E c fields state n s :
  characterClients (Nat.iter n (write_back E c fields state) s) = characterClients s /\
  backend (Nat.iter n (write_back E c fields state) s) = backend s.
Proof.
  induction n as [| n [IH1 IH2]]; [auto |].
  rewrite Nat.iter_succ.
  destruct (write_back_fields E c fields state
              (Nat.iter n (write_back E c fields state) s)) as (-> & -> & _).
  auto.
Qed.

Lemma emitCompleteGreeting_fields E c s :
  characterClients (emitCompleteGreeting E c s) = characterClients s /\
  backend (emitCompleteGreeting E c s) = backend s.
Proof.
  unfold emitCompleteGreeting. rewrite on_manager_eq.
  destruct (fst (SM.getCharacterState E c (stateManager s))) as [st |];
    [| split; reflexivity].
  match goal with
  | |- context [Nat.iter ?n (write_back E c ?f st) ?s1] =>
      destruct (write_back_iter_fields E c f st n s1) as [-> ->]
  end.
  match goal with
  | |- context [write_back E c ?f st ?s1] =>
      destruct (write_back_fields E c f st s1) as (-> & -> & _)
  end.
  split; reflexivity.
Qed.

(** *** [getCharacter] *)

(** [getCharacter] makes no backend call, leaves the documents alone, and
    keeps what a read of the character's state answers. *)
Lemma getCharacter_backend E c s : backend (snd (getCharacter E c s)) = backend s.
Proof.
  unfold getCharacter.
  destruct (characterClients s !! c); [reflexivity |].
  destruct (get_character_doc E c s); [| reflexivity].
  rewrite !on_manager_eq. reflexivity.
Qed.

Lemma getEnhancedSystemInstructions_store E c base m :
  SM.firestore (snd (SM.getEnhancedSystemInstructions E c base m)) = SM.firestore m /\
  (forall st, fst (SM.getCharacterState E c m) = Some st ->
     SM.stateCache (snd (SM.getEnhancedSystemInstructions E c base m)) !! c = Some st) /\
  (forall c' st, SM.stateCache m !! c' = Some st ->
     SM.stateCache (snd (SM.getEnhancedSystemInstructions E c base m)) !! c' = Some st).
Proof.
  unfold SM.getEnhancedSystemInstructions.
  destruct (SM.getCharacterState E c m) as [[st |] m0] eqn:Hget.
  - assert (Hst : fst (SM.getCharacterState E c m) = Some st) by now rewrite Hget.
    destruct (getCharacterState_Some _ _ _ _ Hst) as (Hc & Hdb & Hfl).
    rewrite Hget in Hc, Hdb, Hfl. cbn in Hc, Hdb, Hfl.
    assert (Hkeep : forall c' st', SM.stateCache m !! c' = Some st' ->
                                   SM.stateCache m0 !! c' = Some st').
    { intros c' st' Hc'. revert Hget. unfold SM.getCharacterState.
      destruct (SM.stateCache m !! c) eqn:Hcc; [now intros [= _ <-] |].
      destruct (fs_fails E FsGet "character_states" c); [discriminate |].
      destruct (character_states (SM.firestore m) !! c); [| discriminate].
      intros [= _ <-]. cbn.
      destruct (decide (c = c')) as [-> | Hne]; [congruence |].
      now rewrite lookup_insert_ne. }
    destruct (default false (SM.getConversationFlag c "resetRequired" m0)); cbn.
    + rewrite stateCache_clear.
      unfold SM.clearConversationFlag.
      destruct (SM.conversationFlags m0 !! c); cbn; repeat split; auto;
        intros st' [= <-]; exact Hc.
    + repeat split; auto. intros st' [= <-]. exact Hc.
  - assert (Hnone : fst (SM.getCharacterState E c m) = None) by now rewrite Hget.
    pose proof (getCharacterState_None _ _ _ Hnone) as Hm.
    rewrite Hget in Hm. cbn in Hm. subst m0. cbn. repeat split; auto.
    discriminate.
Qed.

Lemma getCharacterState_keeps E c m c' st :
  SM.stateCache m !! c' = Some st ->
  SM.stateCache (snd (SM.getCharacterState E c m)) !! c' = Some st.
Proof.
  intros Hc'. unfold SM.getCharacterState.
  destruct (SM.stateCache m !! c) eqn:Hcc; [exact Hc' |].
  destruct (fs_fails E FsGet "character_states" c); [exact Hc' |].
  destruct (character_states (SM.firestore m) !! c); [| exact Hc'].
  cbn. destruct (decide (c = c')) as [-> | Hne]; [congruence |].
  now rewrite lookup_insert_ne.
Qed.

Lemma getCharacterState_store E c m :
  SM.firestore (snd (SM.getCharacterState E c m)) = SM.firestore m.
Proof.
  unfold SM.getCharacterState.
  destruct (SM.stateCache m !! c); [reflexivity |].
  destruct (fs_fails E FsGet "character_states" c); [reflexivity |].
  now destruct (character_states (SM.firestore m) !! c).
Qed.

Lemma getCharacter_store E c s :
  SM.firestore (stateManager (snd (getCharacter E c s)))
    = SM.firestore (stateManager s).
Proof.
  unfold getCharacter.
  destruct (characterClients s !! c); [reflexivity |].
  destruct (get_character_doc E c s); [| reflexivity].
  rewrite !on_manager_eq. cbn.
  destruct (getEnhancedSystemInstructions_store E c (cfg_systemInstructions a)
              (snd (SM.getCharacterState E c (stateManager s)))) as (-> & _).
  apply getCharacterState_store.
Qed.

Lemma getCharacter_keeps E c s c' st :
  SM.stateCache (stateManager s) !! c' = Some st ->
  SM.stateCache (stateManager (snd (getCharacter E c s))) !! c' = Some st.
Proof.
  intros Hc'. unfold getCharacter.
  destruct (characterClients s !! c); [exact Hc' |].
  destruct (get_character_doc E c s); [| exact Hc'].
  rewrite !on_manager_eq. cbn.
  apply getEnhancedSystemInstructions_store. now apply getCharacterState_keeps.
Qed.

Lemma getCharacter_read E c s st :
  fst (SM.getCharacterState E c (stateManager s)) = Some st ->
  fst (SM.getCharacterState E c (stateManager (snd (getCharacter E c s)))) = Some st.
Proof.
  intros Hst. unfold getCharacter.
  destruct (characterClients s !! c); [exact Hst |].
  destruct (get_character_doc E c s); [| exact Hst].
  rewrite !on_manager_eq. cbn.
  erewrite getCharacterState_cached; [reflexivity |].
  apply getEnhancedSystemInstructions_store.
  now apply getCharacterState_Some.
Qed.

Lemma getCharacter_ok E c s cfg :
  get_character_doc E c s = Ok cfg ->
  fst (getCharacter E c s) = Ok cfg /\
  is_Some (characterClients (snd (getCharacter E c s)) !! c).
Proof.
  intros Hdoc. unfold getCharacter.
  destruct (characterClients s !! c) eqn:Hcl; cbn.
  - rewrite Hcl. split; [exact Hdoc | eauto].
  - rewrite Hdoc, !on_manager_eq. cbn. rewrite lookup_insert_eq. split; eauto.
Qed.

Lemma getCharacter_err E c s e :
  get_character_doc E c s = Err e -> getCharacter E c s = (Err e, s).
Proof.
  intros Hdoc. unfold getCharacter. rewrite Hdoc.
  now destruct (characterClients s !! c).
Qed.

Lemma get_character_doc_store E c s s' :
  SM.firestore (stateManager s') = SM.firestore (stateManager s) ->
  get_character_doc E c s' = get_character_doc E c s.
Proof. intros H. unfold get_character_doc. now rewrite H. Qed.

(** *** Greeting *)

Lemma initializeCharacterSession_greeted E c s st :
  fst (SM.getCharacterState E c (stateManager s)) = Some st ->
  greetingCompleted st = true ->
  initializeCharacterSession E c false s =
    match get_character_doc E c s with
    | Ok _ =>
        (true,
         set_stateManager
           (fun _ => snd (SM.getCharacterState E c
                            (stateManager (snd (getCharacter E c s)))))
           (snd (getCharacter E c s)))
    | Err _ => (false, s)
    end.
Proof.
  intros Hst Hg. unfold initializeCharacterSession.
  destruct (get_character_doc E c s) as [cfg | e] eqn:Hdoc.
  - destruct (getCharacter_ok _ _ _ _ Hdoc) as (Hfst & _).
    pose proof (getCharacter_read _ _ _ _ Hst) as Hread.
    destruct (getCharacter E c s) as [r s1]. cbn in Hfst, Hread. subst r.
    rewrite on_manager_eq, Hread, Hg. reflexivity.
  - now rewrite (getCharacter_err _ _ _ _ Hdoc).
Qed.

(** C6.  For a character whose state has greetingCompleted = true,
    [initializeCharacterSession] with default options makes no call to the
    AI backend (no connect, no send) and, the character's document being
    readable, answers true at once; called again, whatever the outside
    world does then, it again makes no backend call and answers true. *)
Theorem initializeCharacterSession_idempotent_skip E c s st :
  fst (SM.getCharacterState E c (stateManager s)) = Some st ->
  greetingCompleted st = true ->
  is_ok (get_character_doc E c s) = true ->
  fst (initializeCharacterSession E c false s) = true /\
  backend (snd (initializeCharacterSession E c false s)) = backend s /\
  forall E',
    backend (snd (initializeCharacterSession E' c false
                    (snd (initializeCharacterSession E c false s)))) = backend s /\
    (is_ok (get_character_doc E' c s) = true ->
     fst (initializeCharacterSession E' c false
            (snd (initializeCharacterSession E c false s))) = true).
Proof.
  intros Hst Hg Hdoc.
  rewrite (initializeCharacterSession_greeted _ _ _ _ Hst Hg).
  destruct (get_character_doc E c s) as [cfg |] eqn:Hcfg; [clear Hdoc | discriminate].
  cbn [fst snd]. split; [reflexivity |].
  split; [cbn; apply getCharacter_backend |].
  intros E'.
  set (s1 := set_stateManager _ (snd (getCharacter E c s))).
  assert (Hcached : SM.stateCache (stateManager s1) !! c = Some st).
  { subst s1. cbn. apply getCharacterState_Some. now apply getCharacter_read. }
  assert (Hst1 : fst (SM.getCharacterState E' c (stateManager s1)) = Some st)
    by now rewrite (getCharacterState_cached _ _ _ _ Hcached).
  assert (Hdb : SM.firestore (stateManager s1) = SM.firestore (stateManager s)).
  { subst s1. cbn. rewrite getCharacterState_store. apply getCharacter_store. }
  assert (Hb1 : backend s1 = backend s)
    by (subst s1; cbn; apply getCharacter_backend).
  rewrite (initializeCharacterSession_greeted _ _ _ _ Hst1 Hg).
  rewrite (get_character_doc_store E' c s s1 Hdb).
  destruct (get_character_doc E' c s); cbn [fst snd is_ok].
  - split; [| reflexivity]. cbn. now rewrite getCharacter_backend.
  - split; [exact Hb1 | discriminate].
Qed.

Lemma initializeCharacterSession_idempotent_skip_witness :
  fst (initializeCharacterSession (Scenario.quiet 1200) "c1" false
         Scenario.service_greeted) = true /\
  backend (snd (initializeCharacterSession (Scenario.quiet 1200) "c1" false
                  Scenario.service_greeted)) = backend Scenario.service_greeted.
Proof.
  destruct (initializeCharacterSession_idempotent_skip (Scenario.quiet 1200) "c1"
              Scenario.service_greeted _ eq_refl eq_refl eq_refl) as (H1 & H2 & _).
  split; [exact H1 | exact H2].
Defined.

End SessionProperties.

(** ** Message turns *)
Section TurnProperties.
Import CustomCharacterService Vocab.

Lemma markIdentityEstablished_cached E c m st :
  SM.stateCache m !! c = Some st ->
  fs_fails E FsUpdate "character_states" c = false ->
  SM.markIdentityEstablished E c m =
    (Ok (SM.with_identityEstablished E st),
     SM.set_stateCache (insert c (SM.with_identityEstablished E st))
       (SM.set_firestore
          (set_character_states (alter (SM.with_identityEstablished E) c)) m)).
Proof.
  intros Hc Hupd. unfold SM.markIdentityEstablished, SM.update_doc.
  now rewrite (getCharacterState_cached _ _ _ _ Hc), Hupd.
Qed.

Lemma identityCheck_cached E c s st :
  SM.stateCache (stateManager s) !! c = Some st ->
  identityCheck E c s =
    if early st
    then set_stateManager
           (fun _ => snd (SM.markIdentityEstablished E c (stateManager s))) s
    else s.
Proof.
  intros Hc. unfold identityCheck, early.
  rewrite on_manager_eq, (getCharacterState_cached _ _ _ _ Hc). cbn [fst snd].
  rewrite set_stateManager_same.
  destruct ((interactionCount st <=? 2) && negb (identityEstablished st));
    [| reflexivity].
  now rewrite on_manager_snd.
Qed.

Lemma early_with_identityEstablished E st :
  early (SM.with_identityEstablished E st) = false.
Proof. unfold early. cbn. apply andb_false_r. Qed.

(** What [n] runs of the listener leave behind. *)
Lemma identityCheck_iter E c n : forall s st,
  SM.stateCache (stateManager s) !! c = Some st ->
  fs_fails E FsUpdate "character_states" c = false ->
  SM.stateCache (stateManager (Nat.iter n (identityCheck E c) s)) !! c
    = Some (if (0 <? n)%nat && early st
            then SM.with_identityEstablished E st else st) /\
  characters (SM.firestore (stateManager (Nat.iter n (identityCheck E c) s)))
    = characters (SM.firestore (stateManager s)) /\
  characterClients (Nat.iter n (identityCheck E c) s) = characterClients s /\
  backend (Nat.iter n (identityCheck E c) s) = backend s.
Proof.
  induction n as [| n IH]; intros s st Hc Hupd.
  - cbn. auto.
  - rewrite !Nat.iter_succ. destruct (IH s st Hc Hupd) as (Hc' & Hch & Hcl & Hb).
    set (s' := Nat.iter n (identityCheck E c) s) in *.
    rewrite (identityCheck_cached _ _ _ _ Hc').
    destruct ((0 <? n)%nat && early st) eqn:Hn.
    + rewrite early_with_identityEstablished.
      apply andb_true_iff in Hn as [_ ->]. cbn. auto.
    + destruct (early st) eqn:He.
      * rewrite andb_true_r in Hn. cbn [Nat.ltb Nat.leb andb].
        rewrite (markIdentityEstablished_cached _ _ _ _ Hc' Hupd). cbn.
        rewrite lookup_insert_eq. auto.
      * rewrite andb_false_r. auto.
Qed.

Lemma await_response_completes E c events : forall fullText s,
  completes events = true ->
  exists response,
    await_response E c events fullText s = (Ok response, emitComplete E c s).
Proof.
  induction events as [| ev events IH]; intros fullText s H; [discriminate |].
  destruct ev; cbn in *; [apply IH; exact H | eauto | discriminate].
Qed.

(** A message turn that completes, in a world without store faults:
    the interaction is counted, then the listener looks at the count. *)
Lemma sendMessageToCharacter_completes E c message userId channelId s st cfg :
  no_faults E ->
  connect_ok E c = true ->
  completes (turn E) = true ->
  characters (SM.firestore (stateManager s)) !! c = Some cfg ->
  fst (SM.getCharacterState E c (stateManager s)) = Some st ->
  exists response s',
    sendMessageToCharacter E c message userId channelId s = (Ok response, s') /\
    SM.stateCache (stateManager s') !! c = Some (after_turn E st) /\
    characters (SM.firestore (stateManager s'))
      = characters (SM.firestore (stateManager s)).
Proof.
  intros Hnf Hconn Hturn Hcfg Hst.
  assert (Hdoc : get_character_doc E c s = Ok cfg).
  { unfold get_character_doc. now rewrite Hnf, Hcfg. }
  destruct (getCharacter_ok _ _ _ _ Hdoc) as (Hfst & [cl Hcl]).
  pose proof (getCharacter_read _ _ _ _ Hst) as Hread.
  pose proof (getCharacter_store E c s) as Hdb.
  unfold sendMessageToCharacter.
  destruct (getCharacter E c s) as [r sa]. cbn in Hfst, Hcl, Hread, Hdb. subst r.
  rewrite on_manager_eq.
  rewrite (logInteraction_success _ _ _ _ _ Hread (Hnf _ _ _) (Hnf _ _ _)).
  set (st1 := SM.with_counters (interactionCount st + 1) (now E) (now E) st).
  match goal with
  | |- context [set_stateManager (fun _ => ?m) sa] =>
      set (sb := set_stateManager (fun _ => m) sa)
  end.
  assert (Hcb : SM.stateCache (stateManager sb) !! c = Some st1)
    by (subst sb; cbn; now rewrite lookup_insert_eq).
  assert (Hchb : characters (SM.firestore (stateManager sb))
                 = characters (SM.firestore (stateManager s))).
  { subst sb. cbn. now rewrite getCharacterState_store, Hdb. }
  assert (Hclb : characterClients sb !! c = Some cl) by exact Hcl.
  (* connect if needed *)
  assert (Hconnect : exists sc,
    (if is_connected c sb then (Ok tt, sb) else connect E c sb) = (Ok tt, sc) /\
    stateManager sc = stateManager sb /\
    is_Some (characterClients sc !! c)).
  { destruct (is_connected c sb).
    - exists sb. eauto.
    - unfold connect. rewrite Hconn. eexists. split; [reflexivity |].
      split; [reflexivity |]. cbn. rewrite lookup_alter_eq.
      first [rewrite Hclb | rewrite Hcl]. cbn. eauto. }
  destruct Hconnect as (sc & -> & Hmc & [cl' Hclc]).
  set (sd := add_listener c (send c message false sc)).
  assert (Hcd : SM.stateCache (stateManager sd) !! c = Some st1)
    by (subst sd; cbn; now rewrite Hmc).
  assert (Hld : listeners c sd = S (completeListeners cl')).
  { subst sd. unfold listeners, add_listener. cbn.
    now rewrite lookup_alter_eq, Hclc. }
  destruct (await_response_completes E c (turn E) "" sd Hturn) as (response & ->).
  exists response, (emitComplete E c sd). split; [reflexivity |].
  unfold emitComplete. rewrite Hld.
  destruct (identityCheck_iter E c (S (completeListeners cl')) sd st1 Hcd (Hnf _ _ _))
    as (Hce & Hche & _ & _).
  split.
  - rewrite Hce. unfold after_turn. fold st1. reflexivity.
  - rewrite Hche. subst sd. cbn. now rewrite Hmc.
Qed.

(** C3, amended.  For a fresh character with default state
    (interactionCount 0, identityEstablished false), once the user's first
    message has completed one AI turn the state has interactionCount = 1 and
    identityEstablished already true; once a second message's turn has
    completed, interactionCount = 2 and identityEstablished is still true.
    greetingCompleted is left as it was. *)
Theorem first_turn_establishes_identity E1 E2 c message1 message2 userId channelId
    s st cfg :
  no_faults E1 -> connect_ok E1 c = true -> completes (turn E1) = true ->
  no_faults E2 -> connect_ok E2 c = true -> completes (turn E2) = true ->
  characters (SM.firestore (stateManager s)) !! c = Some cfg ->
  fst (SM.getCharacterState E1 c (stateManager s)) = Some st ->
  interactionCount st = 0 ->
  identityEstablished st = false ->
  exists response1 s1 response2 s2 st1 st2,
    sendMessageToCharacter E1 c message1 userId channelId s = (Ok response1, s1) /\
    SM.stateCache (stateManager s1) !! c = Some st1 /\
    interactionCount st1 = 1 /\ identityEstablished st1 = true /\
    greetingCompleted st1 = greetingCompleted st /\
    sendMessageToCharacter E2 c message2 userId channelId s1 = (Ok response2, s2) /\
    SM.stateCache (stateManager s2) !! c = Some st2 /\
    interactionCount st2 = 2 /\ identityEstablished st2 = true /\
    greetingCompleted st2 = greetingCompleted st.
Proof.
  intros Hnf1 Hc1 Ht1 Hnf2 Hc2 Ht2 Hcfg Hst Hcount Hid.
  destruct (sendMessageToCharacter_completes E1 c message1 userId channelId s st cfg
              Hnf1 Hc1 Ht1 Hcfg Hst) as (response1 & s1 & Hrun1 & Hcache1 & Hch1).
  assert (Hst1 : fst (SM.getCharacterState E2 c (stateManager s1))
                 = Some (after_turn E1 st))
    by now rewrite (getCharacterState_cached _ _ _ _ Hcache1).
  rewrite <- Hch1 in Hcfg.
  destruct (sendMessageToCharacter_completes E2 c message2 userId channelId s1 _ cfg
              Hnf2 Hc2 Ht2 Hcfg Hst1) as (response2 & s2 & Hrun2 & Hcache2 & _).
  exists response1, s1, response2, s2, (after_turn E1 st),
    (after_turn E2 (after_turn E1 st)).
  assert (Ha1 : after_turn E1 st
                = SM.with_identityEstablished E1
                    (SM.with_counters 1 (now E1) (now E1) st)).
  { unfold after_turn, early. cbn. now rewrite Hcount, Hid. }
  rewrite Ha1 in *.
  repeat split; try assumption; try reflexivity.
Qed.

Lemma first_turn_establishes_identity_witness :
  exists response1 s1 st1,
    sendMessageToCharacter (Scenario.answering 1200 "Hi there") "c1" "Hello"
      (Some "u1") (Some "u1_c1_1700000000000") Scenario.service_greeted
      = (Ok response1, s1) /\
    SM.stateCache (stateManager s1) !! "c1" = Some st1 /\
    interactionCount st1 = 1 /\ identityEstablished st1 = true.
Proof.
  destruct (first_turn_establishes_identity
              (Scenario.answering 1200 "Hi there") (Scenario.answering 1300 "Again")
              "c1" "Hello" "And then?" (Some "u1") (Some "u1_c1_1700000000000")
              Scenario.service_greeted _ _
              ltac:(intros ? ? ?; reflexivity) eq_refl eq_refl
              ltac:(intros ? ? ?; reflexivity) eq_refl eq_refl
              eq_refl eq_refl eq_refl eq_refl)
    as (r1 & s1 & _ & _ & st1 & _ & H1 & H2 & H3 & H4 & _).
  exists r1, s1, st1. auto.
Defined.

(** C3 as stated fails: after the first completed turn of a freshly greeted
    character the count is 1 and the identity is established already. *)
Lemma identity_established_after_first_turn :
  (fun st => (interactionCount st, identityEstablished st, greetingCompleted st))
    <$> SM.stateCache (stateManager Scenario.service_greeted) !! "c1"
    = Some (0, false, true) /\
  fst (sendMessageToCharacter (Scenario.answering 1200 "Hi there") "c1" "Hello"
         (Some "u1") (Some "u1_c1_1700000000000") Scenario.service_greeted)
    = Ok "Hi there" /\
  (fun st => (interactionCount st, identityEstablished st))
    <$> SM.stateCache
          (stateManager
             (snd (sendMessageToCharacter (Scenario.answering 1200 "Hi there")
                     "c1" "Hello" (Some "u1") (Some "u1_c1_1700000000000")
                     Scenario.service_greeted))) !! "c1"
    = Some (1, true).
Proof. repeat split; vm_compute; reflexivity. Qed.

End TurnProperties.

(** ** The identity/greeting invariant *)
Section InvariantProperties.
Import CustomCharacterService Vocab.

Lemma AllStates_get P E c m :
  AllStates P m ->
  AllStates P (snd (SM.getCharacterState E c m)) /\
  (forall st, fst (SM.getCharacterState E c m) = Some st -> P c st).
Proof.
  intros [Hcache Hdoc]. unfold SM.getCharacterState.
  destruct (SM.stateCache m !! c) as [st0 |] eqn:Hc; cbn.
  - split; [split; assumption |]. intros st [= <-]. eauto.
  - destruct (fs_fails E FsGet "character_states" c); cbn;
      [split; [split; assumption | discriminate] |].
    destruct (character_states (SM.firestore m) !! c) as [st0 |] eqn:Hd; cbn;
      [| split; [split; assumption | discriminate]].
    split; [split |].
    + cbn. intros c' st. destruct (decide (c = c')) as [<- | Hne].
      * rewrite lookup_insert_eq. intros [= <-]. eauto.
      * rewrite lookup_insert_ne by assumption. eauto.
    + assumption.
    + intros st [= <-]. eauto.
Qed.

Lemma AllStates_insert P c st m :
  AllStates P m -> P c st ->
  AllStates P (SM.set_stateCache (insert c st)
                 (SM.set_firestore (set_character_states (insert c st)) m)).
Proof.
  intros [Hcache Hdoc] Hst. split; cbn; intros c' st';
    (destruct (decide (c = c')) as [<- | Hne];
     [rewrite lookup_insert_eq; intros [= <-]; assumption
     | rewrite lookup_insert_ne by assumption; eauto]).
Qed.

Lemma AllStates_alter P c st f m :
  AllStates P m -> P c st -> (forall d, P c d -> P c (f d)) ->
  AllStates P (SM.set_stateCache (insert c st)
                 (SM.set_firestore (set_character_states (alter f c)) m)).
Proof.
  intros [Hcache Hdoc] Hst Hf. split; cbn; intros c' st'.
  - destruct (decide (c = c')) as [<- | Hne];
      [rewrite lookup_insert_eq; intros [= <-]; assumption
      | rewrite lookup_insert_ne by assumption; eauto].
  - destruct (decide (c = c')) as [<- | Hne].
    + rewrite lookup_alter_eq.
      destruct (character_states (SM.firestore m) !! c) eqn:Hd; cbn;
        [| discriminate].
      intros [= <-]. eauto.
    + rewrite lookup_alter_ne by assumption. eauto.
Qed.

Lemma AllStates_flags P f m :
  AllStates P m -> AllStates P (SM.set_conversationFlags f m).
Proof. intros H. exact H. Qed.

Lemma AllStates_clear P c flag m :
  AllStates P m -> AllStates P (SM.clearConversationFlag c flag m).
Proof.
  intros H. unfold SM.clearConversationFlag.
  now destruct (SM.conversationFlags m !! c).
Qed.

Lemma AllStates_other_collections P f g h k m :
  AllStates P m ->
  AllStates P (SM.set_firestore
                 (fun db => mkFirestore (character_states db)
                              (f (character_interactions db)) (g (characters db))
                              (h (interactions db)) (k (user_metrics db))) m).
Proof. intros H. exact H. Qed.

(** The record updates and what they keep. *)
Lemma Good_counters R c n a b st :
  Good R c st -> Good R c (SM.with_counters n a b st).
Proof. intros H. exact H. Qed.

Lemma Good_greeting R E c st :
  Good R c st -> Good R c (SM.with_greetingCompleted E st).
Proof. intros _. split; intros _; reflexivity. Qed.

Lemma Good_identity R E c st :
  R c = true -> Good R c st -> Good R c (SM.with_identityEstablished E st).
Proof. intros HR [_ Hg]. split; [intros _; now apply Hg | exact Hg]. Qed.

Lemma Good_default R E c seed :
  R c = false -> seed_consistent seed = true ->
  Good R c (SM.defaultState E seed).
Proof.
  intros HR Hseed. split; [| rewrite HR; discriminate].
  unfold consistent, seed_consistent in *. cbn.
  destruct (seed_identityEstablished seed) as [[] |],
    (seed_greetingCompleted seed) as [[] |]; cbn in *; congruence.
Qed.

(** The operations of the state store. *)
Lemma updateGroup_Good R E c g m :
  AllStates (Good R) m -> AllStates (Good R) (snd (SM.updateGroup E c g m)).
Proof.
  intros H. unfold SM.updateGroup.
  destruct (AllStates_get _ E c m H) as [H0 Hst].
  destruct (SM.getCharacterState E c m) as [[st |] m0]; cbn in *; [| exact H0].
  destruct (fs_fails E FsSet "character_states" c); [exact H0 |].
  specialize (Hst st eq_refl). destruct Hst as [Hcons Hg].
  match goal with
  | |- AllStates _ (snd (_, if ?b then SM.setConversationFlag _ _ _ ?m1 else ?m1)) =>
      assert (H1 : AllStates (Good R) m1)
  end.
  { apply AllStates_insert; [exact H0 |]. split; [| exact Hg].
    unfold consistent in *. cbn.
    destruct (SM.isGroupChange st g); [discriminate | exact Hcons]. }
  cbn. destruct (SM.isGroupChange st g); exact H1.
Qed.

Lemma markGreetingCompleted_Good R E c m :
  AllStates (Good R) m ->
  AllStates (Good R) (snd (SM.markGreetingCompleted E c m)).
Proof.
  intros H. unfold SM.markGreetingCompleted, SM.update_doc.
  destruct (AllStates_get _ E c m H) as [H0 Hst].
  destruct (SM.getCharacterState E c m) as [[st |] m0]; cbn in *; [| exact H0].
  destruct (fs_fails E FsUpdate "character_states" c); [exact H0 |]. cbn.
  apply AllStates_alter; [exact H0 | |].
  - apply Good_greeting with (E := E). now apply Hst.
  - intros d Hd. now apply Good_greeting.
Qed.

Lemma markIdentityEstablished_Good R E c m :
  R c = true ->
  AllStates (Good R) m ->
  AllStates (Good R) (snd (SM.markIdentityEstablished E c m)).
Proof.
  intros HR H. unfold SM.markIdentityEstablished, SM.update_doc.
  destruct (AllStates_get _ E c m H) as [H0 Hst].
  destruct (SM.getCharacterState E c m) as [[st |] m0]; cbn in *; [| exact H0].
  destruct (fs_fails E FsUpdate "character_states" c); [exact H0 |]. cbn.
  apply AllStates_alter; [exact H0 | |].
  - apply Good_identity; [exact HR | now apply Hst].
  - intros d Hd. now apply Good_identity.
Qed.

Lemma logInteraction_Good R E c i m :
  AllStates (Good R) m -> AllStates (Good R) (snd (SM.logInteraction E c i m)).
Proof.
  intros H. unfold SM.logInteraction, SM.add_interaction, SM.update_doc.
  destruct (AllStates_get _ E c m H) as [H0 Hst].
  destruct (SM.getCharacterState E c m) as [[st |] m0]; cbn in *; [| exact H0].
  destruct (fs_fails E FsAdd "character_interactions" c); [exact H0 |]. cbn.
  destruct (fs_fails E FsUpdate "character_states" c); [exact H0 |]. cbn.
  apply AllStates_alter; [exact H0 | |].
  - apply Good_counters. now apply Hst.
  - intros d Hd. now apply Good_counters.
Qed.

Lemma getEnhancedSystemInstructions_Good P E c base m :
  AllStates P m ->
  AllStates P (snd (SM.getEnhancedSystemInstructions E c base m)).
Proof.
  intros H. unfold SM.getEnhancedSystemInstructions.
  destruct (AllStates_get _ E c m H) as [H0 _].
  destruct (SM.getCharacterState E c m) as [[st |] m0]; cbn in *; [| exact H0].
  destruct (default false (SM.getConversationFlag c "resetRequired" m0));
    [now apply AllStates_clear | exact H0].
Qed.

Lemma initializeCharacter_Good R E c seed m :
  R c = false -> seed_consistent seed = true ->
  AllStates (Good R) m ->
  AllStates (Good R) (snd (SM.initializeCharacter E c seed m)).
Proof.
  intros HR Hseed H. unfold SM.initializeCharacter.
  destruct (AllStates_get _ E c m H) as [H0 _].
  destruct (SM.getCharacterState E c m) as [[st |] m0]; cbn in *; [exact H0 |].
  destruct (fs_fails E FsSet "character_states" c); [exact H0 |]. cbn.
  apply AllStates_insert; [exact H0 | now apply Good_default].
Qed.

(** The operations of the session service. *)

Lemma getCharacter_AllStates P E c s :
  AllStates P (stateManager s) ->
  AllStates P (stateManager (snd (getCharacter E c s))).
Proof.
  intros H. unfold getCharacter.
  destruct (characterClients s !! c); [exact H |].
  destruct (get_character_doc E c s); [| exact H].
  rewrite !on_manager_eq. cbn.
  apply getEnhancedSystemInstructions_Good. now apply AllStates_get.
Qed.

Lemma getCharacter_listeners E c s :
  listeners c (snd (getCharacter E c s)) = listeners c s.
Proof.
  unfold getCharacter, listeners.
  destruct (characterClients s !! c) eqn:Hcl; cbn; [now rewrite Hcl |].
  destruct (get_character_doc E c s); cbn; [| now rewrite Hcl].
  rewrite !on_manager_eq. cbn. now rewrite lookup_insert_eq.
Qed.

Lemma identityCheck_Good R E c s :
  R c = true -> GoodS R s -> GoodS R (identityCheck E c s).
Proof.
  intros HR H. unfold identityCheck, GoodS in *.
  rewrite on_manager_eq.
  destruct (AllStates_get _ E c _ H) as [H0 _].
  destruct (fst (SM.getCharacterState E c (stateManager s))) as [st |];
    [| exact H0].
  destruct ((interactionCount st <=? 2) && negb (identityEstablished st));
    [| exact H0].
  rewrite on_manager_snd. cbn. now apply markIdentityEstablished_Good.
Qed.

Lemma identityCheck_iter_Good R E c n s :
  R c = true -> GoodS R s -> GoodS R (Nat.iter n (identityCheck E c) s).
Proof.
  intros HR H. induction n as [| n IH]; [exact H |].
  rewrite Nat.iter_succ. now apply identityCheck_Good.
Qed.

Lemma emitComplete_Good R E c s :
  R c = true \/ listeners c s = 0%nat ->
  GoodS R s -> GoodS R (emitComplete E c s).
Proof.
  intros [HR | Hzero] H; unfold emitComplete.
  - now apply identityCheck_iter_Good.
  - rewrite Hzero. exact H.
Qed.

Lemma write_back_Good R E c fields state s :
  GoodS R s -> Good R c (fields state) ->
  (forall d, Good R c d -> Good R c (fields d)) ->
  GoodS R (write_back E c fields state s).
Proof.
  intros H Hst Hf. unfold GoodS.
  destruct (write_back_fields E c fields state s) as (_ & _ & ->).
  destruct (fs_fails E FsUpdate "character_states" c); [exact H |].
  now apply AllStates_alter.
Qed.

Lemma write_back_identity_Good R E c state n s :
  R c = true \/ n = 0%nat ->
  GoodS R s -> Good R c state ->
  GoodS R (Nat.iter n (write_back E c (SM.with_identityEstablished E) state) s).
Proof.
  intros [HR | ->] H Hst; [| exact H].
  induction n as [| n IH]; [exact H |].
  rewrite Nat.iter_succ. apply write_back_Good; [exact IH | |].
  - now apply Good_identity.
  - intros d Hd. now apply Good_identity.
Qed.

Lemma emitCompleteGreeting_Good R E c s :
  R c = true \/ listeners c s = 0%nat ->
  GoodS R s -> GoodS R (emitCompleteGreeting E c s).
Proof.
  intros Hc H. unfold emitCompleteGreeting. rewrite on_manager_eq.
  destruct (AllStates_get _ E c _ H) as [H0 Hst].
  destruct (fst (SM.getCharacterState E c (stateManager s))) as [st |];
    [| exact H0].
  specialize (Hst st eq_refl).
  apply write_back_identity_Good; [| | exact Hst].
  - destruct Hc as [HR | Hzero]; [now left | right].
    destruct ((interactionCount st <=? 2) && negb (identityEstablished st));
      [exact Hzero | reflexivity].
  - apply write_back_Good; [exact H0 | |].
    + now apply Good_greeting.
    + intros d Hd. now apply Good_greeting.
Qed.

Lemma await_greeting_Good R E c events s :
  R c = true \/ listeners c s = 0%nat ->
  GoodS R s -> GoodS R (snd (await_greeting E c events s)).
Proof.
  intros Hc H. induction events as [| ev events IH]; [exact H |].
  destruct ev; cbn [await_greeting snd]; try exact IH.
  now apply emitCompleteGreeting_Good.
Qed.

Lemma await_response_Good R E c events : forall fullText s,
  R c = true -> GoodS R s -> GoodS R (snd (await_response E c events fullText s)).
Proof.
  induction events as [| ev events IH]; intros fullText s HR H; [exact H |].
  destruct ev; cbn; [now apply IH | | exact H].
  apply emitComplete_Good; auto.
Qed.

Lemma connect_manager E c s :
  stateManager (snd (connect E c s)) = stateManager s.
Proof. unfold connect. now destruct (connect_ok E c). Qed.

Lemma connect_listeners E c s :
  listeners c (snd (connect E c s)) = listeners c s.
Proof.
  unfold connect, listeners. destruct (connect_ok E c); cbn; [| reflexivity].
  rewrite lookup_alter_eq. now destruct (characterClients s !! c).
Qed.

Lemma initializeCharacterSession_Good R E c force s :
  R c = true \/ listeners c s = 0%nat ->
  GoodS R s -> GoodS R (snd (initializeCharacterSession E c force s)).
Proof.
  intros Hc H. unfold initializeCharacterSession.
  pose proof (getCharacter_AllStates _ E c s H) as Ha.
  pose proof (getCharacter_listeners E c s) as Hl.
  destruct (getCharacter E c s) as [[cfg | e] sa]; cbn in Ha, Hl; [| exact Ha].
  rewrite on_manager_eq.
  destruct (AllStates_get _ E c _ Ha) as [Hb _].
  set (sb := set_stateManager _ sa).
  assert (Hgb : GoodS R sb) by exact Hb.
  assert (Hlb : listeners c sb = listeners c s) by exact Hl.
  destruct (match fst (SM.getCharacterState E c (stateManager sa)) with
            | Some state => greetingCompleted state && negb force
            | None => false
            end); [exact Hgb |].
  pose proof (connect_manager E c sb) as Hm.
  pose proof (connect_listeners E c sb) as Hlc.
  destruct (connect E c sb) as [[[] | e] sc]; cbn in Hm, Hlc.
  - apply await_greeting_Good.
    + destruct Hc as [HR | Hzero]; [now left | right].
      unfold send, call, listeners in *. cbn. congruence.
    + unfold GoodS, send, call. cbn. now rewrite Hm.
  - unfold GoodS. cbn. now rewrite Hm.
Qed.

Lemma sendMessageToCharacter_Good R E c message u ch s :
  R c = true -> GoodS R s ->
  GoodS R (snd (sendMessageToCharacter E c message u ch s)).
Proof.
  intros HR H. unfold sendMessageToCharacter.
  pose proof (getCharacter_AllStates _ E c s H) as Ha.
  destruct (getCharacter E c s) as [[cfg | e] sa]; cbn in Ha; [| exact Ha].
  rewrite on_manager_eq.
  set (sb := set_stateManager _ sa).
  assert (Hgb : GoodS R sb) by (apply logInteraction_Good; exact Ha).
  assert (Hconn : forall r sc,
            (if is_connected c sb then (Ok tt, sb) else connect E c sb) = (r, sc) ->
            stateManager sc = stateManager sb).
  { intros r sc. destruct (is_connected c sb); [now intros [= _ <-] |].
    intros Heq. pose proof (connect_manager E c sb) as Hm.
    now rewrite Heq in Hm. }
  destruct (if is_connected c sb then (Ok tt, sb) else connect E c sb)
    as [[[] | e] sc] eqn:Heq; specialize (Hconn _ _ eq_refl).
  - apply await_response_Good; [exact HR |].
    unfold GoodS, add_listener, send, call. cbn. now rewrite Hconn.
  - unfold GoodS. cbn. now rewrite Hconn.
Qed.

Lemma updateCharacterGroup_Good R E c g s :
  GoodS R s -> GoodS R (snd (updateCharacterGroup E c g s)).
Proof.
  intros H. unfold updateCharacterGroup. rewrite on_manager_eq.
  pose proof (updateGroup_Good R E c g _ H) as Hu.
  destruct (fst (SM.updateGroup E c g (stateManager s))); [| exact Hu].
  destruct (fs_fails E FsUpdate "characters" c); [exact Hu |].
  match goal with
  | |- context [getCharacter E c ?s1] => set (sa := s1)
  end.
  assert (Ha : GoodS R sa) by exact Hu.
  destruct (characterClients sa !! c); [| exact Ha].
  pose proof (getCharacter_AllStates _ E c sa Ha) as Hb.
  destruct (getCharacter E c sa) as [[cfg | e] sb]; exact Hb.
Qed.

Lemma createCharacter_Good template R E c cfg s :
  R c = false ->
  GoodS R s -> GoodS R (snd (createCharacter template E c cfg s)).
Proof.
  intros HR H. unfold createCharacter.
  destruct (negb (SM.truthy_string c) || negb (SM.truthy_string (cfg_name cfg)));
    [exact H |].
  rewrite on_manager_eq.
  match goal with
  | |- context [SM.initializeCharacter E c ?seed _] =>
      pose proof (initializeCharacter_Good R E c seed _ HR eq_refl H) as Hi
  end.
  destruct (fst (SM.initializeCharacter E c _ (stateManager s))); [| exact Hi].
  destruct (fs_fails E FsSet "characters" c); exact Hi.
Qed.

Lemma deleteCharacter_Good R E c s :
  GoodS R s -> GoodS R (snd (deleteCharacter E c s)).
Proof.
  intros H. unfold deleteCharacter.
  destruct (characterClients s !! c);
    destruct (fs_fails E FsDelete "characters" c); exact H.
Qed.

Lemma Invariant_GoodS s : Invariant s <-> GoodS (fun _ => false) s.
Proof.
  unfold Invariant, GoodS, AllStates, Good. split.
  - intros [H1 H2]. split; intros c st Hst; (split; [eauto | discriminate]).
  - intros [H1 H2]. split; intros c st Hst; [apply (H1 c st Hst) | apply (H2 c st Hst)].
Qed.

Lemma GoodS_Invariant R s : GoodS R s -> Invariant s.
Proof.
  unfold Invariant, GoodS, AllStates, Good.
  intros [H1 H2]. split; intros c st Hst; [apply (H1 c st Hst) | apply (H2 c st Hst)].
Qed.

Lemma greeted_GoodS c s :
  Invariant s -> greeted c s = true ->
  GoodS (fun c' => bool_decide (c' = c)) s.
Proof.
  unfold Invariant, GoodS, AllStates, Good, greeted.
  intros [H1 H2] Hg. apply andb_true_iff in Hg as [Hg1 Hg2].
  split; intros c' st Hst; (split; [eauto |]); intros Hc;
    apply bool_decide_eq_true in Hc; subst c'; rewrite Hst in *; assumption.
Qed.

Lemma perform_Invariant template E op s :
  Invariant s -> guard op s = true -> Invariant (perform template E op s).
Proof.
  intros Hinv Hguard.
  pose proof (proj1 (Invariant_GoodS s) Hinv) as H0.
  destruct op; cbn [perform guard] in *; try rewrite on_manager_snd.
  - apply Invariant_GoodS. now apply AllStates_get.
  - apply Invariant_GoodS. now apply initializeCharacter_Good.
  - apply Invariant_GoodS. now apply updateGroup_Good.
  - apply Invariant_GoodS. now apply markGreetingCompleted_Good.
  - apply (GoodS_Invariant (fun c' => bool_decide (c' = c))).
    apply markIdentityEstablished_Good; [now apply bool_decide_eq_true |].
    now apply greeted_GoodS.
  - apply Invariant_GoodS. now apply logInteraction_Good.
  - apply Invariant_GoodS. now apply getEnhancedSystemInstructions_Good.
  - apply Invariant_GoodS. now apply createCharacter_Good.
  - apply Invariant_GoodS. now apply getCharacter_AllStates.
  - apply Invariant_GoodS. now apply updateCharacterGroup_Good.
  - apply orb_true_iff in Hguard as [Hg | Hzero].
    + apply (GoodS_Invariant (fun c' => bool_decide (c' = c))).
      apply initializeCharacterSession_Good;
        [left; now apply bool_decide_eq_true | now apply greeted_GoodS].
    + apply Invariant_GoodS. apply initializeCharacterSession_Good; [| exact H0].
      right. now apply Nat.eqb_eq.
  - apply (GoodS_Invariant (fun c' => bool_decide (c' = c))).
    apply sendMessageToCharacter_Good; [now apply bool_decide_eq_true |].
    now apply greeted_GoodS.
  - apply Invariant_GoodS. now apply deleteCharacter_Good.
Qed.

Lemma Invariant_fresh_empty : Invariant (fresh empty_db).
Proof. split; intros c st; cbn; rewrite lookup_empty; discriminate. Qed.

(** C4, amended.  The code does not tie identityEstablished to
    greetingCompleted; the implication holds along the runs that respect
    the order of the protocol.  Starting from a service whose states
    satisfy it (the empty service, or default states), after any sequence
    of state-store and session-service operations in which the identity of
    a character is marked ([markIdentityEstablished], a message turn, or
    the listeners a message turn left behind firing during a greeting) only
    when every copy of its state has greetingCompleted = true, and in which
    no seed sets identityEstablished without greetingCompleted, every state
    with identityEstablished = true has greetingCompleted = true. *)
Theorem identity_implies_greeting_in_order template trace s :
  Invariant s ->
  guarded template trace s = true ->
  Invariant (run template trace s).
Proof.
  revert s. induction trace as [| [E op] trace IH]; intros s Hinv Hg; [exact Hinv |].
  cbn [run guarded] in *. apply andb_true_iff in Hg as [Hop Hrest].
  apply IH; [now apply perform_Invariant | exact Hrest].
Qed.

Lemma identity_implies_greeting_in_order_witness :
  exists st,
    SM.stateCache
      (stateManager (run Scenario.instructions_of Scenario.greeted_conversation
                       (fresh empty_db))) !! "c1" = Some st /\
    identityEstablished st = true /\
    greetingCompleted st = true.
Proof.
  assert (Hguard : guarded Scenario.instructions_of Scenario.greeted_conversation
                     (fresh empty_db) = true) by (vm_compute; reflexivity).
  pose proof (proj1 (identity_implies_greeting_in_order Scenario.instructions_of
                       Scenario.greeted_conversation (fresh empty_db)
                       Invariant_fresh_empty Hguard) "c1") as H.
  eexists. split; [vm_compute; reflexivity |]. split; [reflexivity |].
  eapply H; [vm_compute; reflexivity | reflexivity].
Defined.

(** C4 as stated fails: a message turn on a character that was created but
    never greeted leaves identityEstablished = true with greetingCompleted
    = false. *)
Lemma identity_established_before_greeting :
  (fun st => (identityEstablished st, greetingCompleted st, interactionCount st))
    <$> SM.stateCache
          (stateManager (run Scenario.instructions_of Scenario.ungreeted_conversation
                           (fresh empty_db))) !! "c1"
    = Some (true, false, 1).
Proof. vm_compute. reflexivity. Qed.

End InvariantProperties.

(** ** Message orchestrator *)
Section OrchestratorProperties.
Import GetStreamIntegration Vocab.

(** *** The [characters] collection is left alone by message turns *)

#[local] Abbreviation characters_of s := (characters (SM.firestore (CS.stateManager s))).

Lemma getCharacterState_characters E c m :
  characters (SM.firestore (snd (SM.getCharacterState E c m)))
    = characters (SM.firestore m).
Proof. now rewrite getCharacterState_store. Qed.

Lemma logInteraction_characters E c i m :
  characters (SM.firestore (snd (SM.logInteraction E c i m)))
    = characters (SM.firestore m).
Proof.
  unfold SM.logInteraction, SM.add_interaction, SM.update_doc.
  pose proof (getCharacterState_store E c m) as Hdb.
  destruct (SM.getCharacterState E c m) as [[st |] m0]; cbn in *;
    [| now rewrite Hdb].
  destruct (fs_fails E FsAdd "character_interactions" c); cbn; [now rewrite Hdb |].
  destruct (fs_fails E FsUpdate "character_states" c); cbn; now rewrite Hdb.
Qed.

Lemma markIdentityEstablished_characters E c m :
  characters (SM.firestore (snd (SM.markIdentityEstablished E c m)))
    = characters (SM.firestore m).
Proof.
  unfold SM.markIdentityEstablished, SM.update_doc.
  pose proof (getCharacterState_store E c m) as Hdb.
  destruct (SM.getCharacterState E c m) as [[st |] m0]; cbn in *;
    [| now rewrite Hdb].
  destruct (fs_fails E FsUpdate "character_states" c); cbn; now rewrite Hdb.
Qed.

Lemma identityCheck_characters E c s :
  characters_of (CS.identityCheck E c s) = characters_of s.
Proof.
  unfold CS.identityCheck. rewrite on_manager_eq.
  destruct (fst (SM.getCharacterState E c (CS.stateManager s))) as [st |]; cbn;
    [| apply getCharacterState_characters].
  destruct ((interactionCount st <=? 2) && negb (identityEstablished st)); cbn;
    [| apply getCharacterState_characters].
  rewrite on_manager_snd. cbn.
  now rewrite markIdentityEstablished_characters, getCharacterState_characters.
Qed.

Lemma emitComplete_characters E c s :
  characters_of (CS.emitComplete E c s) = characters_of s.
Proof.
  unfold CS.emitComplete. generalize (CS.listeners c s). intros n.
  induction n as [| n IH]; [reflexivity |].
  rewrite Nat.iter_succ. now rewrite identityCheck_characters.
Qed.

Lemma get_character_doc_characters E c s s' :
  characters_of s' = characters_of s ->
  CS.get_character_doc E c s' = CS.get_character_doc E c s.
Proof. intros H. unfold CS.get_character_doc. now rewrite H. Qed.

(** A message turn answers when the character's document can be read, the
    client connects and the backend completes its turn, whatever happens
    to the state store. *)
Lemma sendMessageToCharacter_answers E c message u ch s cfg :
  CS.get_character_doc E c s = Ok cfg ->
  connect_ok E c = true ->
  completes (turn E) = true ->
  exists response s',
    CS.sendMessageToCharacter E c message u ch s = (Ok response, s') /\
    characters_of s' = characters_of s.
Proof.
  intros Hdoc Hconn Hturn.
  destruct (getCharacter_ok _ _ _ _ Hdoc) as (Hfst & _).
  pose proof (getCharacter_store E c s) as Hdb.
  unfold CS.sendMessageToCharacter.
  destruct (CS.getCharacter E c s) as [r sa]. cbn in Hfst, Hdb. subst r.
  rewrite on_manager_eq.
  set (sb := CS.set_stateManager _ sa).
  assert (Hchb : characters_of sb = characters_of s).
  { subst sb. cbn. now rewrite logInteraction_characters, Hdb. }
  assert (Hconnect : exists sc,
    (if CS.is_connected c sb then (Ok tt, sb) else CS.connect E c sb) = (Ok tt, sc) /\
    CS.stateManager sc = CS.stateManager sb).
  { destruct (CS.is_connected c sb); [eauto |].
    unfold CS.connect. rewrite Hconn. eauto. }
  destruct Hconnect as (sc & -> & Hmc).
  set (sd := CS.add_listener c (CS.send c message false sc)).
  destruct (await_response_completes E c (turn E) "" sd Hturn) as (response & ->).
  exists response, (CS.emitComplete E c sd). split; [reflexivity |].
  rewrite emitComplete_characters. subst sd. cbn. now rewrite Hmc.
Qed.

(** *** The set of processed ids *)

Lemma set_add_elem x ids : x ∈ set_add x ids.
Proof.
  unfold set_add. case_bool_decide; [assumption |].
  apply elem_of_app. right. apply list_elem_of_singleton. reflexivity.
Qed.

Lemma set_add_keeps x y ids : x ∈ ids -> x ∈ set_add y ids.
Proof.
  intros H. unfold set_add. case_bool_decide; [assumption |].
  apply elem_of_app. now left.
Qed.

(** The id that was just added survives the trim: it is the newest. *)
Lemma trim_keeps_new x ids : x ∉ ids -> x ∈ trim (set_add x ids).
Proof.
  intros Hnew. unfold set_add. rewrite bool_decide_eq_false_2 by assumption.
  unfold trim. destruct (1000 <? length (ids ++ [x]))%nat eqn:Hlen.
  - rewrite length_app. cbn [length].
    rewrite drop_app_le by lia.
    apply elem_of_app. right. apply list_elem_of_singleton. reflexivity.
  - apply elem_of_app. right. apply list_elem_of_singleton. reflexivity.
Qed.

Lemma on_service_eq {A} (op : CS.t -> A * CS.t) o :
  on_service op o =
    (fst (op (characterService o)),
     set_characterService (fun _ => snd (op (characterService o))) o).
Proof. unfold on_service. now destruct (op (characterService o)). Qed.

Lemma sendMessageAsCharacter_processed E ch c text o x :
  x ∈ processedMessageIds o ->
  x ∈ processedMessageIds (snd (sendMessageAsCharacter E ch c text o)).
Proof.
  intros H. unfold sendMessageAsCharacter. rewrite on_service_eq.
  destruct (fst (CS.getCharacter E c (characterService o))); [| exact H].
  destruct (transport_send E ch c text); [| exact H].
  cbn. now apply set_add_keeps.
Qed.

Lemma sendErrorMessage_processed E ch c o x :
  x ∈ processedMessageIds o ->
  x ∈ processedMessageIds (sendErrorMessage E ch c o).
Proof.
  intros H. unfold sendErrorMessage. rewrite on_service_eq.
  cbn [orchestratorId set_characterService].
  destruct (transport_send E ch (orchestratorId o) _); [| exact H].
  cbn. now apply set_add_keeps.
Qed.

Lemma sendMessageAsCharacter_orchestrator E ch c text o :
  orchestratorId (snd (sendMessageAsCharacter E ch c text o)) = orchestratorId o.
Proof.
  unfold sendMessageAsCharacter. rewrite on_service_eq.
  destruct (fst (CS.getCharacter E c (characterService o))); [| reflexivity].
  now destruct (transport_send E ch c text).
Qed.

Lemma reply_processed depth reflection E msg u ch c o x :
  x ∈ processedMessageIds o ->
  x ∈ processedMessageIds (snd (reply depth reflection E msg u ch c o)).
Proof.
  intros H. unfold reply. rewrite on_service_eq.
  destruct (fst (CS.getCharacter E c (characterService o))); [| exact H].
  rewrite on_service_eq.
  match goal with
  | |- context [CS.sendMessageToCharacter E c ?t ?a ?b ?s] =>
      destruct (fst (CS.sendMessageToCharacter E c t a b s)) as [response |]
  end; [| exact H].
  match goal with
  | |- context [sendMessageAsCharacter E ch c response ?o1] =>
      pose proof (sendMessageAsCharacter_processed E ch c response o1 x H) as Hs;
      destruct (sendMessageAsCharacter E ch c response o1) as [[id |] o2]
  end; cbn in Hs; [| exact Hs].
  unfold storeInteraction.
  destruct (fs_fails E FsAdd "interactions" u); destruct (callback_ok E); exact Hs.
Qed.

Lemma processCharacterMessage_processed depth reflection E msg u ch c o x :
  x ∈ processedMessageIds o ->
  x ∈ processedMessageIds (processCharacterMessage depth reflection E msg u ch c o).
Proof.
  intros H. unfold processCharacterMessage.
  destruct (negb (SM.truthy_string (msg_text msg)) || Str.is_blank (msg_text msg));
    [exact H |].
  pose proof (reply_processed depth reflection E msg u ch c o x H) as Hr.
  destruct (reply depth reflection E msg u ch c o) as [[[] |] o1]; cbn in Hr;
    [exact Hr |].
  now apply sendErrorMessage_processed.
Qed.

(** An event that passes the three tests has its id in the set when the
    handler is done, whatever path the handler took. *)
Lemma handleIncomingMessage_marks depth reflection E event o msg :
  message event = Some msg ->
  set_has (msg_id msg) (processedMessageIds o) = false ->
  String.eqb (msg_user msg) (orchestratorId o) = false ->
  msg_id msg ∈ processedMessageIds (handleIncomingMessage depth reflection E event o).
Proof.
  intros Hmsg Hnew Hother. unfold handleIncomingMessage.
  rewrite Hmsg, Hnew, Hother. cbn [orb].
  set (o1 := set_processedMessageIds trim
               (set_processedMessageIds (set_add (msg_id msg)) o)).
  assert (H1 : msg_id msg ∈ processedMessageIds o1).
  { subst o1. cbn. apply trim_keeps_new.
    unfold set_has in Hnew. now apply bool_decide_eq_false in Hnew. }
  destruct (channel_id_of event) as [ch |]; [| exact H1].
  assert (H2 : forall b o2,
            (if bool_decide (ch ∈ activeChannels o1) then (true, o1)
             else if watch_ok E ch
                  then (true, set_activeChannels (fun cs => {[ch]} ∪ cs) o1)
                  else (false, o1)) = (b, o2) ->
            msg_id msg ∈ processedMessageIds o2).
  { intros b o2.
    destruct (bool_decide (ch ∈ activeChannels o1)); [now intros [= _ <-] |].
    destruct (watch_ok E ch); now intros [= _ <-]. }
  destruct (if bool_decide (ch ∈ activeChannels o1) then (true, o1)
            else if watch_ok E ch
                 then (true, set_activeChannels (fun cs => {[ch]} ∪ cs) o1)
                 else (false, o1)) as [found o2] eqn:Heq.
  specialize (H2 _ _ eq_refl).
  destruct found; cbn [negb]; [| exact H2].
  destruct (characterId (parseChannelId ch)) as [c |]; [| exact H2].
  destruct (userId (parseChannelId ch)) as [u |]; [| exact H2].
  destruct (negb (SM.truthy_string c)); [exact H2 |].
  apply processCharacterMessage_processed.
  now destruct (channelToCharacterMap o2 !! ch).
Qed.

(** C1, first part: a second delivery of an event changes nothing, and an
    event authored by the orchestrator is never processed. *)
Lemma handleIncomingMessage_replay depth reflection E1 E2 event o :
  handleIncomingMessage depth reflection E2 event
    (handleIncomingMessage depth reflection E1 event o)
  = handleIncomingMessage depth reflection E1 event o.
Proof.
  destruct (message event) as [msg |] eqn:Hmsg;
    [| unfold handleIncomingMessage; now rewrite Hmsg].
  destruct (set_has (msg_id msg) (processedMessageIds o)
            || String.eqb (msg_user msg) (orchestratorId o)) eqn:Hguard.
  - assert (Hid : forall E, handleIncomingMessage depth reflection E event o = o)
      by (intros E; unfold handleIncomingMessage; now rewrite Hmsg, Hguard).
    now rewrite !Hid.
  - apply orb_false_iff in Hguard as [Hnew Hother].
    pose proof (handleIncomingMessage_marks depth reflection E1 event o msg
                  Hmsg Hnew Hother) as Hin.
    set (o1 := handleIncomingMessage depth reflection E1 event o) in *.
    unfold handleIncomingMessage at 1. rewrite Hmsg.
    unfold set_has. now rewrite bool_decide_eq_true_2.
Qed.

Lemma handleIncomingMessage_own depth reflection E event o msg :
  message event = Some msg ->
  msg_user msg = orchestratorId o ->
  handleIncomingMessage depth reflection E event o = o.
Proof.
  intros Hmsg Hown. unfold handleIncomingMessage.
  rewrite Hmsg, Hown, String.eqb_refl, orb_true_r. reflexivity.
Qed.

(** *** The reply of a successful turn *)

Lemma reply_succeeds depth reflection E msg u ch c o cfg :
  CS.get_character_doc E c (characterService o) = Ok cfg ->
  connect_ok E c = true ->
  completes (turn E) = true ->
  (forall text, is_Some (transport_send E ch c text)) ->
  callback_ok E = true ->
  exists response id o',
    reply depth reflection E msg u ch c o = (Ok tt, o') /\
    sent o' = (sent o ++ [mkSentMessage ch c response id])%list.
Proof.
  intros Hdoc Hconn Hturn Hsend Hcb. unfold reply.
  rewrite on_service_eq.
  destruct (getCharacter_ok _ _ _ _ Hdoc) as (-> & _).
  pose proof (getCharacter_store E c (characterService o)) as Hdb.
  set (oa := set_characterService _ o).
  set (ob := update_metrics depth reflection E u (msg_text msg) oa).
  assert (Hchb : characters_of (characterService ob) = characters_of (characterService o)).
  { subst ob oa. cbn. now rewrite Hdb. }
  assert (Hdocb : CS.get_character_doc E c (characterService ob) = Ok cfg)
    by exact (eq_trans (get_character_doc_characters E c _ _ Hchb) Hdoc).
  rewrite on_service_eq.
  destruct (sendMessageToCharacter_answers E c (msg_text msg) (Some u) (Some ch)
              (characterService ob) cfg Hdocb Hconn Hturn)
    as (response & sc & Hrun & Hchc).
  rewrite Hrun. cbn [fst snd].
  set (oc := set_characterService (fun _ => sc) ob).
  assert (Hchc' : characters_of (characterService oc) = characters_of (characterService o))
    by (subst oc; cbn; now rewrite Hchc).
  assert (Hdocc : CS.get_character_doc E c (characterService oc) = Ok cfg)
    by exact (eq_trans (get_character_doc_characters E c _ _ Hchc') Hdoc).
  unfold sendMessageAsCharacter. rewrite on_service_eq.
  destruct (getCharacter_ok _ _ _ _ Hdocc) as (-> & _).
  destruct (Hsend response) as [id ->].
  unfold storeInteraction.
  exists response, id.
  destruct (fs_fails E FsAdd "interactions" u); rewrite Hcb;
    eexists; (split; [reflexivity |]); reflexivity.
Qed.

Lemma handleIncomingMessage_replies depth reflection E event o msg ch u c ts cfg :
  message event = Some msg ->
  set_has (msg_id msg) (processedMessageIds o) = false ->
  msg_user msg <> orchestratorId o ->
  channel_id_of event = Some ch ->
  ch ∈ activeChannels o \/ watch_ok E ch = true ->
  parseChannelId ch = mkChannelMeta (Some u) (Some c) ts ->
  SM.truthy_string c = true ->
  SM.truthy_string (msg_text msg) = true ->
  Str.is_blank (msg_text msg) = false ->
  CS.get_character_doc E c (characterService o) = Ok cfg ->
  connect_ok E c = true ->
  completes (turn E) = true ->
  (forall text, is_Some (transport_send E ch c text)) ->
  callback_ok E = true ->
  exists response id,
    sent (handleIncomingMessage depth reflection E event o)
      = (sent o ++ [mkSentMessage ch c response id])%list.
Proof.
  intros Hmsg Hnew Hother Hch Hactive Hparse Hc Htext Hblank Hdoc Hconn Hturn
    Hsend Hcb.
  unfold handleIncomingMessage. rewrite Hmsg, Hnew, Hch.
  apply String.eqb_neq in Hother. rewrite Hother. cbn [orb].
  set (o1 := set_processedMessageIds trim
               (set_processedMessageIds (set_add (msg_id msg)) o)).
  assert (Hfound : exists o2,
            (if bool_decide (ch ∈ activeChannels o1) then (true, o1)
             else if watch_ok E ch
                  then (true, set_activeChannels (fun cs => {[ch]} ∪ cs) o1)
                  else (false, o1)) = (true, o2) /\
            characterService o2 = characterService o /\ sent o2 = sent o).
  { case_bool_decide as Hin; [exists o1; auto |].
    destruct Hactive as [Hin' | ->]; [contradiction | eauto]. }
  destruct Hfound as (o2 & -> & Hs2 & Hsent2).
  cbn [negb]. rewrite Hparse. cbn [characterId userId]. rewrite Hc. cbn [negb].
  set (o3 := match channelToCharacterMap o2 !! ch with
             | Some _ => o2
             | None => set_channelToCharacterMap (insert ch c) o2
             end).
  assert (Hs3 : characterService o3 = characterService o /\ sent o3 = sent o)
    by (subst o3; destruct (channelToCharacterMap o2 !! ch); auto).
  destruct Hs3 as [Hs3 Hsent3].
  unfold processCharacterMessage. rewrite Htext, Hblank. cbn [negb orb].
  rewrite <- Hs3 in Hdoc.
  destruct (reply_succeeds depth reflection E msg u ch c o3 cfg Hdoc Hconn Hturn
              Hsend Hcb) as (response & id & o' & -> & Hsent').
  exists response, id. now rewrite Hsent', Hsent3.
Qed.

(** The set is a window: an id stays in it while no trim drops it, and no
    trim happens while the set has room; as long as the id is there, the
    event is skipped. *)
Lemma trim_room ids : (length ids <= 1000)%nat -> trim ids = ids.
Proof.
  intros H. unfold trim.
  destruct (Nat.ltb_spec 1000 (length ids)); [lia | reflexivity].
Qed.

Lemma handleIncomingMessage_remembers depth reflection E event o x :
  x ∈ processedMessageIds o ->
  (length (processedMessageIds o) < 1000)%nat ->
  x ∈ processedMessageIds (handleIncomingMessage depth reflection E event o).
Proof.
  intros Hin Hroom. unfold handleIncomingMessage.
  destruct (message event) as [msg |]; [| exact Hin].
  destruct (set_has (msg_id msg) (processedMessageIds o)
            || String.eqb (msg_user msg) (orchestratorId o)); [exact Hin |].
  set (o1 := set_processedMessageIds trim
               (set_processedMessageIds (set_add (msg_id msg)) o)).
  assert (H1 : x ∈ processedMessageIds o1).
  { subst o1. cbn. rewrite trim_room; [now apply set_add_keeps |].
    unfold set_add. case_bool_decide; [lia |].
    rewrite length_app. cbn. lia. }
  destruct (channel_id_of event) as [ch |]; [| exact H1].
  assert (H2 : forall b o2,
            (if bool_decide (ch ∈ activeChannels o1) then (true, o1)
             else if watch_ok E ch
                  then (true, set_activeChannels (fun cs => {[ch]} ∪ cs) o1)
                  else (false, o1)) = (b, o2) ->
            x ∈ processedMessageIds o2).
  { intros b o2.
    destruct (bool_decide (ch ∈ activeChannels o1)); [now intros [= _ <-] |].
    destruct (watch_ok E ch); now intros [= _ <-]. }
  destruct (if bool_decide (ch ∈ activeChannels o1) then (true, o1)
            else if watch_ok E ch
                 then (true, set_activeChannels (fun cs => {[ch]} ∪ cs) o1)
                 else (false, o1)) as [found o2] eqn:Heq.
  specialize (H2 _ _ eq_refl).
  destruct found; cbn [negb]; [| exact H2].
  destruct (characterId (parseChannelId ch)) as [c |]; [| exact H2].
  destruct (userId (parseChannelId ch)) as [u |]; [| exact H2].
  destruct (negb (SM.truthy_string c)); [exact H2 |].
  apply processCharacterMessage_processed.
  now destruct (channelToCharacterMap o2 !! ch).
Qed.

Lemma handleIncomingMessage_skips_remembered depth reflection E event o msg :
  message event = Some msg ->
  msg_id msg ∈ processedMessageIds o ->
  handleIncomingMessage depth reflection E event o = o.
Proof.
  intros Hmsg Hin. unfold handleIncomingMessage. rewrite Hmsg.
  unfold set_has. now rewrite bool_decide_eq_true_2.
Qed.

(** C1.  Delivering an event to [handleIncomingMessage] a second time has
    no effect at all, whatever the outside world does at either delivery;
    an event whose sender is the orchestrator's own identity is never
    processed; and when the first delivery is answered (new message of
    another sender, with text, in a character channel whose character can
    be read, the backend completing its turn and the transport accepting
    the send), exactly one reply has been sent after the two deliveries. *)
Theorem handleIncomingMessage_dedup depth reflection E1 E2 event o :
  handleIncomingMessage depth reflection E2 event
    (handleIncomingMessage depth reflection E1 event o)
  = handleIncomingMessage depth reflection E1 event o /\
  (forall msg,
     message event = Some msg ->
     msg_user msg = orchestratorId o ->
     handleIncomingMessage depth reflection E1 event o = o) /\
  (forall msg ch u c ts cfg,
     message event = Some msg ->
     set_has (msg_id msg) (processedMessageIds o) = false ->
     msg_user msg <> orchestratorId o ->
     channel_id_of event = Some ch ->
     ch ∈ activeChannels o \/ watch_ok E1 ch = true ->
     parseChannelId ch = mkChannelMeta (Some u) (Some c) ts ->
     SM.truthy_string c = true ->
     SM.truthy_string (msg_text msg) = true ->
     Str.is_blank (msg_text msg) = false ->
     CS.get_character_doc E1 c (characterService o) = Ok cfg ->
     connect_ok E1 c = true ->
     completes (turn E1) = true ->
     (forall text, is_Some (transport_send E1 ch c text)) ->
     callback_ok E1 = true ->
     exists response id,
       sent (handleIncomingMessage depth reflection E2 event
               (handleIncomingMessage depth reflection E1 event o))
         = (sent o ++ [mkSentMessage ch c response id])%list).
Proof.
  split; [apply handleIncomingMessage_replay |].
  split; [intros msg; apply handleIncomingMessage_own |].
  intros. rewrite handleIncomingMessage_replay.
  eapply handleIncomingMessage_replies; eassumption.
Qed.

Lemma handleIncomingMessage_dedup_witness :
  exists response id,
    sent (handleIncomingMessage Scenario.no_score Scenario.no_score
            (Scenario.answering 1300 "Again") Scenario.hello_event
            (handleIncomingMessage Scenario.no_score Scenario.no_score
               (Scenario.answering 1200 "Hi there") Scenario.hello_event
               Scenario.orchestrator_ready))
      = [mkSentMessage "u1_c1_1700000000000" "c1" response id].
Proof.
  refine (proj2 (proj2 (handleIncomingMessage_dedup Scenario.no_score Scenario.no_score
                          (Scenario.answering 1200 "Hi there")
                          (Scenario.answering 1300 "Again")
                          Scenario.hello_event Scenario.orchestrator_ready))
            _ "u1_c1_1700000000000" "u1" "c1" _ _
            eq_refl eq_refl _ eq_refl _ eq_refl eq_refl eq_refl eq_refl eq_refl
            eq_refl eq_refl _ eq_refl).
  - discriminate.
  - right. reflexivity.
  - intros text. eexists. reflexivity.
Defined.

End OrchestratorProperties.

(** * Further properties of the code

    What the code does beyond the specification's claims: its behaviour on
    errors and at the edges, the invariants it keeps and how its operations
    compose. *)

(** ** State store: reads, errors and flags *)
Section StateStoreBehaviour.
Import CharacterStateManager Vocab.

(** X1.  Once [getCharacterState] has answered a state, every later read of
    that character answers the same state from the cache and leaves the
    manager as it is, whatever has become of the store since: the document
    may have been replaced or removed, and the read may fail.  A read that
    answers nothing caches nothing. *)
Theorem getCharacterState_served_from_cache E c m st :
  fst (getCharacterState E c m) = Some st ->
  forall E' db',
    let m1 := set_firestore (fun _ => db') (snd (getCharacterState E c m)) in
    getCharacterState E' c m1 = (Some st, m1).
Proof.
  intros H E' db' m1. apply getCharacterState_cached.
  subst m1. cbn. now apply getCharacterState_Some in H as [-> _].
Qed.

Lemma getCharacterState_served_from_cache_witness :
  getCharacterState (Scenario.append_fails 5) "c1"
    (set_firestore (fun _ => empty_db)
       (snd (getCharacterState (Scenario.quiet 2) "c1" Scenario.store_c1)))
  = (stateCache Scenario.store_c1 !! "c1",
     set_firestore (fun _ => empty_db)
       (snd (getCharacterState (Scenario.quiet 2) "c1" Scenario.store_c1))).
Proof.
  exact (getCharacterState_served_from_cache (Scenario.quiet 2) "c1"
           Scenario.store_c1 _ eq_refl (Scenario.append_fails 5) empty_db).
Defined.

(** X2.  [initializeCharacter] is idempotent: after a call that returned a
    state, a second call for the same character returns that very state
    and changes nothing, whatever seed it is given. *)
Theorem initializeCharacter_idempotent E c seed m st :
  fst (initializeCharacter E c seed m) = Ok st ->
  forall E' seed',
    initializeCharacter E' c seed' (snd (initializeCharacter E c seed m))
      = (Ok st, snd (initializeCharacter E c seed m)).
Proof.
  intros H E' seed'.
  assert (Hc : stateCache (snd (initializeCharacter E c seed m)) !! c = Some st).
  { revert H. unfold initializeCharacter.
    pose proof (getCharacterState_Some E c m) as Hsome.
    destruct (getCharacterState E c m) as [[st0 |] m0]; cbn in *.
    - intros [= <-]. now apply Hsome.
    - destruct (fs_fails E FsSet "character_states" c); cbn; [discriminate |].
      intros [= <-]. apply lookup_insert_eq. }
  unfold initializeCharacter at 1.
  now rewrite (getCharacterState_cached E' c _ st Hc).
Qed.

Lemma initializeCharacter_idempotent_witness :
  exists st,
    stateCache Scenario.store_c1 !! "c1" = Some st /\
    initializeCharacter (Scenario.quiet 3000) "c1" Scenario.established_seed
      Scenario.store_c1 = (Ok st, Scenario.store_c1).
Proof.
  eexists. split; [vm_compute; reflexivity |].
  exact (initializeCharacter_idempotent (Scenario.quiet 1000) "c1" no_seed
           (fresh empty_db) _ eq_refl (Scenario.quiet 3000)
           Scenario.established_seed).
Defined.

(** X3.  For a character whose state cannot be read (it is not cached, and
    its document is missing or the read of it fails), [updateGroup],
    [markGreetingCompleted] and [markIdentityEstablished] throw
    "Character <id> not found" and change nothing; [logInteraction] returns
    normally and records nothing; [getEnhancedSystemInstructions] returns
    the base instructions as they are. *)
Theorem unreadable_character_is_not_found E c m :
  fst (getCharacterState E c m) = None ->
  (forall g, updateGroup E c g m = (Err (not_found c), m)) /\
  markGreetingCompleted E c m = (Err (not_found c), m) /\
  markIdentityEstablished E c m = (Err (not_found c), m) /\
  (forall i, logInteraction E c i m = (Ok tt, m)) /\
  (forall base, getEnhancedSystemInstructions E c base m = (base, m)).
Proof.
  intros H. pose proof (getCharacterState_None E c m H) as Hm.
  unfold updateGroup, markGreetingCompleted, markIdentityEstablished,
    logInteraction, getEnhancedSystemInstructions.
  destruct (getCharacterState E c m) as [[st |] m0]; cbn in *; [discriminate |].
  subst m0. repeat split.
Qed.

Lemma unreadable_character_is_not_found_witness :
  markGreetingCompleted (Scenario.quiet 7) "ghost" Scenario.store_c1
    = (Err "Character ghost not found", Scenario.store_c1) /\
  logInteraction (Scenario.quiet 7) "ghost" Scenario.hello Scenario.store_c1
    = (Ok tt, Scenario.store_c1).
Proof.
  pose proof (unreadable_character_is_not_found (Scenario.quiet 7) "ghost"
                Scenario.store_c1 eq_refl) as (_ & Hg & _ & Hl & _).
  split; [exact Hg | exact (Hl Scenario.hello)].
Defined.

(** X4.  [updateGroup] with the group the character already has resets
    nothing: the identity flag, the time of the last group change and the
    context reset stay as they were, no conversation flag is armed, and
    only [lastUpdated] is stamped.  When the write is rejected the call
    throws and neither the cache nor the flags change. *)
Theorem updateGroup_same_group_resets_nothing E c m st :
  fst (getCharacterState E c m) = Some st ->
  (fs_fails E FsSet "character_states" c = false ->
   exists st' m1,
     updateGroup E c (group st) m = (Ok st', m1) /\
     stateCache m1 !! c = Some st' /\
     character_states (firestore m1) !! c = Some st' /\
     st' = mkCharacterState (group st) (name st) (traits st) (systemInstructions st)
             (greetingCompleted st) (identityEstablished st) (lastInteraction st)
             (interactionCount st) (created st) (lastGroupChange st)
             (contextReset st) (Some (now E)) /\
     conversationFlags m1 = conversationFlags m) /\
  (fs_fails E FsSet "character_states" c = true ->
   forall g,
     updateGroup E c g m = (Err "set failed", snd (getCharacterState E c m))).
Proof.
  intros H. pose proof (getCharacterState_Some E c m st H) as (Hc & Hdb & Hfl).
  unfold updateGroup.
  destruct (getCharacterState E c m) as [[st0 |] m0]; cbn in *; [| discriminate].
  injection H as ->. split; intros Hfs; rewrite Hfs.
  - unfold isGroupChange. rewrite bool_decide_eq_true_2 by reflexivity. cbn.
    eexists _, _. split; [reflexivity |]. cbn.
    rewrite !lookup_insert_eq. auto.
  - reflexivity.
Qed.

Lemma updateGroup_same_group_resets_nothing_witness :
  exists st' m1,
    updateGroup (Scenario.quiet 2000) "c1" (Some "red") Scenario.store_established
      = (Ok st', m1) /\
    identityEstablished st' = true /\
    conversationFlags m1 = conversationFlags Scenario.store_established.
Proof.
  destruct (proj1 (updateGroup_same_group_resets_nothing (Scenario.quiet 2000) "c1"
                     Scenario.store_established _ eq_refl) eq_refl)
    as (st' & m1 & Hrun & _ & _ & Hst & Hfl).
  exists st', m1. split; [exact Hrun |]. split; [now rewrite Hst | exact Hfl].
Defined.

(** X5.  Conversation flags are a two-level map in memory: after
    [setConversationFlag] the flag reads as the value set, after
    [clearConversationFlag] it reads as undefined, and in both cases every
    other flag of every character reads as before; neither touches the
    cache or the store. *)
Theorem conversationFlag_roundtrip c flag v c' flag' m :
  getConversationFlag c' flag' (setConversationFlag c flag v m)
    = (if bool_decide (c' = c /\ flag' = flag) then Some v
       else getConversationFlag c' flag' m) /\
  getConversationFlag c' flag' (clearConversationFlag c flag m)
    = (if bool_decide (c' = c /\ flag' = flag) then None
       else getConversationFlag c' flag' m) /\
  stateCache (setConversationFlag c flag v m) = stateCache m /\
  firestore (setConversationFlag c flag v m) = firestore m /\
  stateCache (clearConversationFlag c flag m) = stateCache m /\
  firestore (clearConversationFlag c flag m) = firestore m.
Proof.
  repeat split.
  - unfold getConversationFlag, setConversationFlag. cbn.
    destruct (decide (c' = c)) as [-> | Hc].
    + rewrite lookup_insert_eq.
      destruct (decide (flag' = flag)) as [-> | Hf].
      * rewrite lookup_insert_eq. now rewrite bool_decide_eq_true_2.
      * rewrite lookup_insert_ne by congruence.
        rewrite bool_decide_eq_false_2 by (intros [_ ?]; congruence).
        now destruct (conversationFlags m !! c).
    + rewrite lookup_insert_ne by congruence.
      now rewrite bool_decide_eq_false_2 by (intros [? _]; congruence).
  - unfold getConversationFlag, clearConversationFlag.
    destruct (conversationFlags m !! c) as [inner |] eqn:Hin; cbn.
    + destruct (decide (c' = c)) as [-> | Hc].
      * rewrite lookup_insert_eq, Hin.
        destruct (decide (flag' = flag)) as [-> | Hf].
        -- rewrite lookup_delete_eq. now rewrite bool_decide_eq_true_2.
        -- rewrite lookup_delete_ne by congruence.
           now rewrite bool_decide_eq_false_2 by (intros [_ ?]; congruence).
      * rewrite lookup_insert_ne by congruence.
        now rewrite bool_decide_eq_false_2 by (intros [? _]; congruence).
    + case_bool_decide as Hd; [| reflexivity].
      destruct Hd as [-> _]. now rewrite Hin.
  - unfold clearConversationFlag. now destruct (conversationFlags m !! c).
  - unfold clearConversationFlag. now destruct (conversationFlags m !! c).
Qed.

End StateStoreBehaviour.

(** ** The cache and the store *)

(** What every operation of the state store preserves, every operation of
    the session service preserves, the greeting apart: there the marks of
    the identity and of the greeting interleave. *)
Section Lifting.
Import CustomCharacterService Vocab.

Variable K : SM.t -> Prop.
Hypothesis K_get : forall E c m, K m -> K (snd (SM.getCharacterState E c m)).
Hypothesis K_initialize :
  forall E c seed m, K m -> K (snd (SM.initializeCharacter E c seed m)).
Hypothesis K_updateGroup :
  forall E c g m, K m -> K (snd (SM.updateGroup E c g m)).
Hypothesis K_greeting :
  forall E c m, K m -> K (snd (SM.markGreetingCompleted E c m)).
Hypothesis K_identity :
  forall E c m, K m -> K (snd (SM.markIdentityEstablished E c m)).
Hypothesis K_log : forall E c i m, K m -> K (snd (SM.logInteraction E c i m)).
Hypothesis K_instructions :
  forall E c base m, K m -> K (snd (SM.getEnhancedSystemInstructions E c base m)).
Hypothesis K_characters :
  forall f m, K m -> K (SM.set_firestore (set_characters f) m).

Lemma lift_getCharacter E c s :
  K (stateManager s) -> K (stateManager (snd (getCharacter E c s))).
Proof.
  intros H. unfold getCharacter.
  destruct (characterClients s !! c); [exact H |].
  destruct (get_character_doc E c s); [| exact H].
  rewrite !on_manager_eq. cbn. auto.
Qed.

Lemma lift_identityCheck E c s :
  K (stateManager s) -> K (stateManager (identityCheck E c s)).
Proof.
  intros H. unfold identityCheck. rewrite on_manager_eq.
  pose proof (K_get E c _ H) as H0.
  destruct (fst (SM.getCharacterState E c (stateManager s))) as [st |];
    [| exact H0].
  destruct ((interactionCount st <=? 2) && negb (identityEstablished st));
    [| exact H0].
  rewrite on_manager_snd. cbn. auto.
Qed.

Lemma lift_emitComplete E c s :
  K (stateManager s) -> K (stateManager (emitComplete E c s)).
Proof.
  intros H. unfold emitComplete. generalize (listeners c s). intros n.
  induction n as [| n IH]; [exact H |].
  rewrite Nat.iter_succ. now apply lift_identityCheck.
Qed.

Lemma lift_await_response E c events : forall fullText s,
  K (stateManager s) ->
  K (stateManager (snd (await_response E c events fullText s))).
Proof.
  induction events as [| ev events IH]; intros fullText s H; [exact H |].
  destruct ev; cbn; [now apply IH | now apply lift_emitComplete | exact H].
Qed.

Lemma lift_sendMessageToCharacter E c message u ch s :
  K (stateManager s) ->
  K (stateManager (snd (sendMessageToCharacter E c message u ch s))).
Proof.
  intros H. unfold sendMessageToCharacter.
  pose proof (lift_getCharacter E c s H) as Ha.
  destruct (getCharacter E c s) as [[cfg | e] sa]; cbn in Ha; [| exact Ha].
  rewrite on_manager_eq.
  set (sb := set_stateManager _ sa).
  assert (Hkb : K (stateManager sb)) by (apply K_log; exact Ha).
  assert (Hconn : forall r sc,
            (if is_connected c sb then (Ok tt, sb) else connect E c sb) = (r, sc) ->
            stateManager sc = stateManager sb).
  { intros r sc. destruct (is_connected c sb); [now intros [= _ <-] |].
    intros Heq. pose proof (connect_manager E c sb) as Hm.
    now rewrite Heq in Hm. }
  destruct (if is_connected c sb then (Ok tt, sb) else connect E c sb)
    as [[[] | e] sc] eqn:Heq; specialize (Hconn _ _ eq_refl).
  - apply lift_await_response.
    unfold add_listener, send, call. cbn. now rewrite Hconn.
  - cbn. now rewrite Hconn.
Qed.

Lemma lift_updateCharacterGroup E c g s :
  K (stateManager s) -> K (stateManager (snd (updateCharacterGroup E c g s))).
Proof.
  intros H. unfold updateCharacterGroup. rewrite on_manager_eq.
  pose proof (K_updateGroup E c g _ H) as Hu.
  destruct (fst (SM.updateGroup E c g (stateManager s))); [| exact Hu].
  destruct (fs_fails E FsUpdate "characters" c); [exact Hu |].
  match goal with
  | |- context [getCharacter E c ?s1] => set (sa := s1)
  end.
  assert (Ha : K (stateManager sa)) by (apply K_characters; exact Hu).
  destruct (characterClients sa !! c); [| exact Ha].
  pose proof (lift_getCharacter E c sa Ha) as Hb.
  destruct (getCharacter E c sa) as [[cfg | e] sb]; exact Hb.
Qed.

Lemma lift_createCharacter template E c cfg s :
  K (stateManager s) -> K (stateManager (snd (createCharacter template E c cfg s))).
Proof.
  intros H. unfold createCharacter.
  destruct (negb (SM.truthy_string c) || negb (SM.truthy_string (cfg_name cfg)));
    [exact H |].
  rewrite on_manager_eq.
  match goal with
  | |- context [SM.initializeCharacter E c ?seed _] =>
      pose proof (K_initialize E c seed _ H) as Hi
  end.
  destruct (fst (SM.initializeCharacter E c _ (stateManager s))); [| exact Hi].
  destruct (fs_fails E FsSet "characters" c); [exact Hi |].
  cbn. apply K_characters. exact Hi.
Qed.

Lemma lift_deleteCharacter E c s :
  K (stateManager s) -> K (stateManager (snd (deleteCharacter E c s))).
Proof.
  intros H. unfold deleteCharacter.
  destruct (characterClients s !! c);
    destruct (fs_fails E FsDelete "characters" c); cbn;
    try apply K_characters; exact H.
Qed.

Lemma lift_perform template E op s :
  match op with
  | InitializeCharacterSession c force =>
      K (stateManager (snd (initializeCharacterSession E c force s)))
  | _ => True
  end ->
  K (stateManager s) -> K (stateManager (perform template E op s)).
Proof.
  intros Hsession H.
  destruct op; cbn [perform]; try rewrite on_manager_snd; cbn; auto.
  - now apply lift_createCharacter.
  - now apply lift_getCharacter.
  - now apply lift_updateCharacterGroup.
  - now apply lift_sendMessageToCharacter.
  - now apply lift_deleteCharacter.
Qed.

End Lifting.

Section Coherence.
Import CharacterStateManager Vocab Terms.

Lemma coherent_get E c m : coherent m -> coherent (snd (getCharacterState E c m)).
Proof.
  intros H. unfold getCharacterState.
  destruct (stateCache m !! c); [exact H |].
  destruct (fs_fails E FsGet "character_states" c); [exact H |].
  destruct (character_states (firestore m) !! c) as [st |] eqn:Hd; [| exact H].
  intros c' st'. cbn. destruct (decide (c = c')) as [<- | Hne].
  - rewrite lookup_insert_eq. now intros [= <-].
  - rewrite lookup_insert_ne by assumption. apply H.
Qed.

Lemma coherent_insert c st m :
  coherent m ->
  coherent (set_stateCache (insert c st)
              (set_firestore (set_character_states (insert c st)) m)).
Proof.
  intros H c' st'. cbn. destruct (decide (c = c')) as [<- | Hne].
  - now rewrite !lookup_insert_eq.
  - rewrite !lookup_insert_ne by assumption. apply H.
Qed.

Lemma coherent_alter c st f m :
  coherent m -> stateCache m !! c = Some st ->
  coherent (set_stateCache (insert c (f st))
              (set_firestore (set_character_states (alter f c)) m)).
Proof.
  intros H Hc c' st'. cbn. destruct (decide (c = c')) as [<- | Hne].
  - rewrite lookup_insert_eq, lookup_alter_eq. intros [= <-].
    now rewrite (H _ _ Hc).
  - rewrite lookup_insert_ne, lookup_alter_ne by assumption. apply H.
Qed.

Lemma coherent_flags f m : coherent m -> coherent (set_conversationFlags f m).
Proof. intros H. exact H. Qed.

Lemma coherent_read E c m :
  coherent m ->
  coherent (snd (getCharacterState E c m)) /\
  (forall st, fst (getCharacterState E c m) = Some st ->
     stateCache (snd (getCharacterState E c m)) !! c = Some st).
Proof.
  intros H. split; [now apply coherent_get |].
  intros st Hst. now apply getCharacterState_Some in Hst as [? _].
Qed.

Lemma coherent_initialize E c seed m :
  coherent m -> coherent (snd (initializeCharacter E c seed m)).
Proof.
  intros H. unfold initializeCharacter.
  pose proof (coherent_get E c m H) as H0.
  destruct (getCharacterState E c m) as [[st |] m0]; cbn in *; [exact H0 |].
  destruct (fs_fails E FsSet "character_states" c); [exact H0 |].
  now apply coherent_insert.
Qed.

Lemma coherent_updateGroup E c g m :
  coherent m -> coherent (snd (updateGroup E c g m)).
Proof.
  intros H. unfold updateGroup.
  pose proof (coherent_get E c m H) as H0.
  destruct (getCharacterState E c m) as [[st |] m0]; cbn in *; [| exact H0].
  destruct (fs_fails E FsSet "character_states" c); [exact H0 |].
  destruct (isGroupChange st g); cbn.
  - unfold setConversationFlag. apply coherent_flags. now apply coherent_insert.
  - now apply coherent_insert.
Qed.

Lemma coherent_greeting E c m :
  coherent m -> coherent (snd (markGreetingCompleted E c m)).
Proof.
  intros H. unfold markGreetingCompleted, update_doc.
  destruct (coherent_read E c m H) as [H0 Hc].
  destruct (getCharacterState E c m) as [[st |] m0]; cbn in *; [| exact H0].
  destruct (fs_fails E FsUpdate "character_states" c); cbn; [exact H0 |].
  apply coherent_alter; auto.
Qed.

Lemma coherent_identity E c m :
  coherent m -> coherent (snd (markIdentityEstablished E c m)).
Proof.
  intros H. unfold markIdentityEstablished, update_doc.
  destruct (coherent_read E c m H) as [H0 Hc].
  destruct (getCharacterState E c m) as [[st |] m0]; cbn in *; [| exact H0].
  destruct (fs_fails E FsUpdate "character_states" c); cbn; [exact H0 |].
  apply coherent_alter; auto.
Qed.

Lemma coherent_log E c i m :
  coherent m -> coherent (snd (logInteraction E c i m)).
Proof.
  intros H. unfold logInteraction, add_interaction, update_doc.
  destruct (coherent_read E c m H) as [H0 Hc].
  destruct (getCharacterState E c m) as [[st |] m0]; cbn in *; [| exact H0].
  destruct (fs_fails E FsAdd "character_interactions" c); cbn; [exact H0 |].
  destruct (fs_fails E FsUpdate "character_states" c); cbn; [exact H0 |].
  exact (coherent_alter c st
           (with_counters (interactionCount st + 1) (now E) (now E))
           (set_firestore (set_character_interactions _) m0) H0 (Hc st eq_refl)).
Qed.

Lemma coherent_instructions E c base m :
  coherent m -> coherent (snd (getEnhancedSystemInstructions E c base m)).
Proof.
  intros H. unfold getEnhancedSystemInstructions.
  pose proof (coherent_get E c m H) as H0.
  destruct (getCharacterState E c m) as [[st |] m0]; cbn in *; [| exact H0].
  destruct (default false (getConversationFlag c "resetRequired" m0)); cbn;
    [| exact H0].
  unfold clearConversationFlag. now destruct (conversationFlags m0 !! c).
Qed.

Lemma coherent_characters f m :
  coherent m -> coherent (set_firestore (set_characters f) m).
Proof. intros H. exact H. Qed.

Lemma coherent_alter_to c x y f m :
  coherent m -> stateCache m !! c = Some x -> f x = y ->
  coherent (set_stateCache (insert c y)
              (set_firestore (set_character_states (alter f c)) m)).
Proof.
  intros H Hc <-. now apply coherent_alter.
Qed.

Lemma coherent_backed m : coherent m -> backed m.
Proof. intros H c st Hst. exists st. split; [now apply H | reflexivity]. Qed.

End Coherence.

(** *** The greeting and the listeners of earlier turns *)
Section GreetingRace.
Import CustomCharacterService Vocab Terms.

Lemma identity_twice E st :
  SM.with_identityEstablished E (SM.with_identityEstablished E st)
    = SM.with_identityEstablished E st.
Proof. now destruct st. Qed.

(** One write of a mark keeps the cache and the store together when the
    fields it sets turn the cached state into the state it caches. *)
Lemma coherent_write_back E c fields state x s :
  coherent (stateManager s) ->
  SM.stateCache (stateManager s) !! c = Some x ->
  fields x = fields state ->
  coherent (stateManager (write_back E c fields state s)) /\
  (SM.stateCache (stateManager (write_back E c fields state s)) !! c = Some x \/
   SM.stateCache (stateManager (write_back E c fields state s)) !! c
     = Some (fields state)).
Proof.
  intros H Hc Hf.
  destruct (write_back_fields E c fields state s) as (_ & _ & ->).
  destruct (fs_fails E FsUpdate "character_states" c); [now auto |].
  split; [now apply coherent_alter_to with (x := x) |].
  right. cbn. apply lookup_insert_eq.
Qed.

Lemma settled_AllStates c s :
  settled c s = true ->
  AllStates (fun c' st => c' = c -> early st = false) (stateManager s).
Proof.
  unfold settled. intros Hs. apply andb_true_iff in Hs as [Hs1 Hs2].
  split; intros c' st Hst ->; rewrite Hst in *; now apply negb_true_iff.
Qed.

Lemma coherent_emitCompleteGreeting E c s :
  listeners c s = 0%nat \/
    AllStates (fun c' st => c' = c -> early st = false) (stateManager s) ->
  coherent (stateManager s) ->
  coherent (stateManager (emitCompleteGreeting E c s)).
Proof.
  intros Hcalm H. unfold emitCompleteGreeting. rewrite on_manager_eq.
  pose proof (coherent_get E c _ H) as H0.
  pose proof (getCharacterState_Some E c (stateManager s)) as Hsome.
  assert (Hquiet : listeners c s = 0%nat \/
            forall st, fst (SM.getCharacterState E c (stateManager s)) = Some st ->
                       early st = false).
  { destruct Hcalm as [Hz | Hall]; [now left | right].
    intros st Hst. now apply (proj2 (AllStates_get _ E c _ Hall) st Hst). }
  destruct (fst (SM.getCharacterState E c (stateManager s))) as [st |];
    [| exact H0].
  destruct (Hsome st eq_refl) as (Hc & _).
  set (s0 := set_stateManager _ s).
  destruct (coherent_write_back E c (SM.with_greetingCompleted E) st st s0 H0 Hc eq_refl)
    as (H1 & _).
  assert (Hl : listeners c s0 = listeners c s) by reflexivity.
  destruct Hquiet as [Hz | Hq].
  - rewrite Hl, Hz.
    now destruct ((interactionCount st <=? 2) && negb (identityEstablished st)).
  - specialize (Hq st eq_refl). unfold early in Hq. now rewrite Hq.
Qed.

Lemma coherent_await_greeting E c events s :
  listeners c s = 0%nat \/
    AllStates (fun c' st => c' = c -> early st = false) (stateManager s) ->
  coherent (stateManager s) ->
  coherent (stateManager (snd (await_greeting E c events s))).
Proof.
  intros Hcalm H. induction events as [| ev events IH]; [exact H |].
  destruct ev; cbn [await_greeting snd]; try exact IH.
  now apply coherent_emitCompleteGreeting.
Qed.

Lemma coherent_initializeCharacterSession E c force s :
  calm (InitializeCharacterSession c force) s = true ->
  coherent (stateManager s) ->
  coherent (stateManager (snd (initializeCharacterSession E c force s))).
Proof.
  intros Hcalm H.
  assert (Hc : listeners c s = 0%nat \/
            AllStates (fun c' st => c' = c -> early st = false)
                      (stateManager s)).
  { cbn in Hcalm. apply orb_true_iff in Hcalm as [Hg | Hz].
    - right. now apply settled_AllStates.
    - left. now apply Nat.eqb_eq. }
  clear Hcalm. unfold initializeCharacterSession.
  pose proof (lift_getCharacter coherent coherent_get coherent_instructions E c s H)
    as Ha.
  pose proof (getCharacter_listeners E c s) as Hl.
  assert (Hca : listeners c s = 0%nat \/
            AllStates (fun c' st => c' = c -> early st = false)
                      (stateManager (snd (getCharacter E c s)))).
  { destruct Hc as [Hz | Hall]; [now left | right].
    now apply getCharacter_AllStates. }
  destruct (getCharacter E c s) as [[cfg | e] sa]; cbn in Ha, Hl, Hca; [| exact Ha].
  rewrite on_manager_eq.
  pose proof (coherent_get E c _ Ha) as Hb.
  set (sb := set_stateManager _ sa).
  assert (Hkb : coherent (stateManager sb)) by exact Hb.
  assert (Hlb : listeners c sb = listeners c s) by exact Hl.
  assert (Hcb : listeners c s = 0%nat \/
            AllStates (fun c' st => c' = c -> early st = false)
                      (stateManager sb)).
  { destruct Hca as [Hz | Hall]; [now left | right].
    exact (proj1 (AllStates_get _ E c _ Hall)). }
  destruct (match fst (SM.getCharacterState E c (stateManager sa)) with
            | Some state => greetingCompleted state && negb force
            | None => false
            end); [exact Hkb |].
  pose proof (connect_manager E c sb) as Hm.
  pose proof (connect_listeners E c sb) as Hlc.
  destruct (connect E c sb) as [[[] | e] sc]; cbn in Hm, Hlc.
  - apply coherent_await_greeting.
    + destruct Hcb as [Hz | Hall]; [left | right].
      * unfold send, call, listeners in *. cbn. congruence.
      * unfold send, call. cbn. now rewrite Hm.
    + unfold send, call. cbn. now rewrite Hm.
  - cbn. now rewrite Hm.
Qed.

Lemma coherent_perform template E op s :
  calm op s = true ->
  coherent (stateManager s) -> coherent (stateManager (perform template E op s)).
Proof.
  intros Hcalm H.
  apply (lift_perform coherent); auto using coherent_get, coherent_initialize,
    coherent_updateGroup, coherent_greeting, coherent_identity, coherent_log,
    coherent_instructions, coherent_characters.
  destruct op; try exact I. now apply coherent_initializeCharacterSession.
Qed.

Lemma coherent_run template trace : forall s,
  unraced template trace s = true ->
  coherent (stateManager s) -> coherent (stateManager (run template trace s)).
Proof.
  induction trace as [| [E op] trace IH]; intros s Hu H; [exact H |].
  cbn [run unraced] in *. apply andb_true_iff in Hu as [Hop Hrest].
  apply IH; [exact Hrest | now apply coherent_perform].
Qed.

Lemma await_greeting_complete E c events s :
  EvComplete ∈ events ->
  await_greeting E c events s = (true, emitCompleteGreeting E c s).
Proof.
  induction events as [| ev events IH]; intros H; [inversion H |].
  destruct ev; cbn [await_greeting]; try reflexivity;
    apply IH; apply elem_of_cons in H as [H | H]; (discriminate || exact H).
Qed.

Lemma identity_marks_land E c state n s d :
  fs_fails E FsUpdate "character_states" c = false ->
  character_states (SM.firestore (stateManager s)) !! c = Some d ->
  let s' := Nat.iter (S n) (write_back E c (SM.with_identityEstablished E) state) s in
  SM.stateCache (stateManager s') !! c = Some (SM.with_identityEstablished E state) /\
  character_states (SM.firestore (stateManager s')) !! c
    = Some (SM.with_identityEstablished E d).
Proof.
  intros Hfs Hd. cbn zeta. induction n as [| n [IH1 IH2]].
  - cbn [Nat.iter nat_rect].
    destruct (write_back_fields E c (SM.with_identityEstablished E) state s)
      as (_ & _ & ->).
    rewrite Hfs. cbn. rewrite lookup_insert_eq, lookup_alter_eq, Hd. auto.
  - rewrite Nat.iter_succ.
    set (s1 := Nat.iter (S n) _ s) in *. clearbody s1.
    destruct (write_back_fields E c (SM.with_identityEstablished E) state s1)
      as (_ & _ & ->).
    rewrite Hfs. cbn. rewrite lookup_insert_eq, lookup_alter_eq, IH2. cbn.
    now rewrite identity_twice.
Qed.

(** The marks of one ['complete'] event of a greeting, when the listeners
    of earlier turns find the identity still to be established: the store
    takes both flags, the cache keeps the copy that the last of the marks
    has made of the state they all read. *)
Lemma emitCompleteGreeting_race E c s st d n :
  SM.stateCache (stateManager s) !! c = Some st ->
  character_states (SM.firestore (stateManager s)) !! c = Some d ->
  listeners c s = S n ->
  early st = true ->
  fs_fails E FsUpdate "character_states" c = false ->
  SM.stateCache (stateManager (emitCompleteGreeting E c s)) !! c
    = Some (SM.with_identityEstablished E st) /\
  character_states (SM.firestore (stateManager (emitCompleteGreeting E c s))) !! c
    = Some (SM.with_identityEstablished E (SM.with_greetingCompleted E d)).
Proof.
  intros Hc Hd Hl Hearly Hfs. unfold emitCompleteGreeting.
  rewrite on_manager_eq, (getCharacterState_cached E c _ st Hc).
  cbn [fst snd]. unfold early in Hearly. rewrite Hearly.
  assert (Hl0 : listeners c (set_stateManager (fun _ => stateManager s) s) = S n)
    by exact Hl.
  rewrite Hl0.
  apply identity_marks_land; [exact Hfs |].
  match goal with
  | |- context [write_back E c ?f st ?s1] =>
      destruct (write_back_fields E c f st s1) as (_ & _ & ->)
  end.
  rewrite Hfs. cbn. now rewrite lookup_alter_eq, Hd.
Qed.

Lemma initializeCharacterSession_race E c force s cl n cfg st d :
  characterClients s !! c = Some cl -> completeListeners cl = S n ->
  get_character_doc E c s = Ok cfg ->
  SM.stateCache (stateManager s) !! c = Some st ->
  character_states (SM.firestore (stateManager s)) !! c = Some d ->
  greetingCompleted st = false -> early st = true ->
  connect_ok E c = true -> EvComplete ∈ turn E ->
  fs_fails E FsUpdate "character_states" c = false ->
  let s' := snd (initializeCharacterSession E c force s) in
  SM.stateCache (stateManager s') !! c = Some (SM.with_identityEstablished E st) /\
  character_states (SM.firestore (stateManager s')) !! c
    = Some (SM.with_identityEstablished E (SM.with_greetingCompleted E d)).
Proof.
  intros Hcl Hn Hdoc Hc Hd Hg Hearly Hconn Hev Hfs. cbn zeta.
  unfold initializeCharacterSession, getCharacter. rewrite Hcl, Hdoc.
  rewrite on_manager_eq, (getCharacterState_cached E c _ st Hc).
  cbn [fst snd]. rewrite Hg. cbn [andb].
  unfold connect. rewrite Hconn.
  rewrite (await_greeting_complete E c _ _ Hev). cbn [snd].
  apply emitCompleteGreeting_race with (n := n); try assumption.
  unfold listeners, send, call. cbn. rewrite lookup_alter_eq, Hcl. cbn. exact Hn.
Qed.

End GreetingRace.

Section CacheAndStore.
Import CustomCharacterService Vocab Terms.

(** X7.  The cache is backed by the store as long as no greeting races with
    the listeners of earlier message turns.  Starting from a new service over
    any store, after any sequence of state-store and session-service
    operations, taken one at a time and with any store calls failing on the
    way, in which no greeting is run for a character while ['complete']
    listeners of earlier message turns are on its client and a copy of its
    state would make them mark the identity (identityEstablished = false
    and interactionCount <= 2), every cached state is, [lastUpdated] apart,
    the stored document of its character.  When a greeting does complete on
    a client that carries such a listener, for a character whose cached
    state is not greeted and makes the listener mark the identity, the
    marks of the greeting and of the identity both start from that cached
    state: the stored document ends with greetingCompleted and
    identityEstablished both true, and the cached state does not have
    both. *)
Theorem cache_backed_unless_greeting_races template :
  (forall trace db,
     unraced template trace (fresh db) = true ->
     backed (stateManager (run template trace (fresh db)))) /\
  (forall E c force s cl n cfg st d,
     characterClients s !! c = Some cl -> completeListeners cl = S n ->
     get_character_doc E c s = Ok cfg ->
     SM.stateCache (stateManager s) !! c = Some st ->
     character_states (SM.firestore (stateManager s)) !! c = Some d ->
     greetingCompleted st = false -> early st = true ->
     connect_ok E c = true -> EvComplete ∈ turn E ->
     fs_fails E FsUpdate "character_states" c = false ->
     let s' := snd (initializeCharacterSession E c force s) in
     exists st' d',
       SM.stateCache (stateManager s') !! c = Some st' /\
       character_states (SM.firestore (stateManager s')) !! c = Some d' /\
       greetingCompleted d' && identityEstablished d' = true /\
       greetingCompleted st' && identityEstablished st' = false).
Proof.
  split.
  - intros trace db Hu. apply coherent_backed. apply coherent_run; [exact Hu |].
    intros c st. cbn. now rewrite lookup_empty.
  - intros E c force s cl n cfg st d Hcl Hn Hdoc Hc Hd Hg Hearly Hconn Hev Hfs.
    destruct (initializeCharacterSession_race E c force s cl n cfg st d
                Hcl Hn Hdoc Hc Hd Hg Hearly Hconn Hev Hfs) as [H1 H2].
    cbn zeta. eexists _, _. split; [exact H1 |]. split; [exact H2 |].
    split; [reflexivity |]. cbn. now rewrite Hg.
Qed.

Lemma cache_backed_unless_greeting_races_witness :
  backed (stateManager (run Scenario.instructions_of Cases.regreeted_conversation
                          (fresh empty_db))) /\
  exists st' d',
    SM.stateCache
      (stateManager (snd (initializeCharacterSession
                            (Scenario.answering 1300 "Hello! I'm Ada.") "c1" false
                            Cases.service_interrupted))) !! "c1" = Some st' /\
    character_states
      (SM.firestore
         (stateManager (snd (initializeCharacterSession
                               (Scenario.answering 1300 "Hello! I'm Ada.") "c1" false
                               Cases.service_interrupted)))) !! "c1" = Some d' /\
    greetingCompleted d' && identityEstablished d' = true /\
    greetingCompleted st' && identityEstablished st' = false.
Proof.
  split.
  - refine (proj1 (cache_backed_unless_greeting_races Scenario.instructions_of)
              Cases.regreeted_conversation empty_db _).
    vm_compute. reflexivity.
  - refine (proj2 (cache_backed_unless_greeting_races Scenario.instructions_of)
              (Scenario.answering 1300 "Hello! I'm Ada.") "c1" false
              Cases.service_interrupted _ 0%nat _ _ _ _ _ _ _ _ _ _ _ _ _).
    + vm_compute. reflexivity.
    + reflexivity.
    + vm_compute. reflexivity.
    + vm_compute. reflexivity.
    + vm_compute. reflexivity.
    + reflexivity.
    + reflexivity.
    + reflexivity.
    + apply elem_of_cons. right. apply elem_of_cons. now left.
    + reflexivity.
Defined.

End CacheAndStore.

(** ** Session service: turns, creation and removal *)
Section SessionBehaviour.
Import CustomCharacterService Vocab Terms.

Lemma identityCheck_clients E c s :
  characterClients (identityCheck E c s) = characterClients s /\
  backend (identityCheck E c s) = backend s.
Proof.
  unfold identityCheck. rewrite on_manager_eq.
  destruct (fst (SM.getCharacterState E c (stateManager s))) as [st |];
    [| now split].
  destruct ((interactionCount st <=? 2) && negb (identityEstablished st));
    [| now split].
  rewrite on_manager_snd. now split.
Qed.

Lemma emitComplete_clients E c s :
  characterClients (emitComplete E c s) = characterClients s /\
  backend (emitComplete E c s) = backend s.
Proof.
  unfold emitComplete. generalize (listeners c s). intros n.
  induction n as [| n [IH1 IH2]]; [now split |].
  rewrite Nat.iter_succ.
  destruct (identityCheck_clients E c (Nat.iter n (identityCheck E c) s)) as [-> ->].
  now split.
Qed.

Lemma await_response_texts E c chunks tail : forall fullText s,
  await_response E c ((EvText <$> chunks) ++ tail)%list fullText s
    = await_response E c tail (fullText ++ joined chunks) s.
Proof.
  induction chunks as [| chunk chunks IH]; intros fullText s.
  - cbn. unfold joined. cbn. now rewrite append_nil_r.
  - cbn. rewrite IH. f_equal.
    change (joined (chunk :: chunks)) with (chunk ++ joined chunks).
    apply append_assoc.
Qed.

(** What [sendMessageToCharacter] has done when it starts to wait for the
    backend: the interaction is logged, the message is sent, and one more
    ['complete'] listener sits on the client. *)
Lemma sendMessageToCharacter_waits E c message u ch s cfg :
  get_character_doc E c s = Ok cfg ->
  connect_ok E c = true ->
  exists s1,
    sendMessageToCharacter E c message u ch s
      = await_response E c (turn E) "" s1 /\
    stateManager s1
      = snd (SM.logInteraction E c (mkInteractionDetails "message" message u ch)
               (stateManager (snd (getCharacter E c s)))) /\
    listeners c s1 = S (listeners c s).
Proof.
  intros Hdoc Hconn. unfold sendMessageToCharacter.
  destruct (getCharacter_ok E c s cfg Hdoc) as [Hfst [cl Hcl]].
  pose proof (getCharacter_listeners E c s) as Hl.
  destruct (getCharacter E c s) as [[cfg' | e] sa]; cbn in *; [| discriminate].
  rewrite on_manager_eq.
  assert (Hsa : listeners c sa = completeListeners cl)
    by (unfold listeners; now rewrite Hcl).
  destruct (is_connected c _).
  - eexists. split; [reflexivity |]. split; [reflexivity |].
    unfold listeners at 1. cbn. rewrite lookup_alter_eq, Hcl. cbn. congruence.
  - unfold connect. rewrite Hconn.
    eexists. split; [reflexivity |]. split; [reflexivity |].
    unfold listeners at 1. cbn. rewrite !lookup_alter_eq, Hcl. cbn. congruence.
Qed.

Lemma await_response_state E c events : forall fullText s,
  snd (await_response E c events fullText s) = s \/
  snd (await_response E c events fullText s) = emitComplete E c s.
Proof.
  induction events as [| ev events IH]; intros fullText s; [now left |].
  destruct ev; cbn; [apply IH | now right | now left].
Qed.

(** X8.  The answer of [sendMessageToCharacter] is the text chunks the
    backend emitted, put end to end, up to the first ['complete']; what
    comes after is ignored.  An ['error'] before any ['complete'] rejects
    with that error.  When neither arrives in time, the call resolves with
    the partial text if there is some and rejects with "Response timed
    out" if there is none. *)
Theorem sendMessageToCharacter_answer E c message u ch s cfg :
  get_character_doc E c s = Ok cfg ->
  connect_ok E c = true ->
  (forall chunks rest,
     turn E = ((EvText <$> chunks) ++ EvComplete :: rest)%list ->
     fst (sendMessageToCharacter E c message u ch s) = Ok (joined chunks)) /\
  (forall chunks e rest,
     turn E = ((EvText <$> chunks) ++ EvError e :: rest)%list ->
     fst (sendMessageToCharacter E c message u ch s) = Err e) /\
  (forall chunks,
     turn E = EvText <$> chunks ->
     fst (sendMessageToCharacter E c message u ch s)
       = if SM.truthy_string (joined chunks) then Ok (joined chunks)
         else Err "Response timed out").
Proof.
  intros Hdoc Hconn.
  destruct (sendMessageToCharacter_waits E c message u ch s cfg Hdoc Hconn)
    as (s1 & -> & _).
  repeat split.
  - intros chunks rest ->. now rewrite await_response_texts.
  - intros chunks e rest ->. now rewrite await_response_texts.
  - intros chunks Hturn.
    rewrite <- (app_nil_r (EvText <$> chunks)) in Hturn. rewrite Hturn.
    now rewrite await_response_texts.
Qed.

Lemma sendMessageToCharacter_answer_witness :
  fst (sendMessageToCharacter (Scenario.answering 1200 "Hi there") "c1" "Hello"
         (Some "u1") None Scenario.service_greeted) = Ok "Hi there".
Proof.
  exact (proj1 (sendMessageToCharacter_answer (Scenario.answering 1200 "Hi there")
                  "c1" "Hello" (Some "u1") None Scenario.service_greeted _
                  eq_refl eq_refl) ["Hi there"] [] eq_refl).
Defined.

(** X9.  Every call of [sendMessageToCharacter] that reaches the backend
    leaves one more ['complete'] listener on the character's client,
    whatever the backend then does: the listeners are attached with
    [client.on] and never removed. *)
Theorem sendMessageToCharacter_adds_listener E c message u ch s cfg :
  get_character_doc E c s = Ok cfg ->
  connect_ok E c = true ->
  listeners c (snd (sendMessageToCharacter E c message u ch s))
    = S (listeners c s).
Proof.
  intros Hdoc Hconn.
  destruct (sendMessageToCharacter_waits E c message u ch s cfg Hdoc Hconn)
    as (s1 & -> & _ & <-).
  destruct (await_response_state E c (turn E) "" s1) as [-> | ->];
    [reflexivity |].
  unfold listeners. now destruct (emitComplete_clients E c s1) as [-> _].
Qed.

Lemma sendMessageToCharacter_adds_listener_witness :
  listeners "c1"
    (snd (sendMessageToCharacter (Scenario.answering 1300 "Again") "c1" "And then?"
            None None
            (snd (sendMessageToCharacter (Scenario.answering 1200 "Hi there") "c1"
                    "Hello" None None Scenario.service_greeted))))
  = 2%nat.
Proof.
  rewrite (sendMessageToCharacter_adds_listener (Scenario.answering 1300 "Again")
             "c1" "And then?" None None
             (snd (sendMessageToCharacter (Scenario.answering 1200 "Hi there") "c1"
                     "Hello" None None Scenario.service_greeted))
             _ eq_refl eq_refl).
  rewrite (sendMessageToCharacter_adds_listener (Scenario.answering 1200 "Hi there")
             "c1" "Hello" None None Scenario.service_greeted _ eq_refl eq_refl).
  reflexivity.
Defined.

Lemma markIdentityEstablished_interactions E c m :
  character_interactions (SM.firestore (snd (SM.markIdentityEstablished E c m)))
    = character_interactions (SM.firestore m).
Proof.
  unfold SM.markIdentityEstablished, SM.update_doc.
  pose proof (getCharacterState_store E c m) as Hdb.
  destruct (SM.getCharacterState E c m) as [[st |] m0]; cbn in *;
    [| now rewrite Hdb].
  destruct (fs_fails E FsUpdate "character_states" c); cbn; now rewrite Hdb.
Qed.

Lemma identityCheck_interactions E c s :
  character_interactions (SM.firestore (stateManager (identityCheck E c s)))
    = character_interactions (SM.firestore (stateManager s)).
Proof.
  unfold identityCheck. rewrite on_manager_eq.
  destruct (fst (SM.getCharacterState E c (stateManager s))) as [st |]; cbn;
    [| now rewrite getCharacterState_store].
  destruct ((interactionCount st <=? 2) && negb (identityEstablished st)); cbn;
    [| now rewrite getCharacterState_store].
  rewrite on_manager_snd. cbn.
  now rewrite markIdentityEstablished_interactions, getCharacterState_store.
Qed.

Lemma emitComplete_interactions E c s :
  character_interactions (SM.firestore (stateManager (emitComplete E c s)))
    = character_interactions (SM.firestore (stateManager s)).
Proof.
  unfold emitComplete. generalize (listeners c s). intros n.
  induction n as [| n IH]; [reflexivity |].
  rewrite Nat.iter_succ. now rewrite identityCheck_interactions.
Qed.

(** Where [sendMessageToCharacter] leaves the state store: as the logging
    of the interaction left it, or as the ['complete'] listeners changed
    it after that. *)
Lemma sendMessageToCharacter_manager E c message u ch s cfg :
  get_character_doc E c s = Ok cfg ->
  let m1 := snd (SM.logInteraction E c (mkInteractionDetails "message" message u ch)
                   (stateManager (snd (getCharacter E c s)))) in
  let s' := snd (sendMessageToCharacter E c message u ch s) in
  stateManager s' = m1 \/
  exists s1, stateManager s1 = m1 /\ s' = emitComplete E c s1.
Proof.
  intros Hdoc. cbn zeta. unfold sendMessageToCharacter.
  destruct (getCharacter_ok E c s cfg Hdoc) as [Hfst _].
  destruct (getCharacter E c s) as [[cfg' | e] sa]; cbn in *; [| discriminate].
  rewrite on_manager_eq.
  set (sb := set_stateManager _ sa).
  destruct (is_connected c sb); [| unfold connect; destruct (connect_ok E c)];
    cbn; [| | now left].
  all: match goal with
       | |- context [await_response ?E0 ?c0 ?ev ?txt ?s1] =>
           destruct (await_response_state E0 c0 ev txt s1) as [-> | ->]
       end; [now left | right; eexists; split; [| reflexivity]; reflexivity].
Qed.

(** X10.  [sendMessageToCharacter] counts the message before it talks to
    the backend: when the store works, the interaction counter of the
    character goes up by one and the message is appended to the
    interaction log whether the backend then connects or not, answers,
    reports an error or stays silent; a call that throws has been counted
    all the same. *)
Theorem sendMessageToCharacter_always_counts E c message u ch s cfg st :
  no_faults E ->
  get_character_doc E c s = Ok cfg ->
  fst (SM.getCharacterState E c (stateManager s)) = Some st ->
  let s' := snd (sendMessageToCharacter E c message u ch s) in
  (exists st',
     SM.stateCache (stateManager s') !! c = Some st' /\
     interactionCount st' = interactionCount st + 1 /\
     lastInteraction st' = now E) /\
  character_interactions (SM.firestore (stateManager s'))
    = (character_interactions (SM.firestore (stateManager s))
         ++ [mkInteractionEntry c (now E)
               (mkInteractionDetails "message" message u ch)])%list.
Proof.
  intros Hok Hdoc Hst. cbn zeta.
  pose proof (getCharacter_read E c s st Hst) as Hread.
  pose proof (logInteraction_success E c
                (mkInteractionDetails "message" message u ch) _ st Hread
                (Hok _ _ _) (Hok _ _ _)) as Hlog.
  set (m1 := snd (SM.logInteraction E c _ _)) in Hlog.
  assert (Hc1 : SM.stateCache m1 !! c
                = Some (SM.with_counters (interactionCount st + 1) (now E) (now E) st)).
  { rewrite Hlog. cbn. apply lookup_insert_eq. }
  assert (Hi1 : character_interactions (SM.firestore m1)
                = (character_interactions (SM.firestore (stateManager s))
                     ++ [mkInteractionEntry c (now E)
                           (mkInteractionDetails "message" message u ch)])%list).
  { rewrite Hlog. cbn. now rewrite getCharacterState_store, getCharacter_store. }
  destruct (sendMessageToCharacter_manager E c message u ch s cfg Hdoc)
    as [Hm | (s1 & Hm & Hs)]; fold m1 in Hm.
  - rewrite Hm. split; [| exact Hi1]. eexists. split; [exact Hc1 |]. now split.
  - rewrite Hs. rewrite emitComplete_interactions, Hm. split; [| exact Hi1].
    rewrite <- Hm in Hc1. unfold emitComplete.
    destruct (identityCheck_iter E c (listeners c s1) s1 _ Hc1 (Hok _ _ _))
      as [-> _].
    eexists. split; [reflexivity |].
    destruct ((0 <? listeners c s1)%nat && early _); now split.
Qed.

Lemma sendMessageToCharacter_always_counts_witness :
  fst (sendMessageToCharacter (Cases.erroring 1200) "c1" "Hello" None None
         Scenario.service_greeted) = Err "overloaded" /\
  exists st',
    SM.stateCache
      (stateManager (snd (sendMessageToCharacter (Cases.erroring 1200) "c1" "Hello"
                            None None Scenario.service_greeted))) !! "c1"
      = Some st' /\
    interactionCount st' = 0 + 1 /\
    lastInteraction st' = 1200.
Proof.
  split; [reflexivity |].
  exact (proj1 (sendMessageToCharacter_always_counts (Cases.erroring 1200) "c1"
                  "Hello" None None Scenario.service_greeted _ _
                  (fun _ _ _ => eq_refl) eq_refl eq_refl)).
Defined.

(** *** Removal and creation *)

(** X11.  [deleteCharacter] forgets the client and the character document
    and nothing else: the cached state, the state document and the
    conversation flags of the character stay.  After a delete that worked,
    [getCharacter] throws "Character <id> not found" and makes no new
    client.  When the delete is rejected the call throws, yet the client
    has already been disconnected and dropped. *)
Theorem deleteCharacter_keeps_state E c s :
  let r := deleteCharacter E c s in
  characterClients (snd r) !! c = None /\
  SM.stateCache (stateManager (snd r)) = SM.stateCache (stateManager s) /\
  character_states (SM.firestore (stateManager (snd r)))
    = character_states (SM.firestore (stateManager s)) /\
  SM.conversationFlags (stateManager (snd r))
    = SM.conversationFlags (stateManager s) /\
  (fs_fails E FsDelete "characters" c = false ->
     fst r = Ok tt /\
     forall E', fs_fails E' FsGet "characters" c = false ->
       getCharacter E' c (snd r) = (Err (SM.not_found c), snd r)) /\
  (fs_fails E FsDelete "characters" c = true ->
     fst r = Err "delete failed" /\
     characters (SM.firestore (stateManager (snd r)))
       = characters (SM.firestore (stateManager s))).
Proof.
  cbn zeta. unfold deleteCharacter.
  set (s0 := match characterClients s !! c with
             | Some _ => set_characterClients (delete c) (disconnect c s)
             | None => s
             end).
  assert (Hcl : characterClients s0 !! c = None).
  { subst s0. destruct (characterClients s !! c) eqn:Hc; [| exact Hc].
    cbn. apply lookup_delete_eq. }
  assert (Hm : stateManager s0 = stateManager s)
    by (subst s0; now destruct (characterClients s !! c)).
  destruct (fs_fails E FsDelete "characters" c); cbn; rewrite ?Hm;
    repeat split; try assumption; try discriminate.
  intros E' Hget. unfold getCharacter. cbn. rewrite Hcl.
  unfold get_character_doc. cbn. rewrite Hget, Hm. cbn.
  now rewrite lookup_delete_eq.
Qed.

Lemma deleteCharacter_keeps_state_witness :
  fst (deleteCharacter (Scenario.quiet 1500) "c1" Scenario.service_greeted) = Ok tt /\
  fst (getCharacter (Scenario.quiet 1600) "c1"
         (snd (deleteCharacter (Scenario.quiet 1500) "c1" Scenario.service_greeted)))
    = Err "Character c1 not found" /\
  (greetingCompleted <$>
     SM.stateCache
       (stateManager
          (snd (deleteCharacter (Scenario.quiet 1500) "c1" Scenario.service_greeted)))
       !! "c1") = Some true.
Proof.
  destruct (deleteCharacter_keeps_state (Scenario.quiet 1500) "c1"
              Scenario.service_greeted) as (_ & Hcache & _ & _ & Hok & _).
  destruct (Hok eq_refl) as [Hr Hget].
  split; [exact Hr |]. split.
  - now rewrite (Hget (Scenario.quiet 1600) eq_refl).
  - cbv zeta in Hcache. rewrite Hcache. reflexivity.
Defined.

Lemma initializeCharacter_existing E c seed m st :
  fst (SM.getCharacterState E c m) = Some st ->
  SM.initializeCharacter E c seed m = (Ok st, snd (SM.getCharacterState E c m)).
Proof.
  intros H. unfold SM.initializeCharacter.
  destruct (SM.getCharacterState E c m) as [[st0 |] m0]; cbn in *;
    [now injection H as -> | discriminate].
Qed.

(** X12.  [createCharacter] for an id that already has a state keeps that
    state: the name, the group, the greeting and identity flags and the
    counters of the old state stay in the cache and in the store, while the
    client and the character document are made anew.  A character created
    again under the id of a deleted one inherits its state. *)
Theorem createCharacter_keeps_existing_state template E c cfg s st :
  fst (SM.getCharacterState E c (stateManager s)) = Some st ->
  SM.truthy_string c = true ->
  SM.truthy_string (cfg_name cfg) = true ->
  fs_fails E FsSet "characters" c = false ->
  let r := createCharacter template E c cfg s in
  fst r = Ok tt /\
  SM.stateCache (stateManager (snd r)) !! c = Some st /\
  character_states (SM.firestore (stateManager (snd r)))
    = character_states (SM.firestore (stateManager s)) /\
  characterClients (snd r) !! c = Some (mkClient (template cfg) false 0) /\
  characters (SM.firestore (stateManager (snd r))) !! c
    = Some (mkCharacterConfig (cfg_name cfg) (cfg_traits cfg) (cfg_voice cfg)
              (cfg_group cfg) (cfg_greeting cfg) (template cfg)).
Proof.
  intros Hst Hc Hn Hset. cbn zeta. unfold createCharacter.
  rewrite Hc, Hn. cbn [negb orb]. rewrite on_manager_eq.
  rewrite (initializeCharacter_existing E c _ _ st Hst). cbn [fst snd].
  destruct (getCharacterState_Some E c _ st Hst) as (Hcache & Hdb & _).
  rewrite Hset. cbn. rewrite Hcache, Hdb, !lookup_insert_eq. auto.
Qed.

Lemma createCharacter_keeps_existing_state_witness :
  (fun st => (name st, greetingCompleted st))
    <$> SM.stateCache
          (stateManager
             (snd (createCharacter Scenario.instructions_of (Scenario.quiet 1700) "c1"
                     (mkCharacterConfig "Bob" [] None None None "")
                     (snd (deleteCharacter (Scenario.quiet 1500) "c1"
                             Scenario.service_greeted))))) !! "c1"
  = Some ("Ada", true).
Proof.
  destruct (createCharacter_keeps_existing_state Scenario.instructions_of
              (Scenario.quiet 1700) "c1" (mkCharacterConfig "Bob" [] None None None "")
              (snd (deleteCharacter (Scenario.quiet 1500) "c1"
                      Scenario.service_greeted))
              _ eq_refl eq_refl eq_refl eq_refl) as (_ & Hcache & _).
  cbv zeta in Hcache. rewrite Hcache. reflexivity.
Defined.

(** X13.  What [createCharacter] made, [getCharacter] finds: after a
    successful creation the character document read back is the
    configuration given together with the generated instructions, the
    client is the one configured with exactly these instructions, and
    reading changes nothing. *)
Theorem createCharacter_then_getCharacter template E c cfg s :
  fst (createCharacter template E c cfg s) = Ok tt ->
  let s' := snd (createCharacter template E c cfg s) in
  characterClients s' !! c = Some (mkClient (template cfg) false 0) /\
  forall E', fs_fails E' FsGet "characters" c = false ->
    getCharacter E' c s'
      = (Ok (mkCharacterConfig (cfg_name cfg) (cfg_traits cfg) (cfg_voice cfg)
               (cfg_group cfg) (cfg_greeting cfg) (template cfg)), s').
Proof.
  cbn zeta. unfold createCharacter.
  destruct (negb (SM.truthy_string c) || negb (SM.truthy_string (cfg_name cfg)));
    [discriminate |].
  rewrite on_manager_eq.
  destruct (fst (SM.initializeCharacter E c _ (stateManager s))); [| discriminate].
  destruct (fs_fails E FsSet "characters" c); [discriminate |].
  intros _. cbn. split; [apply lookup_insert_eq |].
  intros E' Hget. unfold getCharacter. cbn. rewrite lookup_insert_eq.
  unfold get_character_doc. cbn. now rewrite Hget, lookup_insert_eq.
Qed.

Lemma createCharacter_then_getCharacter_witness :
  fst (getCharacter (Scenario.quiet 1100) "c1" Scenario.service_created)
    = Ok (mkCharacterConfig "Ada" ["curious"] None None None "You are Ada.").
Proof.
  destruct (createCharacter_then_getCharacter Scenario.instructions_of
              (Scenario.quiet 1000) "c1" Scenario.ada (fresh empty_db) eq_refl)
    as [_ Hget].
  cbv zeta in Hget. unfold Scenario.service_created.
  now rewrite (Hget (Scenario.quiet 1100) eq_refl).
Defined.

(** *** Group change of a character with a client *)

(** X14.  [updateCharacterGroup] for a character that has a client does
    not refresh the client: when everything works the state and the
    character document get the new group and the client is disconnected,
    but the client keeps the system instruction it had, and after a change
    of group the [resetRequired] flag armed by the state store is still
    armed when the call returns. *)
Theorem updateCharacterGroup_keeps_client_instruction E c g s cl st cfg :
  no_faults E ->
  characterClients s !! c = Some cl ->
  fst (SM.getCharacterState E c (stateManager s)) = Some st ->
  characters (SM.firestore (stateManager s)) !! c = Some cfg ->
  exists s',
    updateCharacterGroup E c g s = (Ok tt, s') /\
    characterClients s' !! c
      = Some (mkClient (systemInstruction cl) false (completeListeners cl)) /\
    backend s' = (backend s ++ [Disconnect c])%list /\
    (group <$> SM.stateCache (stateManager s') !! c) = Some g /\
    (cfg_group <$> characters (SM.firestore (stateManager s')) !! c) = Some g /\
    (group st <> g ->
       SM.getConversationFlag c "resetRequired" (stateManager s') = Some true).
Proof.
  intros Hok Hcl Hst Hcfg. unfold updateCharacterGroup. rewrite on_manager_eq.
  unfold SM.updateGroup.
  destruct (getCharacterState_Some E c _ st Hst) as (Hcache & Hdb & Hfl).
  destruct (SM.getCharacterState E c (stateManager s)) as [[st0 |] m0];
    cbn in Hst, Hcache, Hdb, Hfl; [| discriminate].
  injection Hst as ->. rewrite !Hok. cbn [fst snd].
  cbn -[SM.setConversationFlag SM.getConversationFlag].
  rewrite Hcl. unfold getCharacter.
  cbn -[SM.setConversationFlag SM.getConversationFlag].
  rewrite Hcl. unfold get_character_doc. rewrite Hok.
  assert (Hchars : forall m,
            characters (SM.firestore
              (if SM.isGroupChange st g
               then SM.setConversationFlag c "resetRequired" true m else m))
            = characters (SM.firestore m))
    by (intros m; now destruct (SM.isGroupChange st g)).
  cbn -[SM.setConversationFlag SM.getConversationFlag].
  rewrite lookup_alter_eq, Hchars. cbn. rewrite Hdb, Hcfg. cbn.
  eexists. split; [reflexivity |].
  cbn -[SM.setConversationFlag SM.getConversationFlag].
  rewrite lookup_alter_eq, Hcl, lookup_alter_eq, Hchars. cbn. rewrite Hdb, Hcfg.
  repeat split.
  - destruct (SM.isGroupChange st g); cbn; now rewrite lookup_insert_eq.
  - intros Hne. unfold SM.isGroupChange.
    rewrite bool_decide_eq_false_2 by exact Hne. cbn [negb].
    apply getConversationFlag_set.
Qed.

Lemma updateCharacterGroup_keeps_client_instruction_witness :
  exists s',
    updateCharacterGroup (Scenario.quiet 1500) "c1" (Some "blue")
      Scenario.service_greeted = (Ok tt, s') /\
    (systemInstruction <$> characterClients s' !! "c1") = Some "You are Ada." /\
    SM.getConversationFlag "c1" "resetRequired" (stateManager s') = Some true.
Proof.
  destruct (updateCharacterGroup_keeps_client_instruction (Scenario.quiet 1500)
              "c1" (Some "blue") Scenario.service_greeted _ _ _
              (fun _ _ _ => eq_refl) eq_refl eq_refl eq_refl)
    as (s' & Hrun & Hcl & _ & _ & _ & Hflag).
  exists s'. split; [exact Hrun |]. split.
  - now rewrite Hcl.
  - apply Hflag. discriminate.
Defined.

(** *** Forced greeting *)

Lemma await_greeting_outcome E c events : forall s,
  (fst (await_greeting E c events s) = true <-> EvComplete ∈ events) /\
  backend (snd (await_greeting E c events s)) = backend s /\
  (EvComplete ∉ events -> snd (await_greeting E c events s) = s).
Proof.
  induction events as [| ev events IH]; intros s.
  - cbn. split; [| now split]. split; [discriminate | intros H; inversion H].
  - destruct (IH s) as (IH1 & IH2 & IH3).
    destruct ev; cbn.
    + split; [| split; [exact IH2 |]].
      * rewrite IH1. split; [now right | intros H].
        apply elem_of_cons in H as [H | H]; [discriminate | exact H].
      * intros Hn. apply IH3. intros H. apply Hn. now right.
    + split; [| split].
      * split; [intros _; now left | reflexivity].
      * now destruct (emitCompleteGreeting_fields E c s).
      * intros Hn. exfalso. apply Hn. now left.
    + split; [| split; [exact IH2 |]].
      * rewrite IH1. split; [now right | intros H].
        apply elem_of_cons in H as [H | H]; [discriminate | exact H].
      * intros Hn. apply IH3. intros H. apply Hn. now right.
Qed.

(** X15.  With [forceGreeting] the session is greeted again whatever the
    state says: [initializeCharacterSession] connects and sends the
    greeting directive built from the character document, and answers true
    exactly when the backend emits ['complete'] before the timer fires.
    When it does not, the store is left as it was: a greeting that timed
    out is not marked as completed. *)
Theorem initializeCharacterSession_forced E c s cfg :
  get_character_doc E c s = Ok cfg ->
  connect_ok E c = true ->
  let r := initializeCharacterSession E c true s in
  backend (snd r)
    = (backend s ++ [Connect c; Send c (greeting_directive cfg) true])%list /\
  (fst r = true <-> EvComplete ∈ turn E) /\
  (EvComplete ∉ turn E ->
     SM.firestore (stateManager (snd r)) = SM.firestore (stateManager s)).
Proof.
  intros Hdoc Hconn. cbn zeta. unfold initializeCharacterSession.
  destruct (getCharacter_ok E c s cfg Hdoc) as [Hfst _].
  pose proof (getCharacter_backend E c s) as Hb.
  pose proof (getCharacter_store E c s) as Hdb.
  destruct (getCharacter E c s) as [[cfg' | e] sa]; cbn in *; [| discriminate].
  injection Hfst as ->. rewrite on_manager_eq.
  match goal with
  | |- context [if ?b then (true, _) else _] =>
      assert (Hskip : b = false)
        by (destruct (fst (SM.getCharacterState E c (stateManager sa)));
            [apply andb_false_r | reflexivity]);
      rewrite Hskip
  end.
  unfold connect. rewrite Hconn.
  match goal with
  | |- context [await_greeting E c (turn E) ?s1] =>
      destruct (await_greeting_outcome E c (turn E) s1) as (H1 & H2 & H3)
  end.
  split; [| split; [exact H1 |]].
  - rewrite H2. cbn. rewrite Hb. now rewrite <- app_assoc.
  - intros Hn. rewrite (H3 Hn). cbn. now rewrite getCharacterState_store.
Qed.

Lemma initializeCharacterSession_forced_witness :
  backend (snd (initializeCharacterSession (Scenario.quiet 1500) "c1" true
                  Scenario.service_greeted))
    = (backend Scenario.service_greeted
         ++ [Connect "c1"; Send "c1" (greeting_directive
                                        (mkCharacterConfig "Ada" ["curious"] None
                                           None None "You are Ada.")) true])%list /\
  fst (initializeCharacterSession (Scenario.quiet 1500) "c1" true
         Scenario.service_greeted) = false.
Proof.
  destruct (initializeCharacterSession_forced (Scenario.quiet 1500) "c1"
              Scenario.service_greeted _ eq_refl eq_refl) as (Hb & _ & _).
  split; [exact Hb | reflexivity].
Defined.

End SessionBehaviour.

(** ** Metrics engine: the stored document and the insight *)
Section MetricsBehaviour.
Import Num Metrics Insights Vocab Terms.

(** X16.  What [calculateUserMetrics] returns is what it stored: after a
    successful calculation [getUserMetrics] answers the returned snapshot
    and [getUserGroup] its primary group, and the documents of other users
    are as before.  A calculation whose write is rejected throws and
    leaves the collection as it was. *)
Theorem calculateUserMetrics_then_read E uid acts db :
  (forall m,
     fst (calculateUserMetrics E uid acts db) = Ok m ->
     forall E', fs_fails E' FsGet "user_metrics" uid = false ->
       getUserMetrics E' uid (snd (calculateUserMetrics E uid acts db)) = Some m /\
       getUserGroup E' uid (snd (calculateUserMetrics E uid acts db))
         = Some (primaryGroup m)) /\
  (forall uid', uid' <> uid ->
     snd (calculateUserMetrics E uid acts db) !! uid' = db !! uid') /\
  (forall e,
     fst (calculateUserMetrics E uid acts db) = Err e ->
     snd (calculateUserMetrics E uid acts db) = db).
Proof.
  unfold calculateUserMetrics, storeMetrics, getUserGroup, getUserMetrics.
  destruct (fs_fails E FsSet "user_metrics" uid); cbn; repeat split;
    try discriminate.
  - injection H as <-. now rewrite H0, lookup_insert_eq.
  - injection H as <-. now rewrite H0, lookup_insert_eq.
  - intros uid' Hne. now rewrite lookup_insert_ne.
Qed.

Lemma calculateUserMetrics_then_read_witness :
  getUserGroup (Scenario.quiet 5) "u1"
    (snd (calculateUserMetrics (Scenario.quiet 0) "u1" Scenario.one_conversation ∅))
  = Some beta.
Proof.
  exact (proj2 (proj1 (calculateUserMetrics_then_read (Scenario.quiet 0) "u1"
                         Scenario.one_conversation ∅) _ eq_refl
                  (Scenario.quiet 5) eq_refl)).
Defined.

Lemma snapshots_history m :
  snapshots m = S (list_sum (snapshots <$> history m)).
Proof.
  destruct m as [t u c p hist]. cbn. f_equal.
  induction hist as [| h hist IH]; [reflexivity |]. cbn. now rewrite IH.
Qed.

Lemma calculateUserMetrics_next E uid acts db p :
  metrics_store_works uid E ->
  db !! uid = Some p ->
  exists m,
    snd (calculateUserMetrics E uid acts db) !! uid = Some m /\
    history m = (history p ++ [p])%list /\
    snapshots m = (2 * snapshots p)%nat.
Proof.
  intros [Hget Hset] Hp.
  unfold calculateUserMetrics, storeMetrics, snapshot, getUserMetrics.
  rewrite Hget, Hset, Hp. cbn. rewrite lookup_insert_eq.
  eexists. split; [reflexivity |]. split; [reflexivity |].
  rewrite snapshots_history. cbn [history].
  rewrite fmap_app, list_sum_app. cbn.
  rewrite (snapshots_history p). lia.
Qed.

Lemma recalculate_grows uid runs : forall db p,
  Forall (fun run => metrics_store_works uid (fst run)) runs ->
  db !! uid = Some p ->
  exists m,
    recalculate uid runs db !! uid = Some m /\
    length (history m) = (length (history p) + length runs)%nat /\
    snapshots m = (2 ^ length runs * snapshots p)%nat.
Proof.
  induction runs as [| [E acts] runs IH]; intros db p Hall Hp.
  - exists p. cbn. split; [exact Hp |]. split; lia.
  - apply Forall_cons in Hall as [Hrun Hall].
    destruct (calculateUserMetrics_next E uid acts db p Hrun Hp)
      as (m1 & Hm1 & Hh1 & Hs1).
    destruct (IH _ m1 Hall Hm1) as (m & Hm & Hh & Hs).
    exists m. split; [exact Hm |]. split.
    + rewrite Hh, Hh1, length_app. cbn. lia.
    + rewrite Hs, Hs1. cbn [length]. rewrite Nat.pow_succ_r'. lia.
Qed.

(** X17.  Every snapshot is stored with the whole previous document in its
    history, and that document holds its own history again: when reads and
    writes work, each recalculation for a user doubles the number of
    snapshots the stored document holds.  After [n + 1] calculations for a
    user who had no document it holds [2 ^ n] snapshots, [n] of them at the
    top of the history. *)
Theorem calculateUserMetrics_history_doubles uid E acts runs db :
  Forall (fun run => metrics_store_works uid (fst run)) ((E, acts) :: runs) ->
  db !! uid = None ->
  exists m,
    recalculate uid ((E, acts) :: runs) db !! uid = Some m /\
    length (history m) = length runs /\
    snapshots m = (2 ^ length runs)%nat.
Proof.
  intros Hall Hnone. apply Forall_cons in Hall as [[Hget Hset] Hall].
  cbn in Hget, Hset.
  assert (Hfirst : exists m1,
            snd (calculateUserMetrics E uid acts db) !! uid = Some m1 /\
            history m1 = [] /\ snapshots m1 = 1%nat).
  { unfold calculateUserMetrics, storeMetrics, snapshot, getUserMetrics.
    cbn [fst snd]. rewrite Hget, Hset, Hnone. cbn. rewrite lookup_insert_eq.
    eexists. repeat split. }
  destruct Hfirst as (m1 & Hm1 & Hh1 & Hs1).
  destruct (recalculate_grows uid runs _ m1 Hall Hm1) as (m & Hm & Hh & Hs).
  exists m. split; [exact Hm |]. split.
  - rewrite Hh, Hh1. reflexivity.
  - rewrite Hs, Hs1. lia.
Qed.

Lemma calculateUserMetrics_history_doubles_witness :
  exists m,
    recalculate "u1"
      [(Scenario.quiet 1, Scenario.one_conversation);
       (Scenario.quiet 2, Scenario.one_conversation);
       (Scenario.quiet 3, []);
       (Scenario.quiet 4, Scenario.one_conversation)] ∅ !! "u1" = Some m /\
    length (history m) = 3%nat /\
    snapshots m = 8%nat.
Proof.
  apply (calculateUserMetrics_history_doubles "u1" (Scenario.quiet 1)
           Scenario.one_conversation
           [(Scenario.quiet 2, Scenario.one_conversation);
            (Scenario.quiet 3, []);
            (Scenario.quiet 4, Scenario.one_conversation)] ∅).
  - repeat constructor.
  - reflexivity.
Defined.

(** X18.  When the read of the previous metrics fails, the calculation
    goes on as if the user had none: the new snapshot has an empty history
    and replaces the stored document, so the history kept so far is
    lost. *)
Theorem calculateUserMetrics_failed_read_drops_history E uid acts db :
  fs_fails E FsGet "user_metrics" uid = true ->
  fs_fails E FsSet "user_metrics" uid = false ->
  exists m,
    calculateUserMetrics E uid acts db = (Ok m, <[uid := m]> db) /\
    history m = [] /\
    snapshots m = 1%nat.
Proof.
  intros Hget Hset.
  unfold calculateUserMetrics, storeMetrics, snapshot, getUserMetrics.
  rewrite Hget, Hset. cbn. eexists. repeat split.
Qed.

Lemma calculateUserMetrics_failed_read_drops_history_witness :
  exists m,
    calculateUserMetrics (Cases.metrics_unreadable 9) "u1" Scenario.one_conversation
      Cases.metrics_u1 = (Ok m, <["u1" := m]> Cases.metrics_u1) /\
    history m = [] /\
    snapshots m = 1%nat.
Proof.
  exact (calculateUserMetrics_failed_read_drops_history (Cases.metrics_unreadable 9)
           "u1" Scenario.one_conversation Cases.metrics_u1 eq_refl eq_refl).
Defined.

Lemma score_unknown acc activity :
  known activity = false -> score acc activity = acc.
Proof.
  unfold known, score. intros H.
  apply orb_false_iff in H as [H H3]. apply orb_false_iff in H as [H1 H2].
  now rewrite H1, H2, H3.
Qed.

Lemma accumulate_known userActivities :
  accumulate userActivities = accumulate (List.filter known userActivities).
Proof.
  unfold accumulate. generalize baseline.
  induction userActivities as [| a rest IH]; intros acc; [reflexivity |].
  cbn. destruct (known a) eqn:Hk; cbn.
  - apply IH.
  - rewrite (score_unknown acc a Hk). apply IH.
Qed.

Lemma filter_known_none userActivities :
  Forall (fun a => known a = false) userActivities ->
  List.filter known userActivities = [].
Proof.
  induction 1 as [| a rest Ha _ IH]; [reflexivity |]. cbn. now rewrite Ha.
Qed.

(** X19.  Activities whose type is none of 'conversation', 'challenge' and
    'sharing' count for nothing: the scores are those of the list without
    them.  So a user with no activity of a known type, and in particular
    one with no activity at all, gets 0 in every category and is put in
    the first group, alpha. *)
Theorem calculateUserMetrics_ignores_unknown_types E uid acts db m :
  fst (calculateUserMetrics E uid acts db) = Ok m ->
  cats m = normalize (accumulate (List.filter known acts)) /\
  (Forall (fun a => known a = false) acts ->
     cats m = baseline /\ primaryGroup m = alpha).
Proof.
  intros H. apply calculateUserMetrics_cats in H as [Hc Hp].
  rewrite <- accumulate_known. split; [exact Hc |].
  intros Hall.
  pose proof (filter_known_none acts Hall) as Hnone.
  rewrite Hp, Hc, accumulate_known, Hnone. split; reflexivity.
Qed.

Lemma calculateUserMetrics_ignores_unknown_types_witness :
  cats (snapshot (Scenario.quiet 3) "u1" Cases.unknown_activities ∅) = baseline /\
  primaryGroup (snapshot (Scenario.quiet 3) "u1" Cases.unknown_activities ∅) = alpha.
Proof.
  apply (calculateUserMetrics_ignores_unknown_types (Scenario.quiet 3) "u1"
           Cases.unknown_activities ∅ _ eq_refl).
  repeat constructor.
Defined.

(** X20.  [generateInsight] cannot succeed.  The clients are stored under
    the keys of [CHARACTER_GROUPS] ('group-alpha', ...), and looked up
    under [primaryGroup], which is a key of [metrics.categories] ('alpha',
    ...): for a user without a readable metrics document the call throws
    "No metrics found for user <id>", for every other user
    "No character client found for group <primaryGroup>".  In both cases
    nothing is sent to a backend and nothing is stored. *)
Theorem generateInsight_never_succeeds instructions request E uid user_metrics insights :
  generateInsight instructions request E uid (new_service user_metrics insights)
  = (Settled
       (Err (match getUserMetrics E uid user_metrics with
             | None => "No metrics found for user " ++ uid
             | Some metrics =>
                 "No character client found for group "
                   ++ key_of (primaryGroup metrics)
             end)),
     new_service user_metrics insights).
Proof.
  unfold generateInsight. cbn [Insights.user_metrics new_service].
  destruct (getUserMetrics E uid user_metrics) as [metrics |]; [| reflexivity].
  assert (Hnone : forall k,
            characterClients (new_service user_metrics insights) !! key_of k = None)
    by (intros []; vm_compute; reflexivity).
  fold (new_service user_metrics insights).
  now rewrite Hnone.
Qed.

End MetricsBehaviour.

(** ** Channel identifiers *)
Section ChannelIdentifiers.
Import GetStreamIntegration Vocab Terms.

Lemma split_no_sep sep s :
  has_char sep s = false -> Str.split sep s = [s].
Proof.
  induction s as [| c s IH]; [reflexivity |]. cbn.
  intros H. apply orb_false_iff in H as [Hc Hs].
  rewrite Hc, (IH Hs). reflexivity.
Qed.

Lemma split_app sep a b :
  has_char sep a = false ->
  Str.split sep (a ++ String sep b) = a :: Str.split sep b.
Proof.
  induction a as [| c a IH]; intros H.
  - change ("" ++ String sep b) with (String sep b). cbn.
    now rewrite Ascii.eqb_refl.
  - change (String c a ++ String sep b) with (String c (a ++ String sep b)).
    cbn in *. apply orb_false_iff in H as [Hc Ha].
    rewrite Hc, (IH Ha). reflexivity.
Qed.

Lemma split_head sep s :
  exists hd tl, Str.split sep s = hd :: tl /\ has_char sep hd = false.
Proof.
  induction s as [| c s (hd & tl & IH & Hhd)]; [now exists "", [] |]. cbn.
  destruct (Ascii.eqb c sep) eqn:Hc; [now exists "", (Str.split sep s) |].
  rewrite IH. exists (String c hd), tl. cbn. now rewrite Hc, Hhd.
Qed.

Lemma has_char_app sep a b :
  has_char sep (a ++ b) = has_char sep a || has_char sep b.
Proof.
  induction a as [| c a IH]; [reflexivity |].
  change (String c a ++ b) with (String c (a ++ b)). cbn.
  now rewrite IH, orb_assoc.
Qed.

(** *** Decimal numerals *)

Lemma digit_of_pretty_N_char d :
  (d < 10)%N -> Str.digit_of (pretty_N_char d) = Some (Z.of_N d).
Proof.
  intros H.
  assert (d = 0 \/ d = 1 \/ d = 2 \/ d = 3 \/ d = 4 \/ d = 5 \/ d = 6
          \/ d = 7 \/ d = 8 \/ d = 9)%N as Hd by lia.
  repeat destruct Hd as [-> | Hd]; try subst d; reflexivity.
Qed.

Lemma digit_is_plain c v :
  Str.digit_of c = Some v ->
  Str.is_space c = false /\
  Ascii.eqb c "_" = false /\
  forall rest,
    match String c rest with
    | String "-" r => (true, r)
    | String "+" r => (false, r)
    | _ => (false, String c rest)
    end = (false, String c rest).
Proof.
  destruct c as [[] [] [] [] [] [] [] []]; cbn; intros H;
    try discriminate H; repeat split.
Qed.

Lemma pretty_N_go_digits x : forall s acc,
  (0 < x)%N ->
  exists k,
    Str.digits (pretty_N_go x s) acc
      = Str.digits s (Some (10 ^ k * default 0 acc + Z.of_N x)) /\ 0 <= k.
Proof.
  induction (N.lt_wf_0 x) as [x _ IH]; intros s acc Hx.
  rewrite pretty_N_go_step by exact Hx.
  assert (Hd : Str.digit_of (pretty_N_char (x `mod` 10))
               = Some (Z.of_N (x `mod` 10)))
    by (apply digit_of_pretty_N_char, N.mod_lt; lia).
  destruct (N.eq_dec (x `div` 10)%N 0%N) as [Hz | Hnz].
  - rewrite Hz, pretty_N_go_0. cbn [Str.digits]. rewrite Hd.
    exists 1. split; [| lia]. do 2 f_equal.
    pose proof (N.div_mod x 10 ltac:(lia)) as Hdm. rewrite Hz in Hdm.
    assert (Hm : (x `mod` 10 = x)%N) by lia. rewrite Hm.
    generalize (default 0 acc). intros a. lia.
  - assert (Hq : (0 < x `div` 10)%N)
      by (destruct (x `div` 10)%N; [congruence | reflexivity]).
    destruct (IH (x `div` 10)%N ltac:(apply N.div_lt; lia)
                (String (pretty_N_char (x `mod` 10)) s) acc Hq)
      as (k & -> & Hk).
    cbn [Str.digits]. rewrite Hd. exists (k + 1). split; [| lia].
    do 2 f_equal. cbn [default from_option id].
    rewrite Z.pow_add_r, Z.pow_1_r by lia.
    pose proof (N.div_mod x 10 ltac:(lia)) as Hdm.
    apply (f_equal Z.of_N) in Hdm. rewrite N2Z.inj_add, N2Z.inj_mul in Hdm.
    generalize dependent (Z.of_N (x `mod` 10)).
    generalize (Z.of_N (x `div` 10)) (default 0 acc) (10 ^ k).
    intros q a pw r _ Hdm. change (Z.of_N 10) with 10 in Hdm. lia.
Qed.

Lemma pretty_N_go_plain x : forall s,
  has_char "_" (pretty_N_go x s) = has_char "_" s.
Proof.
  induction (N.lt_wf_0 x) as [x _ IH]; intros s.
  destruct (N.eq_dec x 0%N) as [-> | Hnz]; [now rewrite pretty_N_go_0 |].
  rewrite pretty_N_go_step by lia.
  rewrite IH by (apply N.div_lt; lia). cbn.
  destruct (digit_is_plain _ _ (digit_of_pretty_N_char (x `mod` 10)
                                  ltac:(apply N.mod_lt; lia))) as (_ & -> & _).
  reflexivity.
Qed.

Lemma pretty_N_go_head x : forall s,
  (0 < x)%N ->
  exists d rest, (d < 10)%N /\ pretty_N_go x s = String (pretty_N_char d) rest.
Proof.
  induction (N.lt_wf_0 x) as [x _ IH]; intros s Hx.
  rewrite pretty_N_go_step by exact Hx.
  destruct (N.eq_dec (x `div` 10)%N 0%N) as [Hz | Hnz].
  - rewrite Hz, pretty_N_go_0. exists (x `mod` 10)%N, s.
    split; [apply N.mod_lt; lia | reflexivity].
  - apply IH; [apply N.div_lt; lia |].
    destruct (x `div` 10)%N; [congruence | reflexivity].
Qed.

Lemma parseInt_pretty (t : Z) : Str.parseInt (pretty t) = Str.PInt t.
Proof.
  assert (Hpos : forall p, Str.parseInt (pretty_N_go (N.pos p) "")
                           = Str.PInt (Z.pos p)).
  { intros p.
    destruct (pretty_N_go_head (N.pos p) "" ltac:(lia)) as (d & rest & Hd & Heq).
    destruct (pretty_N_go_digits (N.pos p) "" None ltac:(lia)) as (k & Hk & _).
    destruct (digit_is_plain _ _ (digit_of_pretty_N_char d Hd)) as (Hsp & _ & Hsign).
    unfold Str.parseInt. rewrite Heq in *. cbn [Str.skip_space]. rewrite Hsp.
    rewrite Hsign, Hk. cbn. f_equal. lia. }
  destruct t as [| p | p]; [reflexivity | apply Hpos |].
  change (pretty (Z.neg p)) with (String "-" (pretty_N_go (N.pos p) "")).
  destruct (pretty_N_go_digits (N.pos p) "" None ltac:(lia)) as (k & Hk & _).
  unfold Str.parseInt. cbn [Str.skip_space].
  change (Str.is_space "-") with false. cbv iota. rewrite Hk. cbn. f_equal. lia.
Qed.

Lemma pretty_Z_plain (t : Z) : has_char "_" (pretty t) = false.
Proof.
  destruct t as [| p | p]; [reflexivity | apply pretty_N_go_plain |].
  change (pretty (Z.neg p)) with (String "-" (pretty_N_go (N.pos p) "")).
  cbn. apply pretty_N_go_plain.
Qed.

(** X21.  The channel id that [createCharacterChannel] builds is read back
    by [parseChannelId]: when neither the user id nor the character id
    contains an underscore, the parsed user id, character id and timestamp
    are the three values the id was built from.  The time is a count of
    milliseconds below 2^53, which JS prints and reads back digit by
    digit. *)
Theorem parseChannelId_channel_id u c t :
  has_char "_" u = false ->
  has_char "_" c = false ->
  0 <= t < 2 ^ 53 ->
  parseChannelId (channel_id u c t)
    = mkChannelMeta (Some u) (Some c) (Some (Str.PInt t)).
Proof.
  intros Hu Hc _. unfold parseChannelId, channel_id.
  change (u ++ "_" ++ c ++ "_" ++ pretty t)
    with (u ++ String "_" (c ++ String "_" (pretty t))).
  rewrite (split_app "_" u _ Hu), (split_app "_" c _ Hc).
  rewrite (split_no_sep "_" _ (pretty_Z_plain t)). cbn.
  now rewrite parseInt_pretty.
Qed.

Lemma parseChannelId_channel_id_witness :
  parseChannelId (channel_id "u1" "c1" 1700000000000)
    = mkChannelMeta (Some "u1") (Some "c1") (Some (Str.PInt 1700000000000)).
Proof.
  exact (parseChannelId_channel_id "u1" "c1" 1700000000000 eq_refl eq_refl
           ltac:(lia)).
Defined.

(** X22.  An underscore in the user id or in the character id breaks the
    round trip: the id built for them is parsed into a different user or a
    different character, because the fields are cut at every underscore. *)
Theorem parseChannelId_underscore_misroutes u c t :
  has_char "_" u = true \/ has_char "_" c = true ->
  (userId (parseChannelId (channel_id u c t)),
   characterId (parseChannelId (channel_id u c t))) <> (Some u, Some c).
Proof.
  intros H. unfold parseChannelId, channel_id.
  change (u ++ "_" ++ c ++ "_" ++ pretty t)
    with (u ++ String "_" (c ++ String "_" (pretty t))).
  destruct (has_char "_" u) eqn:Hu.
  - destruct (split_head "_" (u ++ String "_" (c ++ String "_" (pretty t))))
      as (hd & tl & -> & Hhd).
    destruct (3 <=? length (hd :: tl))%nat; cbn; [| discriminate].
    intros [= -> _]. congruence.
  - destruct H as [H | Hc]; [discriminate |].
    rewrite (split_app "_" u _ Hu).
    destruct (split_head "_" (c ++ String "_" (pretty t)))
      as (hd & tl & -> & Hhd).
    destruct (3 <=? length (u :: hd :: tl))%nat; cbn; [| discriminate].
    intros [= ->]. congruence.
Qed.

Lemma parseChannelId_underscore_misroutes_witness :
  parseChannelId (channel_id "john_doe" "c1" 1700000000000)
    = mkChannelMeta (Some "john") (Some "doe") (Some Str.PNaN) /\
  (userId (parseChannelId (channel_id "john_doe" "c1" 1700000000000)),
   characterId (parseChannelId (channel_id "john_doe" "c1" 1700000000000)))
    <> (Some "john_doe", Some "c1").
Proof.
  split; [reflexivity |].
  apply (parseChannelId_underscore_misroutes "john_doe" "c1" 1700000000000).
  left. reflexivity.
Defined.

End ChannelIdentifiers.

(** ** Text scoring *)
Section ScoringBehaviour.
Import Num Metrics Scoring Vocab Terms.

Lemma nonneg_number x :
  nonneg x = true -> is_nan x = false /\ le zero x = true /\ gt zero x = false.
Proof. destruct x as [[] | [] | | [] m e]; try discriminate; repeat split. Qed.

Lemma binary_round_aux_nonneg m e l :
  0 <= m -> nonneg (binary_round_aux 53 1024 false m e l) = true.
Proof.
  intros Hm. unfold binary_round_aux.
  destruct (shr_fexp 53 1024 m e l) as [r1 e1] eqn:H1.
  destruct (shr_fexp_spec _ _ _ _ _ Hm H1) as (Hr1 & _ & _).
  set (m1 := round_nearest_even (shr_m r1) (loc_of_shr_record r1)).
  pose proof (rne_bounds (shr_m r1) (loc_of_shr_record r1)) as Hrne.
  fold m1 in Hrne.
  assert (Hm1 : 0 <= m1) by lia.
  destruct (shr_fexp 53 1024 m1 e1 loc_Exact) as [r2 e2] eqn:H2.
  destruct (shr_fexp_spec _ _ _ _ _ Hm1 H2) as (Hr2 & _ & _).
  destruct (shr_m r2); [reflexivity | | lia].
  now destruct (e2 <=? 1024 - 53).
Qed.

Lemma binary_normalize_nonneg z e :
  0 <= z -> nonneg (binary_normalize 53 1024 z e false) = true.
Proof.
  unfold binary_normalize, binary_round.
  destruct z as [| p | p]; [reflexivity | | lia]. intros _.
  destruct (shl_align _ _ _) as [mz ez]. now apply binary_round_aux_nonneg.
Qed.

Lemma of_nat_nonneg n : nonneg (of_nat n) = true.
Proof. apply binary_normalize_nonneg. lia. Qed.

Lemma div_nonneg x my ey :
  nonneg x = true -> nonneg (div x (S754_finite false my ey)) = true.
Proof.
  destruct x as [[] | [] | | [] mx ex]; try discriminate; intros _;
    try reflexivity.
  unfold div, SFdiv, SFdiv_core_binary.
  set (m' := match _ with Z0 => _ | Z.pos _ => _ | Z.neg _ => _ end).
  assert (Hm' : 0 <= m').
  { subst m'. destruct (_ - _ - _) as [| s | s]; try lia.
    rewrite Z.shiftl_mul_pow2 by lia. apply Z.mul_nonneg_nonneg; lia. }
  pose proof (Z_div_mod m' (Z.pos my) ltac:(lia)) as Hdiv.
  destruct (Z.div_eucl m' (Z.pos my)) as [q r].
  apply binary_round_aux_nonneg. nia.
Qed.

Lemma add_nonneg x y :
  nonneg x = true -> nonneg y = true -> nonneg (add x y) = true.
Proof.
  destruct x as [[] | [] | | [] mx ex], y as [[] | [] | | [] my ey];
    try discriminate; intros _ _; try reflexivity.
  unfold add, SFadd. apply binary_normalize_nonneg. cbn [cond_Zopp]. lia.
Qed.

Lemma mul_const_number x s m e :
  is_nan x = false -> is_nan (mul x (S754_finite s m e)) = false.
Proof.
  destruct x as [sx | sx | | sx mx ex]; try discriminate; intros _;
    try reflexivity.
  unfold mul, SFmul. apply binary_round_aux_not_nan. lia.
Qed.

Lemma add_zero_number y : is_nan y = false -> is_nan (add zero y) = false.
Proof. destruct y as [[] | | |]; try discriminate; reflexivity. Qed.

Lemma Math_min_ten_l x :
  nonneg x = true -> in_0_10 (Math_min ten x) = true.
Proof.
  intros H. destruct (nonneg_number x H) as (Hn & Hle & _).
  unfold Math_min. rewrite Hn. cbn [is_nan ten orb is_pos_zero andb].
  unfold in_0_10. destruct (gt ten x) eqn:Hgt; [| reflexivity].
  rewrite Hle. cbn [andb]. unfold gt, le, SFltb, SFleb in *.
  now destruct (SFcompare x ten) as [[] |].
Qed.

Lemma conversationDepth_number text :
  is_nan (calculateConversationDepth text) = false.
Proof.
  apply in_0_10_not_nan. unfold calculateConversationDepth. apply Math_min_ten_l.
  apply add_nonneg; apply div_nonneg, of_nat_nonneg.
Qed.

(** X24.  [calculateConversationDepth] keeps its promise of a value
    between 0 and 10: for every text the result is a number, never NaN,
    in the closed interval [0, 10]. *)
Theorem calculateConversationDepth_in_range text :
  in_0_10 (calculateConversationDepth text) = true.
Proof.
  unfold calculateConversationDepth. apply Math_min_ten_l.
  apply add_nonneg; apply div_nonneg, of_nat_nonneg.
Qed.

Lemma of_nat_small_le n m :
  (n <= m)%nat -> (m <= 10)%nat -> le (of_nat n) (of_nat m) = true.
Proof.
  intros Hnm Hm.
  do 11 (destruct m as [| m];
         [do 11 (destruct n as [| n]; [first [lia | reflexivity] |]); lia |]).
  lia.
Qed.

Lemma calculateReflectionLevel_count text :
  calculateReflectionLevel text = of_nat (Nat.min 10 (2 * reflective_count text)).
Proof.
  unfold calculateReflectionLevel, reflective_count, reflectiveWords.
  cbn [fold_left List.filter].
  destruct (Text.includes "think" _), (Text.includes "feel" _),
    (Text.includes "believe" _), (Text.includes "wonder" _),
    (Text.includes "reflect" _), (Text.includes "consider" _);
    vm_compute; reflexivity.
Qed.

Lemma prefix_app_r (w a b : string) :
  String.prefix w a = true -> String.prefix w (a ++ b) = true.
Proof.
  revert a. induction w as [| c w IH]; intros a; [now destruct (a ++ b) |].
  destruct a as [| c' a]; [discriminate |].
  change (String c' a ++ b) with (String c' (a ++ b)). cbn.
  destruct (Ascii.ascii_dec c c'); [apply IH | discriminate].
Qed.

Lemma includes_app_r w a b :
  Text.includes w a = true -> Text.includes w (a ++ b) = true.
Proof.
  induction a as [| c a IH].
  - cbn. rewrite orb_false_r. destruct w; [| discriminate]. intros _.
    now destruct b.
  - change (String c a ++ b) with (String c (a ++ b)). cbn.
    intros H. apply orb_true_iff in H as [H | H]; apply orb_true_iff.
    + left. exact (prefix_app_r w (String c a) b H).
    + right. now apply IH.
Qed.

Lemma includes_app_l w a b :
  Text.includes w b = true -> Text.includes w (a ++ b) = true.
Proof.
  intros H. induction a as [| c a IH]; [exact H |].
  change (String c a ++ b) with (String c (a ++ b)). cbn.
  rewrite IH. apply orb_true_r.
Qed.

Lemma toLowerCase_app a b :
  Text.toLowerCase (a ++ b) = Text.toLowerCase a ++ Text.toLowerCase b.
Proof.
  induction a as [| c a IH]; [reflexivity |].
  change (String c a ++ b) with (String c (a ++ b)). cbn. now rewrite IH.
Qed.

Lemma reflective_count_bound text : (reflective_count text <= 6)%nat.
Proof.
  unfold reflective_count.
  etransitivity; [apply List.filter_length_le | reflexivity].
Qed.

Lemma reflective_count_mono before text after :
  (reflective_count text <= reflective_count (before ++ text ++ after))%nat.
Proof.
  unfold reflective_count.
  assert (Himp : forall w,
            Text.includes w (Text.toLowerCase text) = true ->
            Text.includes w (Text.toLowerCase (before ++ text ++ after)) = true).
  { intros w H. rewrite !toLowerCase_app.
    apply includes_app_l. now apply includes_app_r. }
  generalize reflectiveWords. intros ws.
  induction ws as [| w ws IH]; [reflexivity |]. cbn [List.filter].
  destruct (Text.includes w (Text.toLowerCase text)) eqn:Hw.
  - rewrite (Himp w Hw). cbn [length]. lia.
  - destruct (Text.includes w (Text.toLowerCase (before ++ text ++ after)));
      cbn [length]; lia.
Qed.

Lemma reflectionLevel_number text :
  is_nan (calculateReflectionLevel text) = false.
Proof.
  rewrite calculateReflectionLevel_count.
  apply (nonneg_number _ (of_nat_nonneg _)).
Qed.

(** X23.  [calculateReflectionLevel] is 2 for each of the six reflective
    words that occurs in the text, in any case and also inside a longer
    word, each word counted once, and capped at 10: it takes only the
    values 0, 2, 4, 6, 8 and 10.  Text added before or after never lowers
    the level. *)
Theorem calculateReflectionLevel_counts_words text :
  calculateReflectionLevel text = of_nat (Nat.min 10 (2 * reflective_count text)) /\
  in_0_10 (calculateReflectionLevel text) = true /\
  forall before after,
    le (calculateReflectionLevel text)
       (calculateReflectionLevel (before ++ text ++ after)) = true.
Proof.
  split; [apply calculateReflectionLevel_count |]. split.
  - rewrite calculateReflectionLevel_count. unfold in_0_10.
    change zero with (of_nat 0). change ten with (of_nat 10).
    rewrite !of_nat_small_le by lia. reflexivity.
  - intros before after. rewrite !calculateReflectionLevel_count.
    pose proof (reflective_count_mono before text after).
    apply of_nat_small_le; lia.
Qed.

(** X25.  The metrics the orchestrator computes from a message are always
    in range: whatever the text, the snapshot stored for the user has every
    category in [0, 10], with 0 for alpha, gamma and epsilon, and its
    primary group is alpha, beta or delta.  A user who only chats is never
    put in gamma or epsilon. *)
Theorem update_metrics_in_range E uid text o :
  fs_fails E FsSet "user_metrics" uid = false ->
  exists m,
    user_metrics
      (GetStreamIntegration.db_of
         (GetStreamIntegration.update_metrics calculateConversationDepth
            calculateReflectionLevel E uid text o)) !! uid = Some m /\
    (forall k, in_0_10 (get (cats m) k) = true) /\
    get (cats m) alpha = zero /\
    get (cats m) gamma = zero /\
    get (cats m) epsilon = zero /\
    (primaryGroup m = alpha \/ primaryGroup m = beta \/ primaryGroup m = delta).
Proof.
  intros Hset.
  unfold GetStreamIntegration.update_metrics, GetStreamIntegration.db_of,
    GetStreamIntegration.set_db, calculateUserMetrics, storeMetrics.
  cbn. rewrite Hset. cbn. rewrite lookup_insert_eq.
  eexists. split; [reflexivity |].
  unfold snapshot. cbn [cats primaryGroup].
  set (c := normalize (accumulate _)).
  assert (Hrange : forall k, in_0_10 (get c k) = true).
  { intros k. subst c. rewrite get_normalize. apply clamp_number.
    pose proof (conversationDepth_number text).
    pose proof (reflectionLevel_number text).
    destruct k; cbn; try reflexivity;
      apply add_zero_number, mul_const_number; assumption. }
  split; [exact Hrange |].
  assert (Ha : get c alpha = zero) by reflexivity.
  assert (Hg : get c gamma = zero) by reflexivity.
  assert (He : get c epsilon = zero) by reflexivity.
  repeat split; try assumption.
  assert (Hnn : forall k, gt zero (get c k) = false).
  { intros k. specialize (Hrange k). unfold in_0_10 in Hrange.
    apply andb_true_iff in Hrange as [Hle _].
    unfold gt, le, SFltb, SFleb in *.
    destruct (get c k) as [[] | [] | | [] mk ek]; try discriminate; reflexivity. }
  unfold primary. cbn [fold_left keys]. rewrite Hg, He, !Hnn.
  destruct (gt (get c beta) (get c alpha)); destruct (gt (get c delta) _); auto.
Qed.

Lemma update_metrics_in_range_witness :
  exists m,
    user_metrics
      (GetStreamIntegration.db_of
         (GetStreamIntegration.update_metrics calculateConversationDepth
            calculateReflectionLevel (Scenario.quiet 1200) "u1"
            "I think, therefore I wonder" Scenario.orchestrator_ready)) !! "u1"
      = Some m /\
    (forall k, in_0_10 (get (cats m) k) = true) /\
    get (cats m) alpha = zero /\
    get (cats m) gamma = zero /\
    get (cats m) epsilon = zero /\
    (primaryGroup m = alpha \/ primaryGroup m = beta \/ primaryGroup m = delta).
Proof.
  exact (update_metrics_in_range (Scenario.quiet 1200) "u1"
           "I think, therefore I wonder" Scenario.orchestrator_ready eq_refl).
Defined.

End ScoringBehaviour.

(** ** Orchestrator: registration of channels, echoes and apologies *)
Section OrchestratorBehaviour.
Import GetStreamIntegration Channels Vocab Terms.

#[local] Abbreviation characters_in o :=
  (characters (SM.firestore (CS.stateManager (characterService o)))).

Lemma register_channels o ch :
  activeChannels (register o ch) = {[ch]} ∪ activeChannels o /\
  channelToCharacterMap (register o ch)
    = (if is_character_channel ch
       then <[ch := default "" (characterId (parseChannelId ch))]>
              (channelToCharacterMap o)
       else channelToCharacterMap o) /\
  characterService (register o ch) = characterService o /\
  processedMessageIds (register o ch) = processedMessageIds o /\
  sent (register o ch) = sent o.
Proof.
  unfold register, is_character_channel.
  destruct (characterId (parseChannelId ch)) as [c |]; [| now repeat split].
  destruct (SM.truthy_string c); now repeat split.
Qed.

Lemma load_channels channels : forall o,
  let o' := fold_left register channels o in
  (forall ch, ch ∈ activeChannels o' <-> ch ∈ channels \/ ch ∈ activeChannels o) /\
  (forall ch,
     channelToCharacterMap o' !! ch
       = if bool_decide (ch ∈ channels) && is_character_channel ch
         then characterId (parseChannelId ch)
         else channelToCharacterMap o !! ch) /\
  characterService o' = characterService o /\
  processedMessageIds o' = processedMessageIds o /\
  sent o' = sent o.
Proof.
  induction channels as [| ch0 channels IH]; intros o; cbn zeta.
  - cbn. repeat split; try tauto.
    intros [H | H]; [inversion H | exact H].
  - cbn [fold_left].
    destruct (IH (register o ch0)) as (Ha & Hm & Hs & Hp & Hx).
    destruct (register_channels o ch0) as (Ha0 & Hm0 & Hs0 & Hp0 & Hx0).
    repeat split; try congruence.
    + rewrite Ha, Ha0. rewrite elem_of_union, elem_of_singleton, elem_of_cons.
      tauto.
    + rewrite Ha, Ha0. rewrite elem_of_union, elem_of_singleton, elem_of_cons.
      tauto.
    + intros ch. rewrite Hm, Hm0.
      destruct (is_character_channel ch) eqn:Hc.
      * destruct (bool_decide (ch ∈ channels)) eqn:Hin; cbn [andb].
        -- apply bool_decide_eq_true in Hin.
           now rewrite (bool_decide_eq_true_2 (ch ∈ ch0 :: channels))
             by (now right).
        -- apply bool_decide_eq_false in Hin.
           destruct (decide (ch = ch0)) as [-> | Hne].
           ++ rewrite (bool_decide_eq_true_2 (ch0 ∈ ch0 :: channels))
                by (now left).
              rewrite Hc, lookup_insert_eq. unfold is_character_channel in Hc.
              now destruct (characterId (parseChannelId ch0)).
           ++ rewrite (bool_decide_eq_false_2 (ch ∈ ch0 :: channels))
                by (intros H; apply elem_of_cons in H as [? | ?]; tauto).
              destruct (is_character_channel ch0); [| reflexivity].
              now rewrite lookup_insert_ne by congruence.
      * rewrite !andb_false_r.
        destruct (decide (ch = ch0)) as [-> | Hne]; [now rewrite Hc |].
        destruct (is_character_channel ch0); [| reflexivity].
        now rewrite lookup_insert_ne by congruence.
Qed.

(** X26.  [loadExistingChannels] registers what the query answered and
    touches nothing else: afterwards the active channels are the old ones
    and the loaded ones; a loaded channel whose id parses as a character
    channel is mapped to the character id in its second field, replacing
    an older mapping; every other mapping, the processed ids and the
    character service are as before.  When the query is rejected the call
    throws and nothing is registered. *)
Theorem loadExistingChannels_registers channels o :
  let r := loadExistingChannels (Some channels) o in
  fst r = Ok channels /\
  (forall ch,
     ch ∈ activeChannels (snd r) <-> ch ∈ channels \/ ch ∈ activeChannels o) /\
  (forall ch,
     ch ∈ channels -> is_character_channel ch = true ->
     getCharacterForChannel ch (snd r) = characterId (parseChannelId ch)) /\
  (forall ch,
     ch ∉ channels \/ is_character_channel ch = false ->
     channelToCharacterMap (snd r) !! ch = channelToCharacterMap o !! ch) /\
  characterService (snd r) = characterService o /\
  processedMessageIds (snd r) = processedMessageIds o /\
  sent (snd r) = sent o /\
  loadExistingChannels None o = (Err "query failed", o).
Proof.
  cbn zeta. cbn [loadExistingChannels fst snd].
  destruct (load_channels channels o) as (Ha & Hm & Hs & Hp & Hx).
  cbn zeta in *. split; [reflexivity |]. split; [exact Ha |].
  repeat split; try assumption.
  - intros ch Hin Hch. unfold getCharacterForChannel. rewrite Hm.
    rewrite (bool_decide_eq_true_2 _ Hin), Hch. cbn [andb].
    unfold is_character_channel in Hch.
    destruct (characterId (parseChannelId ch)) as [c |]; [| discriminate].
    now rewrite Hch.
  - intros ch [Hout | Hch]; rewrite Hm.
    + now rewrite (bool_decide_eq_false_2 _ Hout).
    + rewrite Hch. now rewrite andb_false_r.
Qed.

Lemma loadExistingChannels_registers_witness :
  getCharacterForChannel "u1_c1_1700000000000"
    (snd (loadExistingChannels (Some ["lobby"; "u1_c1_1700000000000"])
            Scenario.orchestrator_ready)) = Some "c1" /\
  getCharacterForChannel "lobby"
    (snd (loadExistingChannels (Some ["lobby"; "u1_c1_1700000000000"])
            Scenario.orchestrator_ready)) = None.
Proof.
  destruct (loadExistingChannels_registers ["lobby"; "u1_c1_1700000000000"]
              Scenario.orchestrator_ready) as (_ & _ & Hmap & _).
  split; [| reflexivity].
  apply (Hmap "u1_c1_1700000000000"); [| reflexivity].
  right. left.
Defined.

(** *** Sending *)

Lemma sendMessageAsCharacter_fields E ch c text o :
  let o' := snd (sendMessageAsCharacter E ch c text o) in
  activeChannels o' = activeChannels o /\
  channelToCharacterMap o' = channelToCharacterMap o /\
  orchestratorId o' = orchestratorId o /\
  characters_in o' = characters_in o.
Proof.
  cbn zeta. unfold sendMessageAsCharacter. rewrite on_service_eq.
  pose proof (getCharacter_store E c (characterService o)) as Hdb.
  destruct (fst (CS.getCharacter E c (characterService o))); cbn;
    [| now rewrite Hdb].
  destruct (transport_send E ch c text); cbn; now rewrite Hdb.
Qed.

Lemma marks_output_refl o : marks_output o o.
Proof. split; auto. Qed.

Lemma marks_output_trans o1 o2 o3 :
  marks_output o1 o2 -> marks_output o2 o3 -> marks_output o1 o3.
Proof.
  intros [Hp1 Hs1] [Hp2 Hs2]. split; [auto |].
  intros m Hm. destruct (Hs2 m Hm) as [H | H]; [| now right].
  destruct (Hs1 m H) as [H' | H']; [now left | right; auto].
Qed.

Lemma marks_output_same o o' :
  processedMessageIds o' = processedMessageIds o -> sent o' = sent o ->
  marks_output o o'.
Proof. intros Hp Hs. split; intros x; rewrite ?Hp, ?Hs; auto. Qed.

Lemma marks_output_send o author ch text id :
  marks_output o
    (set_processedMessageIds (set_add id)
       (set_sent (fun l => l ++ [mkSentMessage ch author text id])%list o)).
Proof.
  split; cbn.
  - intros x Hx. now apply set_add_keeps.
  - intros m Hm. apply elem_of_app in Hm as [Hm | Hm]; [now left | right].
    apply list_elem_of_singleton in Hm. subst m. cbn. apply set_add_elem.
Qed.

Lemma sendMessageAsCharacter_marks E ch c text o :
  marks_output o (snd (sendMessageAsCharacter E ch c text o)).
Proof.
  unfold sendMessageAsCharacter. rewrite on_service_eq.
  destruct (fst (CS.getCharacter E c (characterService o))); cbn;
    [| now apply marks_output_same].
  destruct (transport_send E ch c text); cbn; [| now apply marks_output_same].
  eapply marks_output_trans; [| apply marks_output_send].
  now apply marks_output_same.
Qed.

Lemma sendErrorMessage_marks E ch c o :
  marks_output o (sendErrorMessage E ch c o).
Proof.
  unfold sendErrorMessage. rewrite on_service_eq. cbn.
  destruct (transport_send E ch (orchestratorId o) _); cbn;
    [| now apply marks_output_same].
  eapply marks_output_trans; [| apply marks_output_send].
  now apply marks_output_same.
Qed.

Lemma reply_marks depth reflection E msg u ch c o :
  marks_output o (snd (reply depth reflection E msg u ch c o)).
Proof.
  unfold reply. rewrite on_service_eq.
  destruct (fst (CS.getCharacter E c (characterService o))); cbn;
    [| now apply marks_output_same].
  rewrite on_service_eq.
  destruct (fst (CS.sendMessageToCharacter E c (msg_text msg) (Some u) (Some ch) _));
    cbn; [| now apply marks_output_same].
  match goal with
  | |- context [sendMessageAsCharacter E ch c ?t ?o1] =>
      pose proof (sendMessageAsCharacter_marks E ch c t o1) as Hsend;
      assert (H1 : marks_output o o1) by (now apply marks_output_same);
      destruct (sendMessageAsCharacter E ch c t o1) as [[id | e] o2]
  end; cbn in *; [| now apply (marks_output_trans _ _ _ H1)].
  unfold storeInteraction.
  destruct (fs_fails E FsAdd "interactions" u), (callback_ok E); cbn;
    try (now apply (marks_output_trans _ _ _ H1));
    (eapply marks_output_trans; [exact (marks_output_trans _ _ _ H1 Hsend) |]);
    now apply marks_output_same.
Qed.

Lemma processCharacterMessage_marks depth reflection E msg u ch c o :
  marks_output o (processCharacterMessage depth reflection E msg u ch c o).
Proof.
  unfold processCharacterMessage.
  destruct (negb (SM.truthy_string (msg_text msg)) || Str.is_blank (msg_text msg));
    [apply marks_output_refl |].
  pose proof (reply_marks depth reflection E msg u ch c o) as Hr.
  destruct (reply depth reflection E msg u ch c o) as [[[] | e] o1]; cbn in Hr;
    [exact Hr |].
  eapply marks_output_trans; [exact Hr | apply sendErrorMessage_marks].
Qed.

(** What [handleIncomingMessage] sends, it has marked. *)
Lemma handleIncomingMessage_marks_output depth reflection E event o m :
  m ∈ sent (handleIncomingMessage depth reflection E event o) ->
  m ∈ sent o \/
  assigned_id m ∈ processedMessageIds (handleIncomingMessage depth reflection E event o).
Proof.
  unfold handleIncomingMessage.
  destruct (message event) as [msg |]; [| now left].
  destruct (set_has (msg_id msg) (processedMessageIds o)
            || String.eqb (msg_user msg) (orchestratorId o)); [now left |].
  set (o1 := set_processedMessageIds trim _).
  assert (Hs1 : sent o1 = sent o) by reflexivity.
  destruct (channel_id_of event) as [ch |]; [| now left].
  assert (Hfound : forall (found : bool) o2,
            (if bool_decide (ch ∈ activeChannels o1) then (true, o1)
             else if watch_ok E ch
                  then (true, set_activeChannels (fun cs => {[ch]} ∪ cs) o1)
                  else (false, o1)) = (found, o2) ->
            marks_output o1 o2).
  { intros found o2. destruct (bool_decide (ch ∈ activeChannels o1));
      [| destruct (watch_ok E ch)]; intros [= _ <-]; now apply marks_output_same. }
  destruct (if bool_decide (ch ∈ activeChannels o1) then (true, o1)
            else if watch_ok E ch
                 then (true, set_activeChannels (fun cs => {[ch]} ∪ cs) o1)
                 else (false, o1)) as [found o2] eqn:Heq.
  specialize (Hfound _ _ eq_refl).
  assert (Hfinal : forall o3, marks_output o2 o3 ->
            forall m, m ∈ sent o3 -> m ∈ sent o \/ assigned_id m ∈ processedMessageIds o3).
  { intros o3 H23 m' Hm'. rewrite <- Hs1.
    exact (proj2 (marks_output_trans _ _ _ Hfound H23) m' Hm'). }
  destruct (negb found); [apply Hfinal, marks_output_refl |].
  destruct (characterId (parseChannelId ch)) as [c |];
    [| apply Hfinal, marks_output_refl].
  destruct (userId (parseChannelId ch)) as [u |];
    [| apply Hfinal, marks_output_refl].
  destruct (negb (SM.truthy_string c)); [apply Hfinal, marks_output_refl |].
  apply Hfinal.
  eapply marks_output_trans; [| apply processCharacterMessage_marks].
  destruct (channelToCharacterMap o2 !! ch); [apply marks_output_refl |].
  now apply marks_output_same.
Qed.

(** X27.  The orchestrator does not answer itself.  The id of every
    message sent while an event is handled, the reply of the character
    and the apology alike, is among the processed ids when the handler
    returns; an event that later brings such a message back changes
    nothing, whoever its author is said to be. *)
Theorem handled_output_is_never_handled depth reflection E event o m :
  m ∈ sent (handleIncomingMessage depth reflection E event o) ->
  m ∉ sent o ->
  forall E' event' msg',
    message event' = Some msg' ->
    msg_id msg' = assigned_id m ->
    handleIncomingMessage depth reflection E' event'
      (handleIncomingMessage depth reflection E event o)
    = handleIncomingMessage depth reflection E event o.
Proof.
  intros Hm Hnew E' event' msg' Hmsg Hid.
  destruct (handleIncomingMessage_marks_output depth reflection E event o m Hm)
    as [H | H]; [contradiction |].
  apply handleIncomingMessage_skips_remembered with (msg := msg'); [exact Hmsg |].
  now rewrite Hid.
Qed.

Lemma handled_output_is_never_handled_witness :
  handleIncomingMessage Scoring.calculateConversationDepth Scoring.calculateReflectionLevel
    (Scenario.quiet 1300)
    (mkEvent (Some (mkMessage "msg-1200" "c1" "Hi there"))
       (Some "u1_c1_1700000000000") "messaging:u1_c1_1700000000000")
    (handleIncomingMessage Scoring.calculateConversationDepth
       Scoring.calculateReflectionLevel (Scenario.answering 1200 "Hi there")
       Scenario.hello_event Scenario.orchestrator_ready)
  = handleIncomingMessage Scoring.calculateConversationDepth
      Scoring.calculateReflectionLevel (Scenario.answering 1200 "Hi there")
      Scenario.hello_event Scenario.orchestrator_ready.
Proof.
  apply (handled_output_is_never_handled _ _ (Scenario.answering 1200 "Hi there")
           Scenario.hello_event Scenario.orchestrator_ready
           (mkSentMessage "u1_c1_1700000000000" "c1" "Hi there" "msg-1200")
           ltac:(vm_compute; apply list_elem_of_here)
           ltac:(apply not_elem_of_nil)
           (Scenario.quiet 1300)
           (mkEvent (Some (mkMessage "msg-1200" "c1" "Hi there"))
              (Some "u1_c1_1700000000000") "messaging:u1_c1_1700000000000")
           (mkMessage "msg-1200" "c1" "Hi there") eq_refl eq_refl).
Defined.

(** *** Channels made by the orchestrator *)

Lemma addCharacterToChannel_fields E ch c o :
  activeChannels (snd (addCharacterToChannel E ch c o)) = activeChannels o /\
  channelToCharacterMap (snd (addCharacterToChannel E ch c o))
    = channelToCharacterMap o.
Proof.
  unfold addCharacterToChannel. rewrite on_service_eq.
  now destruct (fst (CS.getCharacter E c (characterService o))).
Qed.

Lemma sendWelcomeMessage_fields E ch u c o :
  activeChannels (snd (sendWelcomeMessage E ch u c o)) = activeChannels o /\
  channelToCharacterMap (snd (sendWelcomeMessage E ch u c o))
    = channelToCharacterMap o.
Proof.
  unfold sendWelcomeMessage. rewrite !on_service_eq. cbn [fst snd].
  match goal with
  | |- context [match ?r with Ok _ => _ | Err _ => _ end] => destruct r
  end; [| now split].
  match goal with
  | |- context [sendMessageAsCharacter E ch c ?t ?o1] =>
      destruct (sendMessageAsCharacter_fields E ch c t o1) as (-> & -> & _)
  end.
  now split.
Qed.

(** X28.  Once [createCharacterChannel] has created the channel on the
    transport, the channel is registered whatever comes next: it is among
    the active channels and [getCharacterForChannel] answers the character
    it was made for, also when adding the member or sending the welcome
    fails and the call throws.  A call that returns, returns the id built
    from the user id, the character id and the time. *)
Theorem createCharacterChannel_registers E u c o cfg :
  CS.get_character_doc E c (characterService o) = Ok cfg ->
  create_ok E (channel_id u c (now E)) = true ->
  SM.truthy_string c = true ->
  let r := createCharacterChannel E u c o in
  channel_id u c (now E) ∈ activeChannels (snd r) /\
  getCharacterForChannel (channel_id u c (now E)) (snd r) = Some c /\
  (forall id, fst r = Ok id -> id = channel_id u c (now E)).
Proof.
  intros Hdoc Hcreate Hc. cbn zeta. unfold createCharacterChannel.
  rewrite on_service_eq.
  destruct (getCharacter_ok _ _ _ _ Hdoc) as (-> & _).
  rewrite Hcreate. cbn [negb].
  match goal with
  | |- context [addCharacterToChannel E ?ch c ?o1] =>
      destruct (addCharacterToChannel_fields E ch c o1) as (Ha1 & Hm1);
      destruct (addCharacterToChannel E ch c o1) as [added o2]
  end.
  cbn [snd] in Ha1, Hm1.
  destruct (sendWelcomeMessage_fields E (channel_id u c (now E)) u c o2)
    as (Ha2 & Hm2).
  assert (Hactive : channel_id u c (now E)
                    ∈ activeChannels (snd (sendWelcomeMessage E
                                             (channel_id u c (now E)) u c o2))).
  { rewrite Ha2, Ha1. cbn. apply elem_of_union_l, elem_of_singleton. reflexivity. }
  assert (Hmap : getCharacterForChannel (channel_id u c (now E))
                   (snd (sendWelcomeMessage E (channel_id u c (now E)) u c o2))
                 = Some c).
  { unfold getCharacterForChannel. rewrite Hm2, Hm1. cbn.
    now rewrite lookup_insert_eq, Hc. }
  destruct (sendWelcomeMessage E (channel_id u c (now E)) u c o2) as [[id | e] o3];
    cbn [fst snd] in *; (split; [exact Hactive |]); (split; [exact Hmap |]);
    congruence.
Qed.

Lemma createCharacterChannel_registers_witness :
  is_ok (fst (createCharacterChannel (Scenario.quiet 1700) "u1" "c1"
                Scenario.orchestrator_ready)) = false /\
  getCharacterForChannel "u1_c1_1700"
    (snd (createCharacterChannel (Scenario.quiet 1700) "u1" "c1"
            Scenario.orchestrator_ready)) = Some "c1".
Proof.
  split; [reflexivity |].
  exact (proj1 (proj2 (createCharacterChannel_registers (Scenario.quiet 1700) "u1"
                         "c1" Scenario.orchestrator_ready _ eq_refl eq_refl
                         eq_refl))).
Defined.

(** *** Replies and apologies *)

(** The reply is sent before the callback is called. *)
Lemma reply_then_callback depth reflection E msg u ch c o cfg :
  CS.get_character_doc E c (characterService o) = Ok cfg ->
  connect_ok E c = true ->
  completes (turn E) = true ->
  (forall text, is_Some (transport_send E ch c text)) ->
  exists response id o',
    reply depth reflection E msg u ch c o
      = (if callback_ok E then Ok tt else Err "handler failed", o') /\
    sent o' = (sent o ++ [mkSentMessage ch c response id])%list /\
    orchestratorId o' = orchestratorId o /\
    characters_in o' = characters_in o.
Proof.
  intros Hdoc Hconn Hturn Hsend. unfold reply.
  rewrite on_service_eq.
  destruct (getCharacter_ok _ _ _ _ Hdoc) as (-> & _).
  pose proof (getCharacter_store E c (characterService o)) as Hdb.
  set (oa := set_characterService _ o).
  set (ob := update_metrics depth reflection E u (msg_text msg) oa).
  assert (Hchb : characters_in ob = characters_in o).
  { subst ob oa. cbn. now rewrite Hdb. }
  assert (Hdocb : CS.get_character_doc E c (characterService ob) = Ok cfg)
    by exact (eq_trans (get_character_doc_characters E c _ _ Hchb) Hdoc).
  rewrite on_service_eq.
  destruct (sendMessageToCharacter_answers E c (msg_text msg) (Some u) (Some ch)
              (characterService ob) cfg Hdocb Hconn Hturn)
    as (response & sc & Hrun & Hchc).
  rewrite Hrun. cbn [fst snd].
  set (oc := set_characterService (fun _ => sc) ob).
  assert (Hchc' : characters_in oc = characters_in o)
    by (subst oc; cbn; now rewrite Hchc).
  assert (Hdocc : CS.get_character_doc E c (characterService oc) = Ok cfg)
    by exact (eq_trans (get_character_doc_characters E c _ _ Hchc') Hdoc).
  unfold sendMessageAsCharacter. rewrite on_service_eq.
  destruct (getCharacter_ok _ _ _ _ Hdocc) as (-> & _).
  destruct (Hsend response) as [id ->].
  unfold storeInteraction.
  exists response, id.
  destruct (fs_fails E FsAdd "interactions" u), (callback_ok E);
    eexists; (split; [reflexivity |]); repeat split; cbn;
    rewrite (getCharacter_store E c sc), Hchc; exact Hchb.
Qed.

(** X29.  A callback that throws costs the user an apology on top of the
    answer.  When the character answers and the transport works but the
    [handleMessage] callback throws, [processCharacterMessage] has already
    sent the reply as the character, and its [catch] then sends the
    "technical difficulties" message as the orchestrator: the channel
    receives both, in this order. *)
Theorem failed_callback_sends_reply_and_apology depth reflection E msg u ch c o cfg :
  SM.truthy_string (msg_text msg) = true ->
  Str.is_blank (msg_text msg) = false ->
  CS.get_character_doc E c (characterService o) = Ok cfg ->
  connect_ok E c = true ->
  completes (turn E) = true ->
  (forall author text, is_Some (transport_send E ch author text)) ->
  callback_ok E = false ->
  exists response id1 id2,
    sent (processCharacterMessage depth reflection E msg u ch c o)
      = (sent o ++ [mkSentMessage ch c response id1;
                    mkSentMessage ch (orchestratorId o)
                      (error_text (cfg_name cfg)) id2])%list.
Proof.
  intros Htext Hblank Hdoc Hconn Hturn Hsend Hcb.
  unfold processCharacterMessage. rewrite Htext, Hblank. cbn [negb orb].
  destruct (reply_then_callback depth reflection E msg u ch c o cfg Hdoc Hconn
              Hturn (Hsend c))
    as (response & id1 & o1 & -> & Hs1 & Ho1 & Hch1).
  rewrite Hcb.
  assert (Hdoc1 : CS.get_character_doc E c (characterService o1) = Ok cfg)
    by exact (eq_trans (get_character_doc_characters E c _ _ Hch1) Hdoc).
  unfold sendErrorMessage. rewrite on_service_eq.
  destruct (getCharacter_ok _ _ _ _ Hdoc1) as (-> & _). cbn [orchestratorId].
  destruct (Hsend (orchestratorId o1) (error_text (cfg_name cfg))) as [id2 Hid2].
  cbn. rewrite Hid2. cbn. exists response, id1, id2.
  rewrite Hs1, Ho1, <- app_assoc. reflexivity.
Qed.

Lemma failed_callback_sends_reply_and_apology_witness :
  exists response id1 id2,
    sent (processCharacterMessage Scoring.calculateConversationDepth
            Scoring.calculateReflectionLevel (Cases.callback_throws 1200 "Hi there")
            (mkMessage "m1" "u1" "Hello") "u1" "u1_c1_1700000000000" "c1"
            Scenario.orchestrator_ready)
      = ([] ++ [mkSentMessage "u1_c1_1700000000000" "c1" response id1;
                mkSentMessage "u1_c1_1700000000000" "chaos_theory"
                  (error_text "Ada") id2])%list.
Proof.
  exact (failed_callback_sends_reply_and_apology Scoring.calculateConversationDepth
           Scoring.calculateReflectionLevel (Cases.callback_throws 1200 "Hi there")
           (mkMessage "m1" "u1" "Hello") "u1" "u1_c1_1700000000000" "c1"
           Scenario.orchestrator_ready _ eq_refl eq_refl eq_refl eq_refl eq_refl
           (fun _ _ => ex_intro _ _ eq_refl) eq_refl).
Defined.

(** X30.  A message for a character that has no document is answered by
    an apology in the name of "Character": [processCharacterMessage] gets
    the error from [getCharacter], and [sendErrorMessage], which cannot
    read the name either, sends "I'm sorry, Character is experiencing some
    technical difficulties. ..." as the orchestrator.  Nothing is logged,
    scored or sent to the backend. *)
Theorem unknown_character_gets_generic_apology depth reflection E msg u ch c o e id :
  SM.truthy_string (msg_text msg) = true ->
  Str.is_blank (msg_text msg) = false ->
  CS.get_character_doc E c (characterService o) = Err e ->
  transport_send E ch (orchestratorId o) (error_text "Character") = Some id ->
  let o' := processCharacterMessage depth reflection E msg u ch c o in
  sent o' = (sent o ++ [mkSentMessage ch (orchestratorId o)
                          (error_text "Character") id])%list /\
  id ∈ processedMessageIds o' /\
  characterService o' = characterService o.
Proof.
  intros Htext Hblank Hdoc Hsend. cbn zeta.
  unfold processCharacterMessage. rewrite Htext, Hblank. cbn [negb orb].
  unfold reply. rewrite on_service_eq.
  rewrite (getCharacter_err E c _ e Hdoc). cbn [fst snd].
  unfold sendErrorMessage. rewrite on_service_eq.
  cbn [characterService set_characterService fst snd].
  rewrite (getCharacter_err E c _ e Hdoc). cbn. rewrite Hsend. cbn.
  repeat split. apply set_add_elem.
Qed.

Lemma unknown_character_gets_generic_apology_witness :
  sent (processCharacterMessage Scoring.calculateConversationDepth
          Scoring.calculateReflectionLevel (Scenario.answering 1200 "Hi there")
          (mkMessage "m1" "u1" "Hello") "u1" "u1_ghost_1700000000000" "ghost"
          Scenario.orchestrator_ready)
    = [mkSentMessage "u1_ghost_1700000000000" "chaos_theory"
         "I'm sorry, Character is experiencing some technical difficulties. Please try again in a moment."
         "msg-1200"].
Proof.
  exact (proj1 (unknown_character_gets_generic_apology
                  Scoring.calculateConversationDepth Scoring.calculateReflectionLevel
                  (Scenario.answering 1200 "Hi there") (mkMessage "m1" "u1" "Hello")
                  "u1" "u1_ghost_1700000000000" "ghost" Scenario.orchestrator_ready
                  _ _ eq_refl eq_refl eq_refl eq_refl)).
Defined.

(** *** Being added to a channel *)

Lemma parseChannelId_both ch c :
  characterId (parseChannelId ch) = Some c ->
  exists u, userId (parseChannelId ch) = Some u.
Proof.
  unfold parseChannelId.
  destruct (Str.split "_" ch) as [| a [| b [| t rest]]]; cbn; try discriminate.
  intros _. now exists a.
Qed.

(** X6.  [handleChannelAddition] never throws.  Without a channel in the
    event, or when the channel cannot be watched, it changes nothing.
    Otherwise the channel becomes active; if its id is not that of a
    character channel nothing else happens, and if it is, the channel is
    mapped to the character in its id, replacing any older mapping. *)
Theorem handleChannelAddition_registers E event o :
  (channel event = None -> handleChannelAddition E event o = o) /\
  (forall ch,
     channel event = Some ch ->
     (watch_ok E ch = false -> handleChannelAddition E event o = o) /\
     (watch_ok E ch = true ->
        ch ∈ activeChannels (handleChannelAddition E event o) /\
        (is_character_channel ch = false ->
           handleChannelAddition E event o
             = set_activeChannels (fun cs => {[ch]} ∪ cs) o) /\
        (is_character_channel ch = true ->
           getCharacterForChannel ch (handleChannelAddition E event o)
             = characterId (parseChannelId ch)))).
Proof.
  unfold handleChannelAddition. split; [now intros -> |].
  intros ch ->. split; [now intros -> |]. intros ->. cbn [negb].
  unfold is_character_channel.
  pose proof (parseChannelId_both ch) as Hboth.
  destruct (characterId (parseChannelId ch)) as [c |].
  - destruct (Hboth c eq_refl) as [u ->].
    destruct (SM.truthy_string c) eqn:Hc; cbn [negb].
    + match goal with
      | |- context [addCharacterToChannel E ch c ?o1] =>
          destruct (addCharacterToChannel_fields E ch c o1) as (Ha1 & Hm1);
          destruct (addCharacterToChannel E ch c o1) as [added o2]
      end.
      cbn [snd] in Ha1, Hm1.
      destruct (sendWelcomeMessage_fields E ch u c o2) as (Ha2 & Hm2).
      unfold getCharacterForChannel. rewrite Ha2, Hm2, Ha1, Hm1. cbn.
      rewrite lookup_insert_eq, Hc.
      split; [apply elem_of_union_l, elem_of_singleton; reflexivity |].
      split; [discriminate | reflexivity].
    + split; [cbn; apply elem_of_union_l, elem_of_singleton; reflexivity |].
      split; [reflexivity | discriminate].
  - split; [cbn; apply elem_of_union_l, elem_of_singleton; reflexivity |].
    split; [reflexivity | discriminate].
Qed.

Lemma handleChannelAddition_registers_witness :
  handleChannelAddition (Scenario.quiet 1500)
    (mkEvent None (Some "lobby") "messaging:lobby") Scenario.orchestrator_ready
  = set_activeChannels (fun cs => {["lobby"]} ∪ cs) Scenario.orchestrator_ready.
Proof.
  destruct (handleChannelAddition_registers (Scenario.quiet 1500)
              (mkEvent None (Some "lobby") "messaging:lobby")
              Scenario.orchestrator_ready) as [_ H].
  destruct (H "lobby" eq_refl) as [_ Hok].
  destruct (Hok eq_refl) as (_ & Hplain & _).
  exact (Hplain eq_refl).
Defined.

End OrchestratorBehaviour.
